(** * libvips-mcp: the tool registry and the switch-based dispatcher of
      [src/index.ts], embedded as a state-and-exception monad over an explicit
      world (filesystem, the module-level bindings [vips] and [tools], the
      console, and a trace of the calls made into the two image libraries).

    Conventions of the model.
    - JavaScript values that travel through the handler ([args as any]) are
      [JValue]s.  Numbers are exact rationals or NaN: IEEE rounding,
      infinities and negative zero are outside the model.  Strings are byte
      strings; on ASCII text they agree with JavaScript's UTF-16 strings.
    - The two image libraries (sharp, wasm-vips), the operating system's say
      on [mkdir], and the engine built-ins [JSON.stringify] and string to
      number conversion are parameters, collected in the record [Backends].
    - [Vips()] either works on this machine or does not: its outcome is one
      parameter, the same at every attempt.
    - [Math.random()] is not resolved: a value that depends on a draw is kept
      as a function of the draw ([ARandom]) inside the recorded call. *)

From Stdlib Require Import ZArith QArith Qround Qpower String Ascii List Bool Lia.
From stdpp Require Import base gmap strings list pretty.

Set Warnings "-register-all".

Open Scope string_scope.
Open Scope list_scope.

(* ===================================================================== *)
(** ** JavaScript values                                                  *)
(* ===================================================================== *)

Inductive Num :=
| NaN
| Fin (q : Q).

Inductive JValue :=
| JUndefined
| JNull
| JBool (b : bool)
| JNum (n : Num)
| JStr (s : string)
| JBuffer (s : string)
| JArr (items : list JValue)
| JObj (fields : list (string * JValue)).

Definition num (z : Z) : JValue := JNum (Fin (inject_Z z)).

Definition dq : string := String (ascii_of_nat 34) EmptyString.
Definition nl : string := String (ascii_of_nat 10) EmptyString.

(** Number to string: the decimal expansion, which is what the engine prints
    for a number of moderate size with few digits (every JSON literal has a
    finite expansion; exponent notation is outside the model). *)
Fixpoint frac_digits (fuel : nat) (r d : Z) : string :=
  match fuel with
  | O => ""
  | S fuel' =>
      if (r =? 0)%Z then ""
      else pretty ((10 * r) / d)%Z +:+ frac_digits fuel' ((10 * r) mod d)%Z d
  end.

Definition show_num (q : Q) : string :=
  let n := Qnum q in
  let d := Zpos (Qden q) in
  if (n mod d =? 0)%Z then pretty (n / d)%Z
  else
    let a := Z.abs n in
    (if (n <? 0)%Z then "-" else "") +:+ pretty (a / d)%Z +:+ "." +:+
    frac_digits 20 (a mod d)%Z d.

Fixpoint join (sep : string) (l : list string) : string :=
  match l with
  | [] => ""
  | [x] => x
  | x :: rest => x +:+ sep +:+ join sep rest
  end.

(** [String(v)], which is also what a template literal does to [${v}]. *)
Fixpoint show (v : JValue) : string :=
  match v with
  | JUndefined => "undefined"
  | JNull => "null"
  | JBool true => "true"
  | JBool false => "false"
  | JNum NaN => "NaN"
  | JNum (Fin q) => show_num q
  | JStr s => s
  | JBuffer s => s
  | JArr items =>
      join "," (List.map (fun x => match x with
                                   | JUndefined | JNull => ""
                                   | _ => show x
                                   end) items)
  | JObj _ => "[object Object]"
  end.

(** Truthiness, as tested by [if (v)], [!v], [v ? a : b] and [v || d]. *)
Definition truthy (v : JValue) : bool :=
  match v with
  | JUndefined | JNull => false
  | JBool b => b
  | JNum NaN => false
  | JNum (Fin q) => negb (Qeq_bool q 0)
  | JStr s => negb (String.eqb s "")
  | JBuffer _ | JArr _ | JObj _ => true
  end.

Definition js_or (v d : JValue) : JValue := if truthy v then v else d.

(** [v === 's'] for a string literal (the labels of a [switch]). *)
Definition str_is (v : JValue) (s : string) : bool :=
  match v with
  | JStr x => String.eqb x s
  | _ => false
  end.

(** Property read [o.k] on a value that is an object. *)
Fixpoint assoc {A} (k : string) (l : list (string * A)) : option A :=
  match l with
  | [] => None
  | (k', x) :: rest => if String.eqb k k' then Some x else assoc k rest
  end.

Definition field (o : JValue) (k : string) : JValue :=
  match o with
  | JObj fs => default JUndefined (assoc k fs)
  | _ => JUndefined
  end.

(** Assignment [o.k = x] on an object literal: replaces in place, or appends. *)
Fixpoint set_field (k : string) (x : JValue) (fs : list (string * JValue))
  : list (string * JValue) :=
  match fs with
  | [] => [(k, x)]
  | (k', y) :: rest =>
      if String.eqb k k' then (k, x) :: rest else (k', y) :: set_field k x rest
  end.

(** Arithmetic on numbers. *)
Definition num_lift2 (f : Q -> Q -> Q) (a b : Num) : Num :=
  match a, b with
  | Fin x, Fin y => Fin (Qred (f x y))
  | _, _ => NaN
  end.

Definition num_add := num_lift2 Qplus.
Definition num_sub := num_lift2 Qminus.
Definition num_mul := num_lift2 Qmult.
Definition num_div := num_lift2 Qdiv.
Definition num_neg (a : Num) : Num :=
  match a with Fin x => Fin (Qred (- x)) | NaN => NaN end.
Definition num_lt (a b : Num) : bool :=
  match a, b with
  | Fin x, Fin y => match Qcompare x y with Lt => true | _ => false end
  | _, _ => false
  end.
Definition Math_floor (a : Num) : Num :=
  match a with Fin x => Fin (inject_Z (Qfloor x)) | NaN => NaN end.

Definition Qn (z : Z) : Num := Fin (inject_Z z).

(** Number of times the body of [for (let i = 0; i < n; i++)] runs. *)
Definition trip_count (n : Num) : nat :=
  match n with
  | NaN => 0%nat
  | Fin q => Z.to_nat (Qceiling q)
  end.

(** String methods used on colours. *)
Fixpoint remove_first (c : ascii) (s : string) : string :=
  match s with
  | EmptyString => EmptyString
  | String a rest => if Ascii.eqb a c then rest else String a (remove_first c rest)
  end.

Definition substr (start len : nat) (s : string) : string := substring start len s.

Definition hex_digit (c : ascii) : option Z :=
  let n := Z.of_nat (nat_of_ascii c) in
  if ((48 <=? n) && (n <=? 57))%Z then Some (n - 48)%Z
  else if ((97 <=? n) && (n <=? 102))%Z then Some (n - 87)%Z
  else if ((65 <=? n) && (n <=? 70))%Z then Some (n - 55)%Z
  else None.

Fixpoint hex_prefix (s : string) (acc : option Z) : option Z :=
  match s with
  | EmptyString => acc
  | String c rest =>
      match hex_digit c with
      | Some d => hex_prefix rest (Some (16 * default 0%Z acc + d)%Z)
      | None => acc
      end
  end.

Definition is_space (c : ascii) : bool :=
  let n := nat_of_ascii c in
  ((9 <=? n) && (n <=? 13))%nat || (n =? 32)%nat.

Fixpoint skip_spaces (s : string) : string :=
  match s with
  | String c rest => if is_space c then skip_spaces rest else s
  | EmptyString => s
  end.

(** [parseInt(s, 16)]: leading blanks, a sign, an optional 0x, then the
    longest run of hexadecimal digits; NaN when that run is empty. *)
Definition parseInt16 (s : string) : Num :=
  let s1 := skip_spaces s in
  let '(neg, s2) :=
    match s1 with
    | String "-"%char r => (true, r)
    | String "+"%char r => (false, r)
    | _ => (false, s1)
    end in
  let s3 :=
    match s2 with
    | String "0"%char (String x r) =>
        if Ascii.eqb x "x"%char || Ascii.eqb x "X"%char then r else s2
    | _ => s2
    end in
  match hex_prefix s3 None with
  | None => NaN
  | Some z => Qn (if neg then - z else z)
  end.

(** Node's [path.dirname] (posix). *)
Definition is_slash (c : option ascii) : bool :=
  match c with
  | Some a => Ascii.eqb a "/"%char
  | None => false
  end.

Fixpoint dirname_scan (path : string) (i : nat) (matchedSlash : bool) : option nat :=
  match i with
  | O => None
  | S i' =>
      if is_slash (String.get i path) then
        if matchedSlash then dirname_scan path i' true else Some i
      else dirname_scan path i' false
  end.

Definition dirname (path : string) : string :=
  match path with
  | EmptyString => "."
  | _ =>
      let hasRoot := is_slash (String.get 0 path) in
      match dirname_scan path (String.length path - 1) true with
      | None => if hasRoot then "/" else "."
      | Some e => if hasRoot && (e =? 1)%nat then "//" else substring 0 e path
      end
  end.

(** The directories [mkdir(dir, {recursive: true})] makes sure exist. *)
Fixpoint dir_chain (fuel : nat) (d : string) : list string :=
  match fuel with
  | O => [d]
  | S fuel' =>
      let p := dirname d in
      if String.eqb p d then [d] else d :: dir_chain fuel' p
  end.

(* ===================================================================== *)
(** ** Protocol data: tool descriptors and responses                      *)
(* ===================================================================== *)

Inductive Schema :=
| SString (enum : option (list string))
| SNumber (minimum maximum : option Q)
| SBoolean
| SArray (items : Schema) (minItems maxItems : option nat).

Record Property := {
  p_name : string;
  p_schema : Schema;
  p_default : option JValue;
  p_description : string
}.

Record Tool := {
  name : string;
  description : string;
  properties : list Property;
  required : list string
}.

Record ContentItem := { type : string; text : string }.

Record Response := {
  content : list ContentItem;
  isError : option bool
}.

(** What a [throw] carries: an [Error] object (with its [name], "Error",
    "TypeError", ...) or any other value. *)
Inductive exn :=
| ErrorObj (ename message : string)
| Thrown (v : JValue).

Definition Error_ (msg : string) : exn := ErrorObj "Error" msg.
Definition TypeError (msg : string) : exn := ErrorObj "TypeError" msg.
Definition RangeError (msg : string) : exn := ErrorObj "RangeError" msg.

(** [error instanceof Error ? error.message : String(error)] *)
Definition exn_message (e : exn) : string :=
  match e with
  | ErrorObj _ m => m
  | Thrown v => show v
  end.

(** [`${error}`]: [Error.prototype.toString] on an Error object. *)
Definition exn_show (e : exn) : string :=
  match e with
  | ErrorObj n m =>
      if String.eqb n "" then m
      else if String.eqb m "" then n
      else n +:+ ": " +:+ m
  | Thrown v => show v
  end.

Inductive Result (A : Type) :=
| Ok (a : A)
| Throw (e : exn).
Arguments Ok {A} a.
Arguments Throw {A} e.

(* ===================================================================== *)
(** ** The world: filesystem, library calls, module-level bindings        *)
(* ===================================================================== *)

Definition Bytes := string.

Record FS := {
  files : gmap string Bytes;
  dirs : gset string
}.

Definition path_exists (f : FS) (p : string) : bool :=
  bool_decide (is_Some (files f !! p)) || bool_decide (p ∈ dirs f).

Definition write_file (f : FS) (p : string) (c : Bytes) : FS :=
  {| files := <[p := c]> (files f); dirs := dirs f |}.

Definition add_dirs (f : FS) (ds : list string) : FS :=
  {| files := files f; dirs := list_to_set ds ∪ dirs f |}.

(** Arguments handed to a library method.  [AImg] is a wasm-vips image
    (an expression over library calls); [ARandom f] is [f] of one
    [Math.random()] draw. *)
Inductive Arg :=
| AVal (v : JValue)
| AImg (e : VImage)
| ARandom (f : Num -> Arg)
with VImage :=
| VStatic (method : string) (args : list Arg)
| VMethod (recv : VImage) (method : string) (args : list Arg).

(** [sharp(input).m1(args1).m2(args2)...] *)
Record SharpPipe := {
  s_input : JValue;
  s_calls : list (string * list Arg)
}.

Definition sharp (input : JValue) : SharpPipe :=
  {| s_input := input; s_calls := [] |}.

Definition call (p : SharpPipe) (method : string) (args : list Arg) : SharpPipe :=
  {| s_input := s_input p; s_calls := s_calls p ++ [(method, args)] |}.

Definition Handle := nat.

(** Calls into the two image libraries, in the order they are made. *)
Inductive Call :=
| CVipsInit
| CVipsNew (method : string) (args : list Arg)
| CVipsGet (img : VImage) (member : string) (args : option (list Arg))
| CVipsWrite (img : VImage) (path : string)
| CSharpToFile (p : SharpPipe) (path : string)
| CSharpMetadata (input : JValue)
| CSharpStats (input : JValue).

Definition is_vips_call (c : Call) : bool :=
  match c with
  | CVipsInit | CVipsNew _ _ | CVipsGet _ _ _ | CVipsWrite _ _ => true
  | _ => false
  end.

Definition is_sharp_call (c : Call) : bool := negb (is_vips_call c).

(** Everything outside the repository that the handler calls. *)
Record Backends := {
  (* wasm-vips *)
  Vips : Result Handle;
  vips_new : Handle -> FS -> string -> list Arg -> option exn;
  vips_get : FS -> VImage -> string -> option (list Arg) -> Result JValue;
  vips_writeToFile : FS -> VImage -> string -> Result Bytes;
  (* sharp *)
  sharp_toFile : FS -> SharpPipe -> string -> Result Bytes;
  sharp_metadata : FS -> JValue -> Result JValue;
  sharp_stats : FS -> JValue -> Result JValue;
  (* operating system *)
  mkdir_permitted : FS -> string -> bool;
  dir_size : string -> Z;
  (* engine *)
  JSON_stringify : JValue -> string;
  StringToNumber : string -> Num
}.

Record World := {
  fs : FS;
  vips : option Handle;
  tools : list Tool;
  console : list string;
  trace : list Call
}.

Definition set_fs (f : FS) (w : World) : World :=
  {| fs := f; vips := vips w; tools := tools w; console := console w; trace := trace w |}.
Definition set_vips (v : option Handle) (w : World) : World :=
  {| fs := fs w; vips := v; tools := tools w; console := console w; trace := trace w |}.
Definition add_console (s : string) (w : World) : World :=
  {| fs := fs w; vips := vips w; tools := tools w; console := console w ++ [s]; trace := trace w |}.
Definition add_trace (c : Call) (w : World) : World :=
  {| fs := fs w; vips := vips w; tools := tools w; console := console w; trace := trace w ++ [c] |}.

(* ===================================================================== *)
(** ** The monad of the handler: state that survives a throw              *)
(* ===================================================================== *)

Definition M (A : Type) : Type := World -> Result A * World.

Definition ret {A} (a : A) : M A := fun w => (Ok a, w).
Definition throw {A} (e : exn) : M A := fun w => (Throw e, w).
Definition bind {A B} (m : M A) (k : A -> M B) : M B :=
  fun w =>
    match m w with
    | (Ok a, w') => k a w'
    | (Throw e, w') => (Throw e, w')
    end.
Definition try_catch {A} (body : M A) (handler : exn -> M A) : M A :=
  fun w =>
    match body w with
    | (Ok a, w') => (Ok a, w')
    | (Throw e, w') => handler e w'
    end.
Definition lift {A} (r : Result A) : M A := fun w => (r, w).
Definition get_world : M World := fun w => (Ok w, w).
Definition modify (f : World -> World) : M unit := fun w => (Ok tt, f w).

Declare Scope js_scope.
Delimit Scope js_scope with js.
Notation "x <- m ;; k" := (bind m (fun x => k))
  (at level 100, m at next level, right associativity) : js_scope.
Notation "m ;; k" := (bind m (fun _ => k))
  (at level 100, right associativity) : js_scope.
Open Scope js_scope.

Definition text_content (s : string) : Response :=
  {| content := [ {| type := "text"; text := s |} ]; isError := None |}.

Abbreviation Bag := (gmap string JValue).

(** [const { k, ... } = args]: throws when [args] is undefined (the request
    carried no [arguments]); the wording is the engine's. *)
Definition destructure (args : option Bag) (first : string) : M Bag :=
  match args with
  | Some a => ret a
  | None =>
      throw (TypeError ("Cannot destructure property '" +:+ first +:+
                        "' of 'args' as it is undefined."))
  end.

Definition prop (a : Bag) (k : string) : JValue := default JUndefined (a !! k).

(** [{ k = d }]: the default applies to [undefined] only. *)
Definition prop_or (a : Bag) (k : string) (d : JValue) : JValue :=
  match prop a k with
  | JUndefined => d
  | v => v
  end.

Definition console_log (s : string) : M unit := modify (add_console s).
Definition console_warn (s : string) : M unit := modify (add_console s).

(** [fs.existsSync]: false for anything that is not a path. *)
Definition existsSync (p : JValue) : M bool :=
  fun w =>
    (Ok (match p with
         | JStr s => path_exists (fs w) s
         | _ => false
         end), w).

(** [if (!existsSync(p)) throw new Error(`<what> not found: ${p}`)] *)
Definition unless_exists (what : string) (p : JValue) : M unit :=
  ex <- existsSync p ;;
  if negb ex then throw (Error_ (what +:+ " not found: " +:+ show p)) else ret tt.

(** How Node names the offending value in ERR_INVALID_ARG_TYPE. *)
Definition received (v : JValue) : string :=
  match v with
  | JUndefined => "undefined"
  | JNull => "null"
  | JBool _ => "type boolean (" +:+ show v +:+ ")"
  | JNum _ => "type number (" +:+ show v +:+ ")"
  | JStr s => "type string ('" +:+ s +:+ "')"
  | JBuffer _ => "an instance of Buffer"
  | JArr _ => "an instance of Array"
  | JObj _ => "an instance of Object"
  end.

Definition path_dirname (p : JValue) : M string :=
  match p with
  | JStr s => ret (dirname s)
  | _ =>
      throw (TypeError ("The " +:+ dq +:+ "path" +:+ dq +:+
                        " argument must be of type string. Received " +:+ received p))
  end.

(** Array and string helpers of the engine, on values typed [any]. *)
Definition no_property (v : JValue) (k : string) : exn :=
  TypeError ("Cannot read properties of " +:+ show v +:+ " (reading '" +:+ k +:+ "')").

Definition replace_hash (what : string) (v : JValue) : M string :=
  match v with
  | JStr s => ret (remove_first "#"%char s)
  | JUndefined | JNull => throw (no_property v "replace")
  | _ => throw (TypeError (what +:+ ".replace is not a function"))
  end.

Definition js_length (v : JValue) : M JValue :=
  match v with
  | JArr l => ret (num (Z.of_nat (List.length l)))
  | JStr s => ret (num (Z.of_nat (String.length s)))
  | JUndefined | JNull => throw (no_property v "length")
  | _ => ret JUndefined
  end.

Definition js_index (v : JValue) (i : nat) : M JValue :=
  match v with
  | JArr l => ret (nth i l JUndefined)
  | JStr s =>
      ret (match String.get i s with
           | Some c => JStr (String c EmptyString)
           | None => JUndefined
           end)
  | JUndefined | JNull => throw (no_property v (pretty i))
  | _ => ret JUndefined
  end.

Definition js_flat (what : string) (v : JValue) : M JValue :=
  match v with
  | JArr l =>
      ret (JArr (List.concat (List.map (fun x => match x with
                                                 | JArr y => y
                                                 | other => [other]
                                                 end) l)))
  | JUndefined | JNull => throw (no_property v "flat")
  | _ => throw (TypeError (what +:+ ".flat is not a function"))
  end.

Fixpoint mapi_from {A C} (i : nat) (f : nat -> A -> C) (l : list A) : list C :=
  match l with
  | [] => []
  | x :: rest => f i x :: mapi_from (S i) f rest
  end.

(** [v.map((x, index) => f index x)] *)
Definition js_map (what : string) (f : nat -> JValue -> JValue) (v : JValue) : M JValue :=
  match v with
  | JArr l => ret (JArr (mapi_from 0 f l))
  | JUndefined | JNull => throw (no_property v "map")
  | _ => throw (TypeError (what +:+ ".map is not a function"))
  end.

(** [v.includes(s)] *)
Definition js_includes (what : string) (v : JValue) (s : string) : M JValue :=
  match v with
  | JArr l => ret (JBool (existsb (fun x => str_is x s) l))
  | JStr t =>
      ret (JBool (match String.index 0 s t with Some _ => true | None => false end))
  | JUndefined | JNull => throw (no_property v "includes")
  | _ => throw (TypeError (what +:+ ".includes is not a function"))
  end.

(** [const [a, b, c, d] = v] *)
Definition destructure4 (what : string) (v : JValue) : M (JValue * JValue * JValue * JValue) :=
  match v with
  | JArr l =>
      ret (nth 0 l JUndefined, nth 1 l JUndefined, nth 2 l JUndefined, nth 3 l JUndefined)
  | JStr s =>
      let ch i := match String.get i s with
                  | Some c => JStr (String c EmptyString)
                  | None => JUndefined
                  end in
      ret (ch 0%nat, ch 1%nat, ch 2%nat, ch 3%nat)
  | _ => throw (TypeError (what +:+ " is not iterable"))
  end.

(** [Array(v)]: the length of the array it makes. *)
Definition Array_length (v : JValue) : M nat :=
  match v with
  | JNum (Fin q) =>
      if Qeq_bool q (inject_Z (Qfloor q)) && (0 <=? Qfloor q)%Z && (Qfloor q <? 2 ^ 32)%Z
      then ret (Z.to_nat (Qfloor q))
      else throw (RangeError "Invalid array length")
  | JNum NaN => throw (RangeError "Invalid array length")
  | _ => ret 1%nat
  end.

Definition attr (k v : string) : string := k +:+ "=" +:+ dq +:+ v +:+ dq.

Section Handler.

Variable B : Backends.

(** [ToNumber], applied by the arithmetic and relational operators. *)
Definition ToNumber (v : JValue) : Num :=
  match v with
  | JUndefined => NaN
  | JNull => Qn 0
  | JBool b => Qn (if b then 1 else 0)
  | JNum n => n
  | JStr s => StringToNumber B s
  | JBuffer _ | JArr _ | JObj _ => StringToNumber B (show v)
  end.

Definition js_floor (v : JValue) : JValue := JNum (Math_floor (ToNumber v)).
Definition js_mul (a b : JValue) : JValue := JNum (num_mul (ToNumber a) (ToNumber b)).

(** [fs.statSync(p).size] *)
Definition statSync_size (p : JValue) : M JValue :=
  w <- get_world ;;
  match p with
  | JStr s =>
      match files (fs w) !! s with
      | Some c => ret (num (Z.of_nat (String.length c)))
      | None =>
          if bool_decide (s ∈ dirs (fs w)) then ret (num (dir_size B s))
          else throw (Error_ ("ENOENT: no such file or directory, stat '" +:+ s +:+ "'"))
      end
  | _ =>
      throw (TypeError ("The " +:+ dq +:+ "path" +:+ dq +:+
                        " argument must be of type string. Received " +:+ received p))
  end.

(** [mkdir(dir, { recursive: true })] *)
Definition mkdir (dir : string) : M unit :=
  w <- get_world ;;
  let chain := dir_chain (String.length dir) dir in
  if mkdir_permitted B (fs w) dir &&
     forallb (fun d => negb (bool_decide (is_Some (files (fs w) !! d)))) chain
  then modify (set_fs (add_dirs (fs w) chain))
  else throw (Error_ ("mkdir '" +:+ dir +:+ "'")).

(** index.ts, [ensureDirectoryExists]: the directory of [filePath] is made;
    a failing [mkdir] is swallowed, a failing [dirname] is not. *)
Definition ensureDirectoryExists (filePath : JValue) : M unit :=
  dir <- path_dirname filePath ;;
  try_catch (mkdir dir) (fun error => ret tt).

(** index.ts, [initVips] *)
Definition initVips : M (option Handle) :=
  w <- get_world ;;
  (match vips w with
   | None =>
       modify (add_trace CVipsInit) ;;
       h <- lift (Vips B) ;;
       modify (set_vips (Some h)) ;;
       console_log "🎨 Enhanced libvips MCP server (wasm-vips) initialized"
   | Some _ => ret tt
   end) ;;
  w' <- get_world ;;
  ret (vips w').

(** A read of the module-level [vips] in [vips.Image]. *)
Definition vips_Image : M Handle :=
  w <- get_world ;;
  match vips w with
  | Some h => ret h
  | None => throw (no_property JNull "Image")
  end.

(** [vips.Image.method(args)] *)
Definition vips_Image_new (method : string) (args : list Arg) : M VImage :=
  h <- vips_Image ;;
  modify (add_trace (CVipsNew method args)) ;;
  w <- get_world ;;
  match vips_new B h (fs w) method args with
  | None => ret (VStatic method args)
  | Some e => throw e
  end.

(** [img.member] ([args = None]) or [img.member(args)] with a plain value. *)
Definition vget (img : VImage) (member : string) (args : option (list Arg)) : M JValue :=
  modify (add_trace (CVipsGet img member args)) ;;
  w <- get_world ;;
  lift (vips_get B (fs w) img member args).

(** [img.writeToFile(out)] *)
Definition writeToFile (img : VImage) (out : JValue) : M unit :=
  match out with
  | JStr path =>
      modify (add_trace (CVipsWrite img path)) ;;
      w <- get_world ;;
      bytes <- lift (vips_writeToFile B (fs w) img path) ;;
      modify (set_fs (write_file (fs w) path bytes))
  | _ => throw (TypeError ("Cannot pass " +:+ show out +:+ " as std::string"))
  end.

(** [await pipe.toFile(out)] *)
Definition toFile (p : SharpPipe) (out : JValue) : M unit :=
  match out with
  | JStr path =>
      modify (add_trace (CSharpToFile p path)) ;;
      w <- get_world ;;
      bytes <- lift (sharp_toFile B (fs w) p path) ;;
      modify (set_fs (write_file (fs w) path bytes))
  | _ => throw (Error_ "Missing output file path")
  end.

(** [await sharp(input).metadata()] and [.stats()] *)
Definition metadata (input : JValue) : M JValue :=
  modify (add_trace (CSharpMetadata input)) ;;
  w <- get_world ;;
  lift (sharp_metadata B (fs w) input).

Definition stats (input : JValue) : M JValue :=
  modify (add_trace (CSharpStats input)) ;;
  w <- get_world ;;
  lift (sharp_stats B (fs w) input).

(* ===================================================================== *)
(** ** The cases of the [switch (name)]: sharp only                        *)
(* ===================================================================== *)

(** index.ts, [getImageInfo] *)
Definition getImageInfo (imagePath : JValue) : M JValue :=
  metadata_ <- metadata imagePath ;;
  stats_ <- stats imagePath ;;
  size <- statSync_size imagePath ;;
  ret (JObj [("format", field metadata_ "format");
             ("width", field metadata_ "width");
             ("height", field metadata_ "height");
             ("channels", field metadata_ "channels");
             ("density", field metadata_ "density");
             ("hasProfile", field metadata_ "hasProfile");
             ("hasAlpha", field metadata_ "hasAlpha");
             ("orientation", field metadata_ "orientation");
             ("colorspace", field metadata_ "space");
             ("size", size);
             ("stats", stats_)]).

Definition case_image_info (args : option Bag) : M Response :=
  a <- destructure args "image_path" ;;
  let image_path := prop a "image_path" in
  unless_exists "Image file" image_path ;;
  info <- getImageInfo image_path ;;
  ret (text_content (JSON_stringify B info)).

Definition case_image_resize (args : option Bag) : M Response :=
  a <- destructure args "input_path" ;;
  let input_path := prop a "input_path" in
  let output_path := prop a "output_path" in
  let width := prop a "width" in
  let height := prop a "height" in
  let maintain_aspect_ratio := prop_or a "maintain_aspect_ratio" (JBool true) in
  let fit := prop_or a "fit" (JStr "cover") in
  unless_exists "Input image" input_path ;;
  ensureDirectoryExists output_path ;;
  let image := sharp input_path in
  let resizeOptions := [("fit", fit)] in
  let resizeOptions :=
    if truthy width then set_field "width" width resizeOptions else resizeOptions in
  let resizeOptions :=
    if truthy height then set_field "height" height resizeOptions else resizeOptions in
  let resizeOptions :=
    if negb (truthy maintain_aspect_ratio)
    then set_field "fit" (JStr "fill") resizeOptions else resizeOptions in
  toFile (call image "resize" [AVal (JObj resizeOptions)]) output_path ;;
  ret (text_content ("Image resized successfully: " +:+ show output_path)).

(** The six labels of the [switch (format)] of image_convert. *)
Definition convert_formats : list string :=
  ["jpeg"; "png"; "webp"; "tiff"; "avif"; "heif"].

Definition case_image_convert (args : option Bag) : M Response :=
  a <- destructure args "input_path" ;;
  let input_path := prop a "input_path" in
  let output_path := prop a "output_path" in
  let format := prop a "format" in
  let quality := prop a "quality" in
  unless_exists "Input image" input_path ;;
  ensureDirectoryExists output_path ;;
  let image := sharp input_path in
  let options := [AVal (JObj [("quality", js_or quality (num 80))])] in
  let image :=
    if str_is format "jpeg" then call image "jpeg" options
    else if str_is format "png" then call image "png" options
    else if str_is format "webp" then call image "webp" options
    else if str_is format "tiff" then call image "tiff" options
    else if str_is format "avif" then call image "avif" options
    else if str_is format "heif" then call image "heif" options
    else image in
  toFile image output_path ;;
  ret (text_content ("Image converted to " +:+ show format +:+ ": " +:+ show output_path)).

Definition case_image_crop (args : option Bag) : M Response :=
  a <- destructure args "input_path" ;;
  let input_path := prop a "input_path" in
  let output_path := prop a "output_path" in
  unless_exists "Input image" input_path ;;
  ensureDirectoryExists output_path ;;
  toFile (call (sharp input_path) "extract"
            [AVal (JObj [("left", prop a "x"); ("top", prop a "y");
                         ("width", prop a "width"); ("height", prop a "height")])])
         output_path ;;
  ret (text_content ("Image cropped successfully: " +:+ show output_path)).

Definition case_image_rotate (args : option Bag) : M Response :=
  a <- destructure args "input_path" ;;
  let input_path := prop a "input_path" in
  let output_path := prop a "output_path" in
  let angle := prop a "angle" in
  let background := prop_or a "background" (JStr "#000000") in
  unless_exists "Input image" input_path ;;
  ensureDirectoryExists output_path ;;
  toFile (call (sharp input_path) "rotate"
            [AVal angle; AVal (JObj [("background", background)])])
         output_path ;;
  ret (text_content ("Image rotated by " +:+ show angle +:+ " degrees: " +:+ show output_path)).

Definition case_image_flip (args : option Bag) : M Response :=
  a <- destructure args "input_path" ;;
  let input_path := prop a "input_path" in
  let output_path := prop a "output_path" in
  let direction := prop a "direction" in
  unless_exists "Input image" input_path ;;
  ensureDirectoryExists output_path ;;
  let image := sharp input_path in
  let image :=
    if str_is direction "horizontal" then call image "flop" []
    else call image "flip" [] in
  toFile image output_path ;;
  ret (text_content ("Image flipped " +:+ show direction +:+ "ly: " +:+ show output_path)).

Definition case_image_blur (args : option Bag) : M Response :=
  a <- destructure args "input_path" ;;
  let input_path := prop a "input_path" in
  let output_path := prop a "output_path" in
  let sigma := prop_or a "sigma" (num 1) in
  unless_exists "Input image" input_path ;;
  ensureDirectoryExists output_path ;;
  toFile (call (sharp input_path) "blur" [AVal sigma]) output_path ;;
  ret (text_content ("Image blurred with sigma " +:+ show sigma +:+ ": " +:+ show output_path)).

Definition case_image_sharpen (args : option Bag) : M Response :=
  a <- destructure args "input_path" ;;
  let input_path := prop a "input_path" in
  let output_path := prop a "output_path" in
  let sigma := prop_or a "sigma" (num 1) in
  let flat := prop_or a "flat" (num 1) in
  let jagged := prop_or a "jagged" (num 2) in
  unless_exists "Input image" input_path ;;
  ensureDirectoryExists output_path ;;
  toFile (call (sharp input_path) "sharpen" [AVal sigma; AVal flat; AVal jagged])
         output_path ;;
  ret (text_content ("Image sharpened: " +:+ show output_path)).

Definition case_image_adjust_brightness (args : option Bag) : M Response :=
  a <- destructure args "input_path" ;;
  let input_path := prop a "input_path" in
  let output_path := prop a "output_path" in
  let brightness := prop a "brightness" in
  unless_exists "Input image" input_path ;;
  ensureDirectoryExists output_path ;;
  toFile (call (sharp input_path) "modulate"
            [AVal (JObj [("brightness",
                          JNum (num_add (Qn 1) (num_div (ToNumber brightness) (Qn 100))))])])
         output_path ;;
  ret (text_content ("Image brightness adjusted by " +:+ show brightness +:+ ": " +:+
                     show output_path)).

Definition case_image_adjust_contrast (args : option Bag) : M Response :=
  a <- destructure args "input_path" ;;
  let input_path := prop a "input_path" in
  let output_path := prop a "output_path" in
  let contrast := prop a "contrast" in
  unless_exists "Input image" input_path ;;
  ensureDirectoryExists output_path ;;
  toFile (call (sharp input_path) "linear"
            [AVal contrast;
             AVal (JNum (num_add (num_neg (num_mul (Qn 128) (ToNumber contrast))) (Qn 128)))])
         output_path ;;
  ret (text_content ("Image contrast adjusted by " +:+ show contrast +:+ ": " +:+
                     show output_path)).

Definition case_image_adjust_saturation (args : option Bag) : M Response :=
  a <- destructure args "input_path" ;;
  let input_path := prop a "input_path" in
  let output_path := prop a "output_path" in
  let saturation := prop a "saturation" in
  unless_exists "Input image" input_path ;;
  ensureDirectoryExists output_path ;;
  toFile (call (sharp input_path) "modulate" [AVal (JObj [("saturation", saturation)])])
         output_path ;;
  ret (text_content ("Image saturation adjusted by " +:+ show saturation +:+ ": " +:+
                     show output_path)).

Definition case_image_grayscale (args : option Bag) : M Response :=
  a <- destructure args "input_path" ;;
  let input_path := prop a "input_path" in
  let output_path := prop a "output_path" in
  unless_exists "Input image" input_path ;;
  ensureDirectoryExists output_path ;;
  toFile (call (sharp input_path) "grayscale" []) output_path ;;
  ret (text_content ("Image converted to grayscale: " +:+ show output_path)).

Definition case_image_composite (args : option Bag) : M Response :=
  a <- destructure args "base_image_path" ;;
  let base_image_path := prop a "base_image_path" in
  let overlay_image_path := prop a "overlay_image_path" in
  let output_path := prop a "output_path" in
  let x := prop_or a "x" (num 0) in
  let y := prop_or a "y" (num 0) in
  let blend := prop_or a "blend" (JStr "over") in
  unless_exists "Base image" base_image_path ;;
  unless_exists "Overlay image" overlay_image_path ;;
  ensureDirectoryExists output_path ;;
  toFile (call (sharp base_image_path) "composite"
            [AVal (JArr [JObj [("input", overlay_image_path); ("left", x);
                               ("top", y); ("blend", blend)]])])
         output_path ;;
  ret (text_content ("Images composited with " +:+ show blend +:+ " blend mode: " +:+
                     show output_path)).

Definition case_image_thumbnail (args : option Bag) : M Response :=
  a <- destructure args "input_path" ;;
  let input_path := prop a "input_path" in
  let output_path := prop a "output_path" in
  let size := prop a "size" in
  let crop := prop_or a "crop" (JBool false) in
  unless_exists "Input image" input_path ;;
  ensureDirectoryExists output_path ;;
  let image := sharp input_path in
  let image :=
    if truthy crop
    then call image "resize" [AVal size; AVal size; AVal (JObj [("fit", JStr "cover")])]
    else call image "resize"
           [AVal size; AVal size;
            AVal (JObj [("fit", JStr "inside"); ("withoutEnlargement", JBool true)])] in
  toFile image output_path ;;
  ret (text_content ("Thumbnail created (" +:+ show size +:+ "px): " +:+ show output_path)).

Definition case_image_extract_channel (args : option Bag) : M Response :=
  a <- destructure args "input_path" ;;
  let input_path := prop a "input_path" in
  let output_path := prop a "output_path" in
  let channel := prop a "channel" in
  unless_exists "Input image" input_path ;;
  ensureDirectoryExists output_path ;;
  toFile (call (sharp input_path) "extractChannel" [AVal channel]) output_path ;;
  ret (text_content ("Channel " +:+ show channel +:+ " extracted: " +:+ show output_path)).

Definition case_image_histogram (args : option Bag) : M Response :=
  a <- destructure args "input_path" ;;
  let input_path := prop a "input_path" in
  unless_exists "Input image" input_path ;;
  stats_ <- stats input_path ;;
  channels <- js_map "stats.channels"
                (fun index channel =>
                   JObj [("channel", num (Z.of_nat index));
                         ("min", field channel "min");
                         ("max", field channel "max");
                         ("mean", field channel "mean");
                         ("stdev", field channel "stdev")])
                (field stats_ "channels") ;;
  ret (text_content
         (JSON_stringify B (JObj [("channels", channels);
                                  ("isOpaque", field stats_ "isOpaque");
                                  ("entropy", field stats_ "entropy");
                                  ("dominantColor", field stats_ "dominant")]))).

Definition case_create_solid_color (args : option Bag) : M Response :=
  a <- destructure args "output_path" ;;
  let output_path := prop a "output_path" in
  let width := prop a "width" in
  let height := prop a "height" in
  let color := prop_or a "color" (JStr "#FFFFFF") in
  ensureDirectoryExists output_path ;;
  hex <- replace_hash "color" color ;;
  let r := JNum (parseInt16 (substr 0 2 hex)) in
  let g := JNum (parseInt16 (substr 2 2 hex)) in
  let b := JNum (parseInt16 (substr 4 2 hex)) in
  toFile (call (sharp (JObj [("create",
                              JObj [("width", width); ("height", height);
                                    ("channels", num 3);
                                    ("background", JObj [("r", r); ("g", g); ("b", b)])])]))
                "png" [])
         output_path ;;
  ret (text_content ("Solid color image created (" +:+ show width +:+ "x" +:+ show height +:+
                     ", " +:+ show color +:+ "): " +:+ show output_path)).

(* ===================================================================== *)
(** ** The cases with a wasm-vips block and a sharp block                  *)
(* ===================================================================== *)

Definition ones (n : nat) : JValue := JArr (repeat (JArr (repeat (num 1) n)) n).

Definition morph (img kernelMatrix : VImage) (op : string) : VImage :=
  VMethod img "morph" [AImg kernelMatrix; AVal (JStr op)].

(** One turn of the loop of image_morphology: the inner [switch (operation)]. *)
Definition morph_step (kernelMatrix : VImage) (operation : JValue) (result : VImage) : VImage :=
  if str_is operation "erode" then morph result kernelMatrix "erode"
  else if str_is operation "dilate" then morph result kernelMatrix "dilate"
  else if str_is operation "opening"
       then morph (morph result kernelMatrix "erode") kernelMatrix "dilate"
  else if str_is operation "closing"
       then morph (morph result kernelMatrix "dilate") kernelMatrix "erode"
  else result.

Definition image_morphology_vips (a : Bag) : M Response :=
  let input_path := prop a "input_path" in
  let output_path := prop a "output_path" in
  let operation := prop a "operation" in
  let kernel_size := prop_or a "kernel_size" (num 3) in
  let iterations := prop_or a "iterations" (num 1) in
  initVips ;;
  console_log "🔬 Applying morphological operation with wasm-vips..." ;;
  n <- Array_length kernel_size ;;
  let kernel := ones n in
  kernelMatrix <- vips_Image_new "newFromArray" [AVal kernel] ;;
  image <- vips_Image_new "newFromFile" [AVal input_path] ;;
  let result :=
    Nat.iter (trip_count (ToNumber iterations)) (morph_step kernelMatrix operation) image in
  writeToFile result output_path ;;
  ret (text_content ("✨ Morphological " +:+ show operation +:+ " applied (" +:+
                     show iterations +:+ " iterations, " +:+ show kernel_size +:+ "x" +:+
                     show kernel_size +:+ " kernel): " +:+ show output_path)).

Definition image_morphology_sharp (a : Bag) (error : exn) : M Response :=
  let input_path := prop a "input_path" in
  let output_path := prop a "output_path" in
  let operation := prop a "operation" in
  console_warn "⚠️ Falling back to Sharp approximation for morphological operations" ;;
  let sharpImg := sharp input_path in
  let blur x img := call img "blur" [AVal (JNum (Fin x))] in
  let threshold img := call img "threshold" [AVal (num 120)] in
  let brighten img := call img "modulate" [AVal (JObj [("brightness", JNum (Fin (115 # 100)))])] in
  let sharpImg :=
    if str_is operation "erode" then threshold (blur (1 # 2) sharpImg)
    else if str_is operation "dilate" then brighten (blur 1%Q sharpImg)
    else if str_is operation "opening" then blur 1%Q (threshold (blur (1 # 2) sharpImg))
    else if str_is operation "closing" then blur (1 # 2) (brighten (blur 1%Q sharpImg))
    else sharpImg in
  toFile sharpImg output_path ;;
  ret (text_content ("⚡ Morphological " +:+ show operation +:+
                     " applied (Sharp fallback): " +:+ show output_path)).

Definition case_image_morphology (args : option Bag) : M Response :=
  a <- destructure args "input_path" ;;
  unless_exists "Input image" (prop a "input_path") ;;
  ensureDirectoryExists (prop a "output_path") ;;
  try_catch (image_morphology_vips a) (image_morphology_sharp a).

Definition hex_rgb (hex : string) : JValue :=
  JArr [JNum (parseInt16 (substr 0 2 hex));
        JNum (parseInt16 (substr 2 2 hex));
        JNum (parseInt16 (substr 4 2 hex))].

Definition image_draw_line_vips (a : Bag) : M Response :=
  let input_path := prop a "input_path" in
  let output_path := prop a "output_path" in
  let x1 := prop a "x1" in
  let y1 := prop a "y1" in
  let x2 := prop a "x2" in
  let y2 := prop a "y2" in
  let color := prop_or a "color" (JStr "#000000") in
  initVips ;;
  console_log "✏️ Drawing line with wasm-vips..." ;;
  hex <- replace_hash "color" color ;;
  let colorArray := hex_rgb hex in
  image <- vips_Image_new "newFromFile" [AVal input_path] ;;
  let result := VMethod image "drawLine" [AVal colorArray; AVal x1; AVal y1; AVal x2; AVal y2] in
  writeToFile result output_path ;;
  ret (text_content ("✨ Line drawn from (" +:+ show x1 +:+ "," +:+ show y1 +:+ ") to (" +:+
                     show x2 +:+ "," +:+ show y2 +:+ ") with color " +:+ show color +:+
                     ": " +:+ show output_path)).

Definition svg_open (imgWidth imgHeight : JValue) : string :=
  "<svg " +:+ attr "width" (show imgWidth) +:+ " " +:+ attr "height" (show imgHeight) +:+
  " " +:+ attr "xmlns" "http://www.w3.org/2000/svg" +:+ ">".

Definition svg_overlay (svg : string) : list Arg :=
  [AVal (JArr [JObj [("input", JBuffer svg); ("blend", JStr "over")]])].

Definition image_draw_line_sharp (a : Bag) (error : exn) : M Response :=
  let input_path := prop a "input_path" in
  let output_path := prop a "output_path" in
  let x1 := prop a "x1" in
  let y1 := prop a "y1" in
  let x2 := prop a "x2" in
  let y2 := prop a "y2" in
  let color := prop_or a "color" (JStr "#000000") in
  let lineWidth := prop_or a "width" (num 1) in
  console_warn "⚠️ Using Sharp SVG overlay for line drawing" ;;
  m <- metadata input_path ;;
  let imgWidth := field m "width" in
  let imgHeight := field m "height" in
  let svg :=
    svg_open imgWidth imgHeight +:+ nl +:+
    "            <line " +:+ attr "x1" (show x1) +:+ " " +:+ attr "y1" (show y1) +:+ " " +:+
    attr "x2" (show x2) +:+ " " +:+ attr "y2" (show y2) +:+ " " +:+
    attr "stroke" (show color) +:+ " " +:+ attr "stroke-width" (show lineWidth) +:+ "/>" +:+ nl +:+
    "          </svg>" in
  toFile (call (sharp input_path) "composite" (svg_overlay svg)) output_path ;;
  ret (text_content ("⚡ Line drawn from (" +:+ show x1 +:+ "," +:+ show y1 +:+ ") to (" +:+
                     show x2 +:+ "," +:+ show y2 +:+ ") (Sharp SVG): " +:+ show output_path)).

Definition case_image_draw_line (args : option Bag) : M Response :=
  a <- destructure args "input_path" ;;
  unless_exists "Input image" (prop a "input_path") ;;
  ensureDirectoryExists (prop a "output_path") ;;
  try_catch (image_draw_line_vips a) (image_draw_line_sharp a).

Definition case_image_draw_circle (args : option Bag) : M Response :=
  a <- destructure args "input_path" ;;
  let input_path := prop a "input_path" in
  let output_path := prop a "output_path" in
  let x := prop a "x" in
  let y := prop a "y" in
  let radius := prop a "radius" in
  let fill := prop_or a "fill" (JBool false) in
  let color := prop_or a "color" (JStr "#000000") in
  unless_exists "Input image" input_path ;;
  ensureDirectoryExists output_path ;;
  m <- metadata input_path ;;
  let imgWidth := field m "width" in
  let imgHeight := field m "height" in
  let svg :=
    svg_open imgWidth imgHeight +:+ nl +:+
    "          <circle " +:+ attr "cx" (show x) +:+ " " +:+ attr "cy" (show y) +:+ " " +:+
    attr "r" (show radius) +:+ " " +:+ attr "stroke" (show color) +:+ " " +:+
    (if truthy fill then attr "fill" (show color) else attr "fill" "none") +:+ " " +:+
    attr "stroke-width" "2" +:+ "/>" +:+ nl +:+
    "        </svg>" in
  toFile (call (sharp input_path) "composite" (svg_overlay svg)) output_path ;;
  ret (text_content ("✨ " +:+ (if truthy fill then "Filled " else "") +:+ "Circle drawn at (" +:+
                     show x +:+ "," +:+ show y +:+ ") radius " +:+ show radius +:+ ": " +:+
                     show output_path)).

Definition matrix (rows : list (list Z)) : JValue :=
  JArr (List.map (fun row => JArr (List.map num row)) rows).

Definition image_edge_detection_vips (a : Bag) : M Response :=
  let input_path := prop a "input_path" in
  let output_path := prop a "output_path" in
  let method := prop a "method" in
  initVips ;;
  console_log ("🔍 Applying " +:+ show method +:+ " edge detection with wasm-vips...") ;;
  image <- vips_Image_new "newFromFile" [AVal input_path] ;;
  kernel <-
    (if str_is method "sobel" then ret (matrix [[-1; 0; 1]; [-2; 0; 2]; [-1; 0; 1]])
     else if str_is method "prewitt" then ret (matrix [[-1; 0; 1]; [-1; 0; 1]; [-1; 0; 1]])
     else if str_is method "roberts" then ret (matrix [[1; 0]; [0; -1]])
     else if str_is method "laplacian" then ret (matrix [[0; -1; 0]; [-1; 4; -1]; [0; -1; 0]])
     else throw (Error_ ("Unknown edge detection method: " +:+ show method)))%Z ;;
  kernelMatrix <- vips_Image_new "newFromArray" [AVal kernel] ;;
  let result := VMethod image "conv" [AImg kernelMatrix] in
  writeToFile result output_path ;;
  ret (text_content ("✨ " +:+ show method +:+ " edge detection applied: " +:+ show output_path)).

Definition image_edge_detection_sharp (a : Bag) (error : exn) : M Response :=
  let input_path := prop a "input_path" in
  let output_path := prop a "output_path" in
  console_warn "⚠️ Using Sharp convolution for edge detection" ;;
  toFile (call (call (sharp input_path) "grayscale" []) "convolve"
            [AVal (JObj [("width", num 3); ("height", num 3);
                         ("kernel", JArr (List.map num [-1; -1; -1; -1; 8; -1; -1; -1; -1]%Z))])])
         output_path ;;
  ret (text_content ("⚡ Edge detection applied (Sharp fallback): " +:+ show output_path)).

Definition case_image_edge_detection (args : option Bag) : M Response :=
  a <- destructure args "input_path" ;;
  unless_exists "Input image" (prop a "input_path") ;;
  ensureDirectoryExists (prop a "output_path") ;;
  try_catch (image_edge_detection_vips a) (image_edge_detection_sharp a).

Definition image_advanced_stats_vips (a : Bag) : M Response :=
  let input_path := prop a "input_path" in
  initVips ;;
  console_log "📊 Calculating advanced statistics with wasm-vips..." ;;
  image <- vips_Image_new "newFromFile" [AVal input_path] ;;
  width <- vget image "width" None ;;
  height <- vget image "height" None ;;
  bands <- vget image "bands" None ;;
  format <- vget image "format" None ;;
  interpretation <- vget image "interpretation" None ;;
  min <- vget image "min" (Some []) ;;
  max <- vget image "max" (Some []) ;;
  avg <- vget image "avg" (Some []) ;;
  deviate <- vget image "deviate" (Some []) ;;
  xres <- vget image "xres" None ;;
  yres <- vget image "yres" None ;;
  fields1 <- vget image "getFields" (Some []) ;;
  hasProfile <- js_includes "image.getFields(...)" fields1 "icc-profile-data" ;;
  allFields <- vget image "getFields" (Some []) ;;
  histMax <- vget image "histMax" (Some []) ;;
  histMin <- vget image "histMin" (Some []) ;;
  histMean <- vget image "histMean" (Some []) ;;
  let stats_ :=
    JObj [("width", width); ("height", height); ("bands", bands); ("format", format);
          ("interpretation", interpretation); ("min", min); ("max", max); ("avg", avg);
          ("deviate", deviate); ("xres", xres); ("yres", yres);
          ("hasProfile", hasProfile); ("allFields", allFields);
          ("histMax", histMax); ("histMin", histMin); ("histMean", histMean)] in
  ret (text_content ("✨ Advanced Statistics (wasm-vips):" +:+ nl +:+ JSON_stringify B stats_)).

Definition image_advanced_stats_sharp (a : Bag) (error : exn) : M Response :=
  let input_path := prop a "input_path" in
  console_warn "⚠️ Using Sharp for basic statistics" ;;
  metadata_ <- metadata input_path ;;
  stats_ <- stats input_path ;;
  ret (text_content ("⚡ Basic Statistics (Sharp):" +:+ nl +:+
                     JSON_stringify B (JObj [("metadata", metadata_); ("stats", stats_)]))).

Definition case_image_advanced_stats (args : option Bag) : M Response :=
  a <- destructure args "input_path" ;;
  unless_exists "Input image" (prop a "input_path") ;;
  try_catch (image_advanced_stats_vips a) (image_advanced_stats_sharp a).

Definition image_fft_vips (a : Bag) : M Response :=
  let input_path := prop a "input_path" in
  let output_path := prop a "output_path" in
  let inverse := prop_or a "inverse" (JBool false) in
  initVips ;;
  console_log ("🔬 Applying " +:+ (if truthy inverse then "inverse " else "") +:+
               "FFT with wasm-vips...") ;;
  image <- vips_Image_new "newFromFile" [AVal input_path] ;;
  let result := if truthy inverse then VMethod image "invfft" [] else VMethod image "fwfft" [] in
  abs <- vget result "abs" None ;;
  let displayResult := if truthy abs then VMethod result "abs" [] else result in
  writeToFile displayResult output_path ;;
  ret (text_content ("✨ " +:+ (if truthy inverse then "Inverse " else "") +:+
                     "FFT applied successfully: " +:+ show output_path)).

Definition image_fft_sharp (a : Bag) (error : exn) : M Response :=
  let input_path := prop a "input_path" in
  let output_path := prop a "output_path" in
  console_warn "⚠️ FFT not available, using Sharp edge enhancement" ;;
  toFile (call (sharp input_path) "convolve"
            [AVal (JObj [("width", num 3); ("height", num 3);
                         ("kernel", JArr (List.map num [0; -1; 0; -1; 5; -1; 0; -1; 0]%Z))])])
         output_path ;;
  ret (text_content ("⚡ Edge enhancement applied (FFT fallback): " +:+ show output_path)).

Definition case_image_fft (args : option Bag) : M Response :=
  a <- destructure args "input_path" ;;
  unless_exists "Input image" (prop a "input_path") ;;
  ensureDirectoryExists (prop a "output_path") ;;
  try_catch (image_fft_vips a) (image_fft_sharp a).

Definition image_custom_convolution_vips (a : Bag) : M Response :=
  let input_path := prop a "input_path" in
  let output_path := prop a "output_path" in
  let kernel := prop a "kernel" in
  let scale := prop_or a "scale" (num 1) in
  let offset := prop_or a "offset" (num 0) in
  initVips ;;
  console_log "🔧 Applying custom convolution with wasm-vips..." ;;
  image <- vips_Image_new "newFromFile" [AVal input_path] ;;
  kernelMatrix <- vips_Image_new "newFromArray" [AVal kernel; AVal scale; AVal offset] ;;
  let result := VMethod image "conv" [AImg kernelMatrix] in
  writeToFile result output_path ;;
  rows <- js_length kernel ;;
  row0 <- js_index kernel 0 ;;
  cols <- js_length row0 ;;
  ret (text_content ("✨ Custom convolution applied (" +:+ show rows +:+ "x" +:+ show cols +:+
                     " kernel): " +:+ show output_path)).

Definition image_custom_convolution_sharp (a : Bag) (error : exn) : M Response :=
  let input_path := prop a "input_path" in
  let output_path := prop a "output_path" in
  let kernel := prop a "kernel" in
  let scale := prop_or a "scale" (num 1) in
  let offset := prop_or a "offset" (num 0) in
  console_warn "⚠️ Using Sharp convolution fallback" ;;
  flatKernel <- js_flat "kernel" kernel ;;
  row0 <- js_index kernel 0 ;;
  cols <- js_length row0 ;;
  rows <- js_length kernel ;;
  toFile (call (sharp input_path) "convolve"
            [AVal (JObj [("width", cols); ("height", rows); ("kernel", flatKernel);
                         ("scale", scale); ("offset", offset)])])
         output_path ;;
  ret (text_content ("⚡ Custom convolution applied (Sharp fallback): " +:+ show output_path)).

Definition case_image_custom_convolution (args : option Bag) : M Response :=
  a <- destructure args "input_path" ;;
  unless_exists "Input image" (prop a "input_path") ;;
  ensureDirectoryExists (prop a "output_path") ;;
  try_catch (image_custom_convolution_vips a) (image_custom_convolution_sharp a).

Definition image_colorspace_convert_vips (a : Bag) : M Response :=
  let input_path := prop a "input_path" in
  let output_path := prop a "output_path" in
  let space := prop a "space" in
  initVips ;;
  console_log ("🎨 Converting to " +:+ show space +:+ " color space with wasm-vips...") ;;
  image <- vips_Image_new "newFromFile" [AVal input_path] ;;
  let result := VMethod image "colourspace" [AVal space] in
  writeToFile result output_path ;;
  ret (text_content ("✨ Image converted to " +:+ show space +:+ " color space: " +:+
                     show output_path)).

Definition image_colorspace_convert_sharp (a : Bag) (error : exn) : M Response :=
  let input_path := prop a "input_path" in
  let output_path := prop a "output_path" in
  let space := prop a "space" in
  console_warn "⚠️ Using Sharp color space approximation" ;;
  let sharpImg := sharp input_path in
  let sharpImg :=
    if str_is space "lab" || str_is space "xyz"
    then call sharpImg "toColorspace" [AVal (JStr "lab")]
    else if str_is space "cmyk" then call sharpImg "toColorspace" [AVal (JStr "cmyk")]
    else if str_is space "hsv" then call sharpImg "modulate" [AVal (JObj [("hue", num 0)])]
    else call sharpImg "toColorspace" [AVal (JStr "srgb")] in
  toFile sharpImg output_path ;;
  ret (text_content ("⚡ Color space conversion applied (Sharp approximation): " +:+
                     show output_path)).

Definition case_image_colorspace_convert (args : option Bag) : M Response :=
  a <- destructure args "input_path" ;;
  unless_exists "Input image" (prop a "input_path") ;;
  ensureDirectoryExists (prop a "output_path") ;;
  try_catch (image_colorspace_convert_vips a) (image_colorspace_convert_sharp a).

Definition image_add_noise_vips (a : Bag) : M Response :=
  let input_path := prop a "input_path" in
  let output_path := prop a "output_path" in
  let noise_type := prop a "noise_type" in
  let amount := prop_or a "amount" (JNum (Fin (1 # 10))) in
  initVips ;;
  console_log ("🎲 Adding " +:+ show noise_type +:+ " noise with wasm-vips...") ;;
  image <- vips_Image_new "newFromFile" [AVal input_path] ;;
  result <-
    (if str_is noise_type "gaussian" then
       w <- vget image "width" None ;;
       h <- vget image "height" None ;;
       noise <- vips_Image_new "gaussnoise"
                  [AVal w; AVal h;
                   AVal (JObj [("sigma", JNum (num_mul (ToNumber amount) (Qn 255)))])] ;;
       ret (VMethod image "add" [AImg noise])
     else if str_is noise_type "uniform" then
       w <- vget image "width" None ;;
       h <- vget image "height" None ;;
       black <- vips_Image_new "black" [AVal w; AVal h] ;;
       let uniformNoise :=
         VMethod black "add"
           [ARandom (fun r => AVal (JNum (num_mul (num_mul r (ToNumber amount)) (Qn 255))))] in
       ret (VMethod image "add" [AImg uniformNoise])
     else if str_is noise_type "salt_pepper" then
       w <- vget image "width" None ;;
       h <- vget image "height" None ;;
       black <- vips_Image_new "black" [AVal w; AVal h] ;;
       let mask :=
         VMethod black "add"
           [ARandom (fun r => AVal (if num_lt (ToNumber amount) r then num 0 else num 255))] in
       w' <- vget image "width" None ;;
       h' <- vget image "height" None ;;
       black' <- vips_Image_new "black" [AVal w'; AVal h'] ;;
       ret (VMethod image "ifthenelse"
              [AImg mask; AImg (VMethod black' "add" [AVal (num 255)]); AImg image])
     else throw (Error_ ("Unknown noise type: " +:+ show noise_type))) ;;
  writeToFile result output_path ;;
  ret (text_content ("✨ " +:+ show noise_type +:+ " noise added (amount: " +:+ show amount +:+
                     "): " +:+ show output_path)).

Definition image_add_noise_sharp (a : Bag) (error : exn) : M Response :=
  let input_path := prop a "input_path" in
  let output_path := prop a "output_path" in
  let amount := prop_or a "amount" (JNum (Fin (1 # 10))) in
  console_warn "⚠️ Using Sharp noise approximation" ;;
  let noiseAmount := Math_floor (num_mul (ToNumber amount) (Qn 100)) in
  let around_one (r : Num) (k : Num) :=
    JNum (num_add (Qn 1) (num_mul (num_sub r (Fin (1 # 2))) k)) in
  toFile (call (sharp input_path) "modulate"
            [ARandom (fun r1 => ARandom (fun r2 =>
               AVal (JObj [("brightness", around_one r1 (ToNumber amount));
                           ("saturation",
                            around_one r2 (num_mul (ToNumber amount) (Fin (1 # 2))))])))])
         output_path ;;
  ret (text_content ("⚡ Noise approximation applied (Sharp fallback): " +:+ show output_path)).

Definition case_image_add_noise (args : option Bag) : M Response :=
  a <- destructure args "input_path" ;;
  unless_exists "Input image" (prop a "input_path") ;;
  ensureDirectoryExists (prop a "output_path") ;;
  try_catch (image_add_noise_vips a) (image_add_noise_sharp a).

Definition image_perspective_transform_vips (a : Bag) : M Response :=
  let input_path := prop a "input_path" in
  let output_path := prop a "output_path" in
  let corners := prop a "corners" in
  initVips ;;
  console_log "📐 Applying perspective transformation with wasm-vips..." ;;
  image <- vips_Image_new "newFromFile" [AVal input_path] ;;
  quad <- destructure4 "corners" corners ;;
  let '(tl, tr, br, bl) := quad in
  tl0 <- js_index tl 0 ;; tl1 <- js_index tl 1 ;;
  tr0 <- js_index tr 0 ;; tr1 <- js_index tr 1 ;;
  br0 <- js_index br 0 ;; br1 <- js_index br 1 ;;
  bl0 <- js_index bl 0 ;; bl1 <- js_index bl 1 ;;
  let result :=
    VMethod image "quadrilateral"
      (List.map AVal [tl0; tl1; tr0; tr1; br0; br1; bl0; bl1]) in
  writeToFile result output_path ;;
  ret (text_content ("✨ Perspective transformation applied: " +:+ show output_path)).

Definition image_perspective_transform_sharp (a : Bag) (error : exn) : M Response :=
  let input_path := prop a "input_path" in
  let output_path := prop a "output_path" in
  console_warn "⚠️ Perspective transform not available, using rotation approximation" ;;
  toFile (call (sharp input_path) "rotate" [AVal (num 15)]) output_path ;;
  ret (text_content ("⚡ Rotation applied (perspective fallback): " +:+ show output_path)).

Definition case_image_perspective_transform (args : option Bag) : M Response :=
  a <- destructure args "input_path" ;;
  unless_exists "Input image" (prop a "input_path") ;;
  ensureDirectoryExists (prop a "output_path") ;;
  try_catch (image_perspective_transform_vips a) (image_perspective_transform_sharp a).

Definition image_texture_analysis_vips (a : Bag) : M Response :=
  let input_path := prop a "input_path" in
  let window_size := prop_or a "window_size" (num 5) in
  initVips ;;
  console_log "🔍 Analyzing texture with wasm-vips..." ;;
  image <- vips_Image_new "newFromFile" [AVal input_path] ;;
  mean <- vget image "avg" (Some []) ;;
  stddev <- vget image "deviate" (Some []) ;;
  min <- vget image "min" (Some []) ;;
  max <- vget image "max" (Some []) ;;
  entropy <- vget (VMethod image "hist" []) "histEntropy" (Some []) ;;
  max' <- vget image "max" (Some []) ;;
  min' <- vget image "min" (Some []) ;;
  let contrast := JNum (num_sub (ToNumber max') (ToNumber min')) in
  let half_window :=
    JNum (num_div (num_mul (ToNumber window_size) (ToNumber window_size)) (Qn 2)) in
  localVariance <-
    vget (VMethod image "rank" [AVal window_size; AVal window_size; AVal half_window])
         "deviate" (Some []) ;;
  let stats_ :=
    JObj [("mean", mean); ("stddev", stddev); ("min", min); ("max", max);
          ("entropy", entropy); ("contrast", contrast);
          ("windowSize", window_size); ("localVariance", localVariance)] in
  ret (text_content ("✨ Texture Analysis Results:" +:+ nl +:+ JSON_stringify B stats_)).

Definition image_texture_analysis_sharp (a : Bag) (error : exn) : M Response :=
  let input_path := prop a "input_path" in
  let window_size := prop_or a "window_size" (num 5) in
  console_warn "⚠️ Using Sharp for basic texture analysis" ;;
  stats_ <- stats input_path ;;
  metadata_ <- metadata input_path ;;
  channels <- js_map "stats.channels"
                (fun _ ch =>
                   JObj [("mean", field ch "mean");
                         ("stdev", field ch "stdev");
                         ("min", field ch "min");
                         ("max", field ch "max");
                         ("contrast",
                          JNum (num_sub (ToNumber (field ch "max")) (ToNumber (field ch "min"))))])
                (field stats_ "channels") ;;
  let textureStats :=
    JObj [("channels", channels);
          ("entropy", field stats_ "entropy");
          ("windowSize", window_size);
          ("format", field metadata_ "format");
          ("dimensions",
           JStr (show (field metadata_ "width") +:+ "x" +:+ show (field metadata_ "height")))] in
  ret (text_content ("⚡ Basic Texture Analysis (Sharp):" +:+ nl +:+
                     JSON_stringify B textureStats)).

Definition case_image_texture_analysis (args : option Bag) : M Response :=
  a <- destructure args "input_path" ;;
  unless_exists "Input image" (prop a "input_path") ;;
  try_catch (image_texture_analysis_vips a) (image_texture_analysis_sharp a).

Definition image_flood_fill_vips (a : Bag) : M Response :=
  let input_path := prop a "input_path" in
  let output_path := prop a "output_path" in
  let x := prop a "x" in
  let y := prop a "y" in
  let fill_color := prop_or a "fill_color" (JStr "#FF0000") in
  let tolerance := prop_or a "tolerance" (num 10) in
  initVips ;;
  console_log "🌊 Applying flood fill with wasm-vips..." ;;
  hex <- replace_hash "fill_color" fill_color ;;
  let fillRGB := hex_rgb hex in
  image <- vips_Image_new "newFromFile" [AVal input_path] ;;
  let result :=
    VMethod image "floodfill"
      [AVal fillRGB; AVal x; AVal y; AVal (JObj [("tolerance", tolerance)])] in
  writeToFile result output_path ;;
  ret (text_content ("✨ Flood fill applied at (" +:+ show x +:+ "," +:+ show y +:+
                     ") with color " +:+ show fill_color +:+ ": " +:+ show output_path)).

Definition image_flood_fill_sharp (a : Bag) (error : exn) : M Response :=
  let input_path := prop a "input_path" in
  let output_path := prop a "output_path" in
  let x := prop a "x" in
  let y := prop a "y" in
  let fill_color := prop_or a "fill_color" (JStr "#FF0000") in
  console_warn "⚠️ Flood fill not available, using circle overlay" ;;
  m <- metadata input_path ;;
  let imgWidth := field m "width" in
  let imgHeight := field m "height" in
  let svg :=
    svg_open imgWidth imgHeight +:+ nl +:+
    "            <circle " +:+ attr "cx" (show x) +:+ " " +:+ attr "cy" (show y) +:+ " " +:+
    attr "r" "50" +:+ " " +:+ attr "fill" (show fill_color) +:+ "/>" +:+ nl +:+
    "          </svg>" in
  toFile (call (sharp input_path) "composite" (svg_overlay svg)) output_path ;;
  ret (text_content ("⚡ Circle overlay applied (flood fill approximation): " +:+
                     show output_path)).

Definition case_image_flood_fill (args : option Bag) : M Response :=
  a <- destructure args "input_path" ;;
  unless_exists "Input image" (prop a "input_path") ;;
  ensureDirectoryExists (prop a "output_path") ;;
  try_catch (image_flood_fill_vips a) (image_flood_fill_sharp a).

(* ===================================================================== *)
(** ** image_create_pyramid                                               *)
(* ===================================================================== *)

Definition level_path (output_dir : JValue) (level : nat) : string :=
  show output_dir +:+ "/level_" +:+ pretty level +:+ ".jpg".

Definition level_pipe (input_path currentWidth currentHeight : JValue) : SharpPipe :=
  call (sharp input_path) "resize" [AVal (js_floor currentWidth); AVal (js_floor currentHeight)].

Definition level_entry (output_dir : JValue) (level : nat) (currentWidth currentHeight : JValue)
  : JValue :=
  JObj [("level", num (Z.of_nat level));
        ("path", JStr (level_path output_dir level));
        ("dimensions",
         JStr (show (js_floor currentWidth) +:+ "x" +:+ show (js_floor currentHeight)))].

(** The [for] loop over the levels still to write; [pyramidFiles] is the
    array built so far. *)
Fixpoint pyramid_loop (input_path output_dir scale_factor : JValue) (levels : list nat)
    (currentWidth currentHeight : JValue) (pyramidFiles : list JValue) : M (list JValue) :=
  match levels with
  | [] => ret pyramidFiles
  | level :: rest =>
      let outputPath := level_path output_dir level in
      toFile (level_pipe input_path currentWidth currentHeight) (JStr outputPath) ;;
      pyramid_loop input_path output_dir scale_factor rest
        (js_mul currentWidth scale_factor) (js_mul currentHeight scale_factor)
        (pyramidFiles ++ [level_entry output_dir level currentWidth currentHeight])
  end.

Definition case_image_create_pyramid (args : option Bag) : M Response :=
  a <- destructure args "input_path" ;;
  let input_path := prop a "input_path" in
  let output_dir := prop a "output_dir" in
  let levels := prop_or a "levels" (num 4) in
  let scale_factor := prop_or a "scale_factor" (JNum (Fin (1 # 2))) in
  unless_exists "Input image" input_path ;;
  ensureDirectoryExists output_dir ;;
  try_catch
    (metadata_ <- metadata input_path ;;
     let currentWidth := field metadata_ "width" in
     let currentHeight := field metadata_ "height" in
     pyramidFiles <-
       pyramid_loop input_path output_dir scale_factor
         (seq 0 (trip_count (ToNumber levels))) currentWidth currentHeight [] ;;
     ret (text_content ("✨ Image pyramid created with " +:+ show levels +:+ " levels:" +:+ nl +:+
                        JSON_stringify B (JArr pyramidFiles))))
    (fun error => throw (Error_ ("Failed to create image pyramid: " +:+ exn_show error))).

(* ===================================================================== *)
(** ** The two request handlers                                           *)
(* ===================================================================== *)

(** The [switch (name)]: labels in source order, first match wins. *)
Definition cases : list (string * (option Bag -> M Response)) :=
  [("image_info", case_image_info);
   ("image_resize", case_image_resize);
   ("image_convert", case_image_convert);
   ("image_crop", case_image_crop);
   ("image_rotate", case_image_rotate);
   ("image_flip", case_image_flip);
   ("image_blur", case_image_blur);
   ("image_sharpen", case_image_sharpen);
   ("image_adjust_brightness", case_image_adjust_brightness);
   ("image_adjust_contrast", case_image_adjust_contrast);
   ("image_adjust_saturation", case_image_adjust_saturation);
   ("image_grayscale", case_image_grayscale);
   ("image_composite", case_image_composite);
   ("image_thumbnail", case_image_thumbnail);
   ("image_extract_channel", case_image_extract_channel);
   ("image_histogram", case_image_histogram);
   ("create_solid_color", case_create_solid_color);
   ("image_morphology", case_image_morphology);
   ("image_draw_line", case_image_draw_line);
   ("image_draw_circle", case_image_draw_circle);
   ("image_edge_detection", case_image_edge_detection);
   ("image_advanced_stats", case_image_advanced_stats);
   ("image_fft", case_image_fft);
   ("image_custom_convolution", case_image_custom_convolution);
   ("image_colorspace_convert", case_image_colorspace_convert);
   ("image_add_noise", case_image_add_noise);
   ("image_perspective_transform", case_image_perspective_transform);
   ("image_texture_analysis", case_image_texture_analysis);
   ("image_flood_fill", case_image_flood_fill);
   ("image_create_pyramid", case_image_create_pyramid)].

(** The body of the outer [try]. *)
Definition dispatch (tool_name : string) (args : option Bag) : M Response :=
  match assoc tool_name cases with
  | Some body => body args
  | None => throw (Error_ ("Unknown tool: " +:+ tool_name))
  end.

(** The outer [catch]. *)
Definition error_response (error : exn) : Response :=
  {| content := [ {| type := "text"; text := "Error: " +:+ exn_message error |} ];
     isError := Some true |}.

(** [server.setRequestHandler(CallToolRequestSchema, ...)].  The SDK has
    checked the envelope before the handler runs: [tool_name] is a string and
    [args] is an object or absent. *)
Definition CallTool (tool_name : string) (args : option Bag) (w : World) : Response * World :=
  match dispatch tool_name args w with
  | (Ok response, w') => (response, w')
  | (Throw error, w') => (error_response error, w')
  end.

(** [server.setRequestHandler(ListToolsRequestSchema, ...)] *)
Definition ListTools (w : World) : list Tool * World := (tools w, w).

End Handler.

(* ===================================================================== *)
(** ** The descriptor table and the server's life                        *)
(* ===================================================================== *)

Definition param (n : string) (s : Schema) (d : option JValue) (desc : string) : Property :=
  {| p_name := n; p_schema := s; p_default := d; p_description := desc |}.

(** index.ts, [const tools: Tool[]]: every [inputSchema] has [type: 'object']. *)
Definition tools_init : list Tool := [
  {| name := "image_info";
     description := "Get detailed information about an image file";
     properties := [
      param "image_path" (SString None) None "Path to the image file" ];
     required := ["image_path"] |};
  {| name := "image_resize";
     description := "Resize an image while preserving aspect ratio or with specific dimensions";
     properties := [
      param "input_path" (SString None) None "Path to input image";
      param "output_path" (SString None) None "Path for output image";
      param "width" (SNumber None None) None "Target width in pixels";
      param "height" (SNumber None None) None "Target height in pixels";
      param "maintain_aspect_ratio" SBoolean (Some (JBool true))
        "Whether to maintain aspect ratio (default: true)";
      param "fit" (SString (Some ["cover"; "contain"; "fill"; "inside"; "outside"]))
        (Some (JStr "cover"))
        "How the image should be resized to fit the target dimensions" ];
     required := ["input_path"; "output_path"] |};
  {| name := "image_convert";
     description := "Convert image between different formats";
     properties := [
      param "input_path" (SString None) None "Path to input image";
      param "output_path" (SString None) None "Path for output image";
      param "format" (SString (Some ["jpeg"; "png"; "webp"; "tiff"; "avif"; "heif"])) None
        "Target format";
      param "quality" (SNumber (Some 1) (Some 100)) None "Quality for lossy formats (1-100)" ];
     required := ["input_path"; "output_path"; "format"] |};
  {| name := "image_crop";
     description := "Crop an image to specified dimensions and position";
     properties := [
      param "input_path" (SString None) None "Path to input image";
      param "output_path" (SString None) None "Path for output image";
      param "x" (SNumber None None) None "X coordinate of crop area (left)";
      param "y" (SNumber None None) None "Y coordinate of crop area (top)";
      param "width" (SNumber None None) None "Width of crop area";
      param "height" (SNumber None None) None "Height of crop area" ];
     required := ["input_path"; "output_path"; "x"; "y"; "width"; "height"] |};
  {| name := "image_rotate";
     description := "Rotate an image by specified angle";
     properties := [
      param "input_path" (SString None) None "Path to input image";
      param "output_path" (SString None) None "Path for output image";
      param "angle" (SNumber None None) None "Rotation angle in degrees (positive = clockwise)";
      param "background" (SString None) (Some (JStr "#000000"))
        "Background color for empty areas (hex color)" ];
     required := ["input_path"; "output_path"; "angle"] |};
  {| name := "image_flip";
     description := "Flip an image horizontally or vertically";
     properties := [
      param "input_path" (SString None) None "Path to input image";
      param "output_path" (SString None) None "Path for output image";
      param "direction" (SString (Some ["horizontal"; "vertical"])) None
        "Direction to flip the image" ];
     required := ["input_path"; "output_path"; "direction"] |};
  {| name := "image_blur";
     description := "Apply Gaussian blur to an image";
     properties := [
      param "input_path" (SString None) None "Path to input image";
      param "output_path" (SString None) None "Path for output image";
      param "sigma" (SNumber (Some (3 # 10)) (Some 1000)) (Some (JNum (Fin 1)))
        "Blur strength (sigma value)" ];
     required := ["input_path"; "output_path"] |};
  {| name := "image_sharpen";
     description := "Apply unsharp mask to sharpen an image";
     properties := [
      param "input_path" (SString None) None "Path to input image";
      param "output_path" (SString None) None "Path for output image";
      param "sigma" (SNumber None None) (Some (JNum (Fin 1))) "Blur sigma for the mask";
      param "flat" (SNumber None None) (Some (JNum (Fin 1))) "Flat area threshold";
      param "jagged" (SNumber None None) (Some (JNum (Fin 2))) "Jagged area threshold" ];
     required := ["input_path"; "output_path"] |};
  {| name := "image_adjust_brightness";
     description := "Adjust image brightness";
     properties := [
      param "input_path" (SString None) None "Path to input image";
      param "output_path" (SString None) None "Path for output image";
      param "brightness" (SNumber (Some (-100)) (Some 100)) None
        "Brightness adjustment (-100 to 100)" ];
     required := ["input_path"; "output_path"; "brightness"] |};
  {| name := "image_adjust_contrast";
     description := "Adjust image contrast";
     properties := [
      param "input_path" (SString None) None "Path to input image";
      param "output_path" (SString None) None "Path for output image";
      param "contrast" (SNumber (Some (1 # 10)) (Some 3)) None
        "Contrast multiplier (0.1 to 3.0, 1.0 = no change)" ];
     required := ["input_path"; "output_path"; "contrast"] |};
  {| name := "image_adjust_saturation";
     description := "Adjust image saturation";
     properties := [
      param "input_path" (SString None) None "Path to input image";
      param "output_path" (SString None) None "Path for output image";
      param "saturation" (SNumber (Some 0) (Some 2)) None
        "Saturation multiplier (0.0 to 2.0, 1.0 = no change)" ];
     required := ["input_path"; "output_path"; "saturation"] |};
  {| name := "image_grayscale";
     description := "Convert image to grayscale";
     properties := [
      param "input_path" (SString None) None "Path to input image";
      param "output_path" (SString None) None "Path for output image" ];
     required := ["input_path"; "output_path"] |};
  {| name := "image_composite";
     description := "Composite two images together with various blend modes";
     properties := [
      param "base_image_path" (SString None) None "Path to base image";
      param "overlay_image_path" (SString None) None "Path to overlay image";
      param "output_path" (SString None) None "Path for output image";
      param "x" (SNumber None None) (Some (JNum (Fin 0))) "X position of overlay on base image";
      param "y" (SNumber None None) (Some (JNum (Fin 0))) "Y position of overlay on base image";
      param "blend"
        (SString (Some ["over"; "in"; "out"; "atop"; "dest"; "dest-over"; "dest-in"; "dest-out";
                        "dest-atop"; "xor"; "add"; "saturate"; "multiply"; "screen"; "overlay";
                        "darken"; "lighten"; "colour-dodge"; "colour-burn"; "hard-light";
                        "soft-light"; "difference"; "exclusion"]))
        (Some (JStr "over"))
        "Blend mode for compositing" ];
     required := ["base_image_path"; "overlay_image_path"; "output_path"] |};
  {| name := "image_thumbnail";
     description := "Create a thumbnail maintaining aspect ratio";
     properties := [
      param "input_path" (SString None) None "Path to input image";
      param "output_path" (SString None) None "Path for output image";
      param "size" (SNumber None None) None "Maximum dimension for thumbnail";
      param "crop" SBoolean (Some (JBool false)) "Whether to crop to exact square" ];
     required := ["input_path"; "output_path"; "size"] |};
  {| name := "image_extract_channel";
     description := "Extract a specific channel from an image";
     properties := [
      param "input_path" (SString None) None "Path to input image";
      param "output_path" (SString None) None "Path for output image";
      param "channel" (SNumber (Some 0) (Some 3)) None
        "Channel index to extract (0=Red, 1=Green, 2=Blue, 3=Alpha)" ];
     required := ["input_path"; "output_path"; "channel"] |};
  {| name := "image_histogram";
     description := "Generate histogram data for an image";
     properties := [
      param "input_path" (SString None) None "Path to input image";
      param "bins" (SNumber None None) (Some (JNum (Fin 256))) "Number of histogram bins" ];
     required := ["input_path"] |};
  {| name := "create_solid_color";
     description := "Create a solid color image";
     properties := [
      param "output_path" (SString None) None "Path for output image";
      param "width" (SNumber None None) None "Image width in pixels";
      param "height" (SNumber None None) None "Image height in pixels";
      param "color" (SString None) (Some (JStr "#FFFFFF")) "Color in hex format (e.g., #FF0000)" ];
     required := ["output_path"; "width"; "height"] |};
  {| name := "image_morphology";
     description := "Apply morphological operations (erosion, dilation, opening, closing)";
     properties := [
      param "input_path" (SString None) None "Path to input image";
      param "output_path" (SString None) None "Path for output image";
      param "operation" (SString (Some ["erode"; "dilate"; "opening"; "closing"])) None
        "Morphological operation to apply";
      param "kernel_size" (SNumber None None) (Some (JNum (Fin 3)))
        "Size of morphological kernel";
      param "iterations" (SNumber (Some 1) None) (Some (JNum (Fin 1))) "Number of iterations" ];
     required := ["input_path"; "output_path"; "operation"] |};
  {| name := "image_draw_line";
     description := "Draw a line on the image";
     properties := [
      param "input_path" (SString None) None "Path to input image";
      param "output_path" (SString None) None "Path for output image";
      param "x1" (SNumber None None) None "Start X coordinate";
      param "y1" (SNumber None None) None "Start Y coordinate";
      param "x2" (SNumber None None) None "End X coordinate";
      param "y2" (SNumber None None) None "End Y coordinate";
      param "color" (SString None) (Some (JStr "#000000")) "Line color (hex format)";
      param "width" (SNumber None None) (Some (JNum (Fin 1))) "Line width in pixels" ];
     required := ["input_path"; "output_path"; "x1"; "y1"; "x2"; "y2"] |};
  {| name := "image_draw_circle";
     description := "Draw a circle on the image";
     properties := [
      param "input_path" (SString None) None "Path to input image";
      param "output_path" (SString None) None "Path for output image";
      param "x" (SNumber None None) None "Center X coordinate";
      param "y" (SNumber None None) None "Center Y coordinate";
      param "radius" (SNumber None None) None "Circle radius in pixels";
      param "fill" SBoolean (Some (JBool false)) "Whether to fill the circle";
      param "color" (SString None) (Some (JStr "#000000")) "Circle color (hex format)" ];
     required := ["input_path"; "output_path"; "x"; "y"; "radius"] |};
  {| name := "image_edge_detection";
     description := "Apply edge detection algorithms";
     properties := [
      param "input_path" (SString None) None "Path to input image";
      param "output_path" (SString None) None "Path for output image";
      param "method" (SString (Some ["sobel"; "prewitt"; "roberts"; "laplacian"])) None
        "Edge detection method to use";
      param "threshold" (SNumber None None) (Some (JNum (Fin 128))) "Edge threshold (0-255)" ];
     required := ["input_path"; "output_path"; "method"] |};
  {| name := "image_advanced_stats";
     description := "Calculate comprehensive image statistics using wasm-vips";
     properties := [
      param "input_path" (SString None) None "Path to input image" ];
     required := ["input_path"] |};
  {| name := "image_fft";
     description := "Apply Fast Fourier Transform for frequency domain analysis";
     properties := [
      param "input_path" (SString None) None "Path to input image";
      param "output_path" (SString None) None "Path for output image";
      param "inverse" SBoolean (Some (JBool false)) "Apply inverse FFT" ];
     required := ["input_path"; "output_path"] |};
  {| name := "image_custom_convolution";
     description := "Apply custom convolution kernel for advanced filtering";
     properties := [
      param "input_path" (SString None) None "Path to input image";
      param "output_path" (SString None) None "Path for output image";
      param "kernel" (SArray (SArray (SNumber None None) None None) None None) None
        "2D convolution kernel matrix";
      param "scale" (SNumber None None) (Some (JNum (Fin 1))) "Kernel scale factor";
      param "offset" (SNumber None None) (Some (JNum (Fin 0))) "Output offset" ];
     required := ["input_path"; "output_path"; "kernel"] |};
  {| name := "image_colorspace_convert";
     description := "Convert between different color spaces";
     properties := [
      param "input_path" (SString None) None "Path to input image";
      param "output_path" (SString None) None "Path for output image";
      param "space" (SString (Some ["srgb"; "rgb"; "cmyk"; "lab"; "xyz"; "scrgb"; "hsv"; "lch"])) None
        "Target color space" ];
     required := ["input_path"; "output_path"; "space"] |};
  {| name := "image_add_noise";
     description := "Add various types of noise to images";
     properties := [
      param "input_path" (SString None) None "Path to input image";
      param "output_path" (SString None) None "Path for output image";
      param "noise_type" (SString (Some ["gaussian"; "uniform"; "salt_pepper"])) None
        "Type of noise to add";
      param "amount" (SNumber (Some 0) (Some 1)) (Some (JNum (Fin (1 # 10))))
        "Noise intensity (0-1)" ];
     required := ["input_path"; "output_path"; "noise_type"] |};
  {| name := "image_perspective_transform";
     description := "Apply perspective transformation to images";
     properties := [
      param "input_path" (SString None) None "Path to input image";
      param "output_path" (SString None) None "Path for output image";
      param "corners"
        (SArray (SArray (SNumber None None) (Some 2%nat) (Some 2%nat)) (Some 4%nat) (Some 4%nat))
        None
        "Four corner points [[x1,y1], [x2,y2], [x3,y3], [x4,y4]]" ];
     required := ["input_path"; "output_path"; "corners"] |};
  {| name := "image_texture_analysis";
     description := "Analyze image texture using statistical measures";
     properties := [
      param "input_path" (SString None) None "Path to input image";
      param "window_size" (SNumber None None) (Some (JNum (Fin 5))) "Analysis window size" ];
     required := ["input_path"] |};
  {| name := "image_flood_fill";
     description := "Fill connected regions with specified color";
     properties := [
      param "input_path" (SString None) None "Path to input image";
      param "output_path" (SString None) None "Path for output image";
      param "x" (SNumber None None) None "Starting X coordinate";
      param "y" (SNumber None None) None "Starting Y coordinate";
      param "fill_color" (SString None) (Some (JStr "#FF0000")) "Fill color (hex format)";
      param "tolerance" (SNumber None None) (Some (JNum (Fin 10))) "Color tolerance for filling" ];
     required := ["input_path"; "output_path"; "x"; "y"] |};
  {| name := "image_create_pyramid";
     description := "Create image pyramid for multi-resolution analysis";
     properties := [
      param "input_path" (SString None) None "Path to input image";
      param "output_dir" (SString None) None "Directory for pyramid levels";
      param "levels" (SNumber (Some 2) (Some 8)) (Some (JNum (Fin 4)))
        "Number of pyramid levels";
      param "scale_factor" (SNumber None None) (Some (JNum (Fin (1 # 2))))
        "Scale factor between levels" ];
     required := ["input_path"; "output_dir"] |} ]%Q.

(** Process start: [let vips = null], [const tools = [...]], nothing logged. *)
Definition boot (f : FS) : World :=
  {| fs := f; vips := None; tools := tools_init; console := []; trace := [] |}.

(** What can happen to the server between start and now: a tool invocation,
    a tool listing, or some other process changing the filesystem. *)
Inductive Event :=
| EvCall (tool_name : string) (args : option Bag)
| EvList
| EvFiles (f : FS).

Definition after (B : Backends) (w : World) (ev : Event) : World :=
  match ev with
  | EvCall tool_name args => snd (CallTool B tool_name args w)
  | EvList => snd (ListTools w)
  | EvFiles f => set_fs f w
  end.

Definition run (B : Backends) (history : list Event) (w : World) : World :=
  fold_left (after B) history w.

(** Number of [Vips()] calls so far. *)
Definition vips_inits (l : list Call) : nat :=
  List.length (List.filter (fun c => match c with CVipsInit => true | _ => false end) l).

(** The parameters holding the paths an operation reads, with the wording of
    its not-found error; in the order the handler checks them. *)
Definition input_params (tool_name : string) : list (string * string) :=
  if String.eqb tool_name "image_info" then [("image_path", "Image file")]
  else if String.eqb tool_name "image_composite"
       then [("base_image_path", "Base image"); ("overlay_image_path", "Overlay image")]
  else if String.eqb tool_name "create_solid_color" then []
  else [("input_path", "Input image")].

(** The parameter holding the path an operation writes next to, if any
    (the argument of its [ensureDirectoryExists]). *)
Definition output_param (tool_name : string) : option string :=
  if existsb (String.eqb tool_name)
       ["image_info"; "image_histogram"; "image_advanced_stats"; "image_texture_analysis"]
  then None
  else if String.eqb tool_name "image_create_pyramid" then Some "output_dir"
  else Some "output_path".

Fixpoint first_missing (f : FS) (a : Bag) (ps : list (string * string))
  : option (string * string) :=
  match ps with
  | [] => None
  | (k, what) :: rest =>
      match prop a k with
      | JStr s => if path_exists f s then first_missing f a rest else Some (k, what)
      | _ => Some (k, what)
      end
  end.

(** The operations that have a wasm-vips block and a sharp block, with both. *)
Definition two_backend_cases (B : Backends)
  : list (string * ((Bag -> M Response) * (Bag -> exn -> M Response))) :=
  [("image_morphology", (image_morphology_vips B, image_morphology_sharp B));
   ("image_draw_line", (image_draw_line_vips B, image_draw_line_sharp B));
   ("image_edge_detection", (image_edge_detection_vips B, image_edge_detection_sharp B));
   ("image_advanced_stats", (image_advanced_stats_vips B, image_advanced_stats_sharp B));
   ("image_fft", (image_fft_vips B, image_fft_sharp B));
   ("image_custom_convolution",
    (image_custom_convolution_vips B, image_custom_convolution_sharp B));
   ("image_colorspace_convert",
    (image_colorspace_convert_vips B, image_colorspace_convert_sharp B));
   ("image_add_noise", (image_add_noise_vips B, image_add_noise_sharp B));
   ("image_perspective_transform",
    (image_perspective_transform_vips B, image_perspective_transform_sharp B));
   ("image_texture_analysis", (image_texture_analysis_vips B, image_texture_analysis_sharp B));
   ("image_flood_fill", (image_flood_fill_vips B, image_flood_fill_sharp B))].

(** The steps every case runs before it touches an image library: the
    existence checks, then the output directory. *)
Fixpoint all_exist (a : Bag) (ps : list (string * string)) : M unit :=
  match ps with
  | [] => ret tt
  | (k, what) :: rest => unless_exists what (prop a k) ;; all_exist a rest
  end.

Definition prechecks (B : Backends) (tool_name : string) (a : Bag) : M unit :=
  all_exist a (input_params tool_name) ;;
  match output_param tool_name with
  | Some k => ensureDirectoryExists B (prop a k)
  | None => ret tt
  end.

(* ===================================================================== *)
(** ** What validating against a descriptor would mean                    *)
(* ===================================================================== *)

(** JSON Schema conformance for the keywords the table uses.  The handler
    never calls it: it is here to state what the code does not do. *)
Fixpoint conforms (s : Schema) (v : JValue) : bool :=
  match s, v with
  | SString None, JStr _ => true
  | SString (Some allowed), JStr x => existsb (String.eqb x) allowed
  | SNumber lo hi, JNum (Fin q) =>
      match lo with Some l => Qle_bool l q | None => true end &&
      match hi with Some h => Qle_bool q h | None => true end
  | SBoolean, JBool _ => true
  | SArray items lo hi, JArr l =>
      forallb (conforms items) l &&
      match lo with Some n => (n <=? List.length l)%nat | None => true end &&
      match hi with Some n => (List.length l <=? n)%nat | None => true end
  | _, _ => false
  end.

Definition schema_valid (t : Tool) (args : option Bag) : bool :=
  let a := default ∅ args in
  forallb (fun k => bool_decide (is_Some (a !! k))) (required t) &&
  forallb (fun p => match a !! p_name p with
                    | Some v => conforms (p_schema p) v
                    | None => true
                    end) (properties t).

Definition find_tool (tool_name : string) : option Tool :=
  List.find (fun t => String.eqb (name t) tool_name) tools_init.

(* ===================================================================== *)
(** ** A small stand-in for the libraries, to run the handler on examples *)
(* ===================================================================== *)

Module Demo.

(** Image files are told apart by their first bytes; the stand-in decoders
    know three kinds. *)
Definition dims_of (bytes : Bytes) : Z * Z :=
  if String.eqb bytes "png 1x1" then (1, 1)%Z else (640, 480)%Z.

Definition sharp_decodes (bytes : Bytes) : bool := negb (String.prefix "jxl" bytes).

Definition positive_integer (v : JValue) : bool :=
  match v with
  | JNum (Fin q) => Qeq_bool q (inject_Z (Qfloor q)) && (0 <? Qfloor q)%Z
  | _ => false
  end.

(** sharp rejects [resize(w, h)] unless both are positive integers. *)
Definition bad_resize (c : string * list Arg) : option JValue :=
  if String.eqb (fst c) "resize" then
    match snd c with
    | [AVal w; AVal h] =>
        if negb (positive_integer w) then Some w
        else if negb (positive_integer h) then Some h
        else None
    | _ => None
    end
  else None.

Fixpoint first_some {A C} (f : A -> option C) (l : list A) : option C :=
  match l with
  | [] => None
  | x :: rest => match f x with Some y => Some y | None => first_some f rest end
  end.

Definition source_bytes (f : FS) (input : JValue) : Result Bytes :=
  match input with
  | JStr p =>
      match files f !! p with
      | Some bytes =>
          if sharp_decodes bytes then Ok bytes
          else Throw (Error_ "Input file contains unsupported image format")
      | None => Throw (Error_ ("Input file is missing: " +:+ p))
      end
  | JObj _ => Ok "raw"
  | _ => Throw (Error_ ("Unsupported input '" +:+ show input +:+ "'"))
  end.

Definition sharp_write (f : FS) (p : SharpPipe) (out : string) : Result Bytes :=
  match source_bytes f (s_input p) with
  | Throw e => Throw e
  | Ok bytes =>
      match first_some bad_resize (s_calls p) with
      | Some v =>
          Throw (Error_ ("Expected positive integer for width but received " +:+ show v +:+
                         " of type number"))
      | None =>
          if bool_decide (dirname out ∈ dirs f)
          then Ok ("sharp(" +:+ bytes +:+ ")." +:+ join "." (List.map fst (s_calls p)))
          else Throw (Error_ (out +:+ ": unable to open for write"))
      end
  end.

Definition sharp_meta (f : FS) (input : JValue) : Result JValue :=
  match source_bytes f input with
  | Throw e => Throw e
  | Ok bytes =>
      Ok (JObj [("format", JStr (substring 0 3 bytes));
                ("width", num (fst (dims_of bytes)));
                ("height", num (snd (dims_of bytes)))])
  end.

Definition sharp_numbers (f : FS) (input : JValue) : Result JValue :=
  match source_bytes f input with
  | Throw e => Throw e
  | Ok bytes =>
      Ok (JObj [("channels",
                 JArr [JObj [("min", num 0); ("max", num 255); ("mean", num 128);
                             ("stdev", num 10)]]);
                ("isOpaque", JBool true);
                ("entropy", num 7)])
  end.

Definition vips_construct (h : Handle) (f : FS) (method : string) (args : list Arg)
  : option exn :=
  if String.eqb method "newFromFile" then
    match args with
    | [AVal (JStr p)] =>
        if bool_decide (is_Some (files f !! p)) then None
        else Some (Error_ ("unable to load from file " +:+ p))
    | _ => Some (Error_ "unable to load from file")
    end
  else None.

Definition vips_member (f : FS) (img : VImage) (member : string) (args : option (list Arg))
  : Result JValue :=
  Ok (num 1).

Definition vips_write (f : FS) (img : VImage) (out : string) : Result Bytes :=
  if bool_decide (dirname out ∈ dirs f) then Ok "vips image"
  else Throw (Error_ ("unable to write to file " +:+ out)).

(** A two-space JSON printer without string escapes. *)
Fixpoint json (indent : string) (v : JValue) {struct v} : string :=
  let inner := indent +:+ "  " in
  match v with
  | JUndefined | JNull | JNum NaN => "null"
  | JBool _ | JNum (Fin _) => show v
  | JStr s | JBuffer s => dq +:+ s +:+ dq
  | JArr [] => "[]"
  | JArr items =>
      "[" +:+ nl +:+ inner +:+
      join ("," +:+ nl +:+ inner)
        ((fix go (l : list JValue) : list string :=
            match l with
            | [] => []
            | x :: rest => json inner x :: go rest
            end) items) +:+
      nl +:+ indent +:+ "]"
  | JObj [] => "{}"
  | JObj fields =>
      "{" +:+ nl +:+ inner +:+
      join ("," +:+ nl +:+ inner)
        ((fix go (l : list (string * JValue)) : list string :=
            match l with
            | [] => []
            | (k, JUndefined) :: rest => go rest
            | (k, x) :: rest => (dq +:+ k +:+ dq +:+ ": " +:+ json inner x) :: go rest
            end) fields) +:+
      nl +:+ indent +:+ "}"
  end.

Fixpoint decimal (s : string) (acc : Z) : Num :=
  match s with
  | EmptyString => Qn acc
  | String c rest =>
      let n := Z.of_nat (nat_of_ascii c) in
      if ((48 <=? n) && (n <=? 57))%Z then decimal rest (10 * acc + (n - 48))%Z else NaN
  end.

Definition libs : Backends :=
  {| Vips := Ok 1%nat;
     vips_new := vips_construct;
     vips_get := vips_member;
     vips_writeToFile := vips_write;
     sharp_toFile := sharp_write;
     sharp_metadata := sharp_meta;
     sharp_stats := sharp_numbers;
     mkdir_permitted := fun _ _ => true;
     dir_size := fun _ => 4096%Z;
     JSON_stringify := json "";
     StringToNumber := fun s => decimal s 0 |}.

(** The same libraries on a machine where the wasm module does not load. *)
Definition libs_without_wasm : Backends :=
  {| Vips := Throw (Error_ "wasm-vips failed to load");
     vips_new := vips_construct;
     vips_get := vips_member;
     vips_writeToFile := vips_write;
     sharp_toFile := sharp_write;
     sharp_metadata := sharp_meta;
     sharp_stats := sharp_numbers;
     mkdir_permitted := fun _ _ => true;
     dir_size := fun _ => 4096%Z;
     JSON_stringify := json "";
     StringToNumber := fun s => decimal s 0 |}.

Definition disk : FS :=
  {| files := {[ "/in/white.png" := "png 1x1";
                 "/in/photo.jpg" := "jpg 640x480";
                 "/in/scan.jxl" := "jxl 640x480" ]};
     dirs := {[ "/"; "/in"; "/out" ]} |}.

Definition bag (l : list (string * JValue)) : Bag := list_to_map l.

(** Requests used as examples. *)
Definition resize_scan : Bag :=
  bag [("input_path", JStr "/in/scan.jxl"); ("output_path", JStr "/out/small.png");
       ("width", num 10)].

Definition contrast_five : Bag :=
  bag [("input_path", JStr "/in/photo.jpg"); ("output_path", JStr "/out/b.png");
       ("contrast", num 5)].

Definition fft_photo : Bag :=
  bag [("input_path", JStr "/in/photo.jpg"); ("output_path", JStr "/out/f.png")].

Definition stats_photo : Bag := bag [("input_path", JStr "/in/photo.jpg")].

Definition crop_missing : Bag :=
  bag [("input_path", JStr "/in/missing.png"); ("output_path", JStr "/out/deep/c.png");
       ("x", num 0); ("y", num 0); ("width", num 1); ("height", num 1)].




End Demo.

(* ===================================================================== *)
(** ** The vocabulary of the proofs                                       *)
(* ===================================================================== *)

(** [sat R Q m]: whatever the start, [m] moves the world along [R], and a
    value it returns satisfies [Q]. *)
Definition sat {A} (R : World -> World -> Prop) (Q : A -> Prop) (m : M A) : Prop :=
  forall w, R w (snd (m w)) /\ forall a, fst (m w) = Ok a -> Q a.

Definition any {A} : A -> Prop := fun _ => True.

Class Frame (R : World -> World -> Prop) : Prop := {
  frame_refl : forall w, R w w;
  frame_trans : forall w1 w2 w3, R w1 w2 -> R w2 w3 -> R w1 w3;
  frame_fs : forall f w, R w (set_fs f w);
  frame_console : forall s w, R w (add_console s w)
}.

(** [R] tolerates a call into sharp, resp. into an initialised wasm-vips,
    resp. a run of [initVips]. *)
Class SharpFrame (R : World -> World -> Prop) : Prop :=
  sharp_frame : forall c w, is_vips_call c = false -> R w (add_trace c w).

Class VipsFrame (R : World -> World -> Prop) : Prop :=
  vips_frame : forall c w, is_vips_call c = true -> c <> CVipsInit -> R w (add_trace c w).

Class InitFrame (B : Backends) (R : World -> World -> Prop) : Prop :=
  init_frame : forall w, R w (snd (initVips B w)).

(** [rel pre post m]: from two worlds related by [pre], [m] gives the same
    outcome and leaves worlds related by [post]. *)
Definition rel {A} (pre post : World -> World -> Prop) (m : M A) : Prop :=
  forall w1 w2, pre w1 w2 ->
    fst (m w1) = fst (m w2) /\ post (snd (m w1)) (snd (m w2)).

(** A handle is only ever the one [Vips()] gives. *)
Definition loaded (B : Backends) (w : World) : Prop :=
  forall h, vips w = Some h -> Vips B = Ok h.

(** Same files, same handle. *)
Definition alike (w1 w2 : World) : Prop :=
  fs w1 = fs w2 /\ vips w1 = vips w2.

(** Same files, and handles that no call to [initVips] could tell apart. *)
Definition akin (B : Backends) (w1 w2 : World) : Prop :=
  fs w1 = fs w2 /\ (vips w1 = vips w2 \/ (loaded B w1 /\ loaded B w2)).

Class Sim (S : World -> World -> Prop) : Prop := {
  sim_files : forall w1 w2, S w1 w2 -> fs w1 = fs w2;
  sim_set_fs : forall f w1 w2, S w1 w2 -> S (set_fs f w1) (set_fs f w2);
  sim_console : forall s1 s2 w1 w2, S w1 w2 -> S (add_console s1 w1) (add_console s2 w2);
  sim_trace : forall c1 c2 w1 w2, S w1 w2 -> S (add_trace c1 w1) (add_trace c2 w2)
}.

Definition anywhere : World -> World -> Prop := fun _ _ => True.

(** Nothing but the lazy initialisation touches the module-level bindings. *)
Definition lazy_only (B : Backends) (w w' : World) : Prop :=
  tools w' = tools w /\
  (vips w' = vips w \/ (vips w = None /\ exists h, Vips B = Ok h /\ vips w' = Some h)).

(** Once set, the handle stays, and [Vips()] is not called again. *)
Definition keeps_handle (w w' : World) : Prop :=
  forall h, vips w = Some h ->
    vips w' = Some h /\ vips_inits (trace w') = vips_inits (trace w).

(** Where the module loads: no handle and no call yet, or the handle and
    the one call that made it. *)
Definition single (B : Backends) (w : World) : Prop :=
  match vips w with
  | Some h => Vips B = Ok h /\ vips_inits (trace w) = 1%nat
  | None => forall h, Vips B = Ok h -> vips_inits (trace w) = 0%nat
  end.

Definition keeps_single (B : Backends) (w w' : World) : Prop := single B w -> single B w'.

(** The calls a step adds to the trace all go to one library. *)
Definition sharp_calls_only (w w' : World) : Prop :=
  vips w' = vips w /\
  exists l, trace w' = trace w ++ l /\ forallb is_sharp_call l = true.

Definition vips_calls_only (w w' : World) : Prop :=
  exists l, trace w' = trace w ++ l /\ forallb is_vips_call l = true.

Definition is_text (r : Response) : Prop := exists s, r = text_content s.


(** The call trace grew, resp. grew by at least one call. *)
Definition extends (w w' : World) : Prop := exists l, trace w' = trace w ++ l.

Definition reaches_backend (w w' : World) : Prop :=
  exists c l, trace w' = trace w ++ c :: l.

Definition set_tools (t : list Tool) (w : World) : World :=
  {| fs := fs w; vips := vips w; tools := t; console := console w; trace := trace w |}.

(** The nineteen cases that only ever call sharp. *)
Definition single_backend (B : Backends) (tool_name : string) : bool :=
  negb (existsb (String.eqb tool_name) (List.map fst (two_backend_cases B))).

(** What a successful [toFile] does to the world. *)
Definition wrote (p : SharpPipe) (path : string) (bytes : Bytes) (w : World) : World :=
  set_fs (write_file (fs w) path bytes) (add_trace (CSharpToFile p path) w).





(* ===================================================================== *)
(** ** The handler's footprint on the filesystem                          *)
(* ===================================================================== *)

(** [moves R m]: whatever the start, [m] moves the world along [R]. *)
Definition moves {A} (R : World -> World -> Prop) (m : M A) : Prop :=
  forall w, R w (snd (m w)).

(** [R] tolerates what the handler does to the trace and to the handle,
    resp. a line on the console. *)
Class Calm (R : World -> World -> Prop) : Prop := {
  calm_refl : forall w, R w w;
  calm_trans : forall w1 w2 w3, R w1 w2 -> R w2 w3 -> R w1 w3;
  calm_trace : forall c w, R w (add_trace c w);
  calm_vips : forall v w, R w (set_vips v w)
}.

Class Logs (R : World -> World -> Prop) : Prop :=
  logs : forall s w, R w (add_console s w).

(** [R] tolerates an allowed batch of new directories, resp. a file written
    at an allowed path. *)
Class MakesDirs (allowed : list string -> Prop) (R : World -> World -> Prop) : Prop :=
  makes_dirs : forall ds w, allowed ds -> R w (set_fs (add_dirs (fs w) ds) w).

Class Writes (allowed : string -> Prop) (R : World -> World -> Prop) : Prop :=
  writes : forall path bytes w, allowed path -> R w (set_fs (write_file (fs w) path bytes) w).

(** The paths an invocation may write: its output path, or the level files
    under the output directory of image_create_pyramid. *)
Definition footprint (tool_name : string) (a : Bag) (p : string) : Prop :=
  match output_param tool_name with
  | None => False
  | Some k =>
      if String.eqb tool_name "image_create_pyramid"
      then exists level, p = level_path (prop a k) level
      else prop a k = JStr p
  end.

(** The directories an invocation may make: those on the way to its output
    path (or to its output directory, for image_create_pyramid). *)
Definition footdirs (tool_name : string) (a : Bag) (ds : list string) : Prop :=
  match output_param tool_name with
  | None => False
  | Some k =>
      exists s, prop a k = JStr s /\ ds = dir_chain (String.length (dirname s)) (dirname s)
  end.

(** Nothing that exists goes away. *)
Definition grows (w w' : World) : Prop :=
  (forall p, is_Some (files (fs w) !! p) -> is_Some (files (fs w') !! p)) /\
  dirs (fs w) ⊆ dirs (fs w').

(** Files outside [allowed] keep their content, or stay absent; a new
    directory comes from a batch in [batches]. *)
Definition only_at (allowed : string -> Prop) (batches : list string -> Prop)
    (w w' : World) : Prop :=
  (forall p, ~ allowed p -> files (fs w') !! p = files (fs w) !! p) /\
  (forall d, d ∈ dirs (fs w') -> d ∈ dirs (fs w) \/ exists ds, batches ds /\ d ∈ ds).

Definition same_files (w w' : World) : Prop := fs w' = fs w.

(** Nothing was printed, resp. the console only grew. *)
Definition quiet (w w' : World) : Prop := console w' = console w.

Definition console_grows (w w' : World) : Prop := exists l, console w' = console w ++ l.

(** [prints m]: [m] leaves at least one more line on the console. *)
Definition prints {A} (m : M A) : Prop :=
  forall w, exists s l, console (snd (m w)) = console w ++ s :: l.



(** The first name of the destructuring pattern of a case. *)
Definition first_param (tool_name : string) : string :=
  match input_params tool_name with
  | (k, _) :: _ => k
  | [] => "output_path"
  end.

(* ===================================================================== *)
(** ** Words for the blocks, the loop of image_morphology and colours     *)
(* ===================================================================== *)

(** [fails_within R m]: [m] always throws, having moved the world along [R]. *)
Definition fails_within {A} (R : World -> World -> Prop) (m : M A) : Prop :=
  forall w, (exists e, fst (m w) = Throw e) /\ R w (snd (m w)).

(** The labels of the two inner switches that end in a [throw]. *)
Definition edge_methods : list string := ["sobel"; "prewitt"; "roberts"; "laplacian"].
Definition noise_types : list string := ["gaussian"; "uniform"; "salt_pepper"].



(** Two hexadecimal digits for a channel value, as a colour string has them. *)
Definition hex_char (upper : bool) (d : nat) : ascii :=
  nth d (list_ascii_of_string (if upper then "0123456789ABCDEF" else "0123456789abcdef"))
      "0"%char.

Definition hex2 (upper : bool) (n : nat) : string :=
  String (hex_char upper (n / 16)) (String (hex_char upper (n mod 16)) EmptyString).

(** The pipeline create_solid_color hands to sharp. *)
Definition solid_pipe (width height r g b : JValue) : SharpPipe :=
  call (sharp (JObj [("create",
                      JObj [("width", width); ("height", height); ("channels", num 3);
                            ("background", JObj [("r", r); ("g", g); ("b", b)])])]))
       "png" [].

(* ===================================================================== *)
(** ** More requests to run the handler on                                *)
(* ===================================================================== *)

Module Samples.

Definition edge_canny : Bag :=
  Demo.bag [("input_path", JStr "/in/photo.jpg"); ("output_path", JStr "/out/e.png");
            ("method", JStr "canny")].


Definition orange : Bag :=
  Demo.bag [("output_path", JStr "/out/o.png"); ("width", num 4); ("height", num 2);
            ("color", JStr "#ff8000")].

Definition white_shorthand : Bag :=
  Demo.bag [("output_path", JStr "/out/w.png"); ("width", num 4); ("height", num 2);
            ("color", JStr "#FFF")].


Definition blur_photo : Bag :=
  Demo.bag [("input_path", JStr "/in/photo.jpg"); ("output_path", JStr "/out/deep/b.png")].

Definition two_corners : Bag :=
  Demo.bag [("input_path", JStr "/in/photo.jpg"); ("output_path", JStr "/out/p.png");
            ("corners", JArr [JArr [num 0; num 0]; JArr [num 10; num 0]])].


Definition flip_diagonal : Bag :=
  Demo.bag [("input_path", JStr "/in/photo.jpg"); ("output_path", JStr "/out/d.png");
            ("direction", JStr "diagonal")].

Definition convert_webp : Bag :=
  Demo.bag [("input_path", JStr "/in/photo.jpg"); ("output_path", JStr "/out/c.webp");
            ("format", JStr "webp"); ("quality", num 0)].

(** The descriptor of a tool, and one of its parameters, by name. *)
Definition descriptor (tool_name : string) : Tool :=
  default {| name := ""; description := ""; properties := []; required := [] |}
          (find_tool tool_name).

Definition parameter (t : Tool) (k : string) : Property :=
  default (param "" SBoolean None "")
          (List.find (fun p => String.eqb (p_name p) k) (properties t)).


End Samples.

(* ===================================================================== *)
(** ** A unary program logic for the handler monad                        *)
(* ===================================================================== *)

Section Logic.

Variable B : Backends.

Context {R : World -> World -> Prop} `{!Frame R}.

Lemma sat_ret {A} (Q : A -> Prop) (a : A) : Q a -> sat R Q (ret a).
Proof.
  intros HQ w. split; [apply frame_refl |].
  intros a' Ha. cbn in Ha. by inversion Ha; subst.
Qed.

Lemma sat_throw {A} (Q : A -> Prop) (e : exn) : sat R Q (throw e).
Proof. intros w. split; [apply frame_refl | intros a Ha; discriminate Ha]. Qed.

Lemma sat_lift {A} (r : Result A) : sat R any (lift r).
Proof. intros w. split; [apply frame_refl | done]. Qed.

Lemma sat_bind {A C} (P : A -> Prop) (Q : C -> Prop) (m : M A) (k : A -> M C) :
  sat R P m -> (forall a, P a -> sat R Q (k a)) -> sat R Q (bind m k).
Proof.
  intros Hm Hk w. destruct (Hm w) as [HR HP].
  unfold bind. destruct (m w) as [[a | e] w1]; cbn in *.
  - destruct (Hk a (HP a eq_refl) w1) as [HR2 HQ2].
    split; [eapply frame_trans; eauto | done].
  - split; [done | intros a Ha; discriminate Ha].
Qed.

Lemma sat_bind_any {A C} (Q : C -> Prop) (m : M A) (k : A -> M C) :
  sat R any m -> (forall a, sat R Q (k a)) -> sat R Q (bind m k).
Proof. intros Hm Hk. apply sat_bind with (P := any); auto. Qed.

Lemma sat_try {A} (P Q : A -> Prop) (body : M A) (handler : exn -> M A) :
  sat R P body -> (forall a, P a -> Q a) -> (forall e, sat R Q (handler e)) ->
  sat R Q (try_catch body handler).
Proof.
  intros Hb HPQ Hh w. destruct (Hb w) as [HR HP].
  unfold try_catch. destruct (body w) as [[a | e] w1]; cbn in *.
  - split; [done |]. intros a' Ha. inversion Ha; subst. auto.
  - destruct (Hh e w1) as [HR2 HQ2]. split; [eapply frame_trans; eauto | done].
Qed.

Lemma sat_weaken {A} (P Q : A -> Prop) (m : M A) :
  sat R P m -> (forall a, P a -> Q a) -> sat R Q m.
Proof. intros Hm HPQ w. destruct (Hm w) as [HR HP]. split; auto. Qed.

Lemma sat_get_world : sat R any get_world.
Proof. intros w. split; [apply frame_refl | done]. Qed.

Lemma sat_console_log s : sat R any (console_log s).
Proof. intros w. split; [apply frame_console | done]. Qed.

Lemma sat_console_warn s : sat R any (console_warn s).
Proof. intros w. split; [apply frame_console | done]. Qed.

Lemma sat_destructure args first : sat R any (destructure args first).
Proof. destruct args; [apply sat_ret | apply sat_throw]; done. Qed.

Lemma sat_existsSync p : sat R any (existsSync p).
Proof. intros w. split; [apply frame_refl | done]. Qed.

Lemma sat_unless_exists what p : sat R any (unless_exists what p).
Proof.
  unfold unless_exists. apply sat_bind_any; [apply sat_existsSync |].
  intros ex. destruct ex; [apply sat_ret | apply sat_throw]; done.
Qed.

Lemma sat_path_dirname p : sat R any (path_dirname p).
Proof. destruct p; first [by apply sat_ret | apply sat_throw]. Qed.

Lemma sat_mkdir dir : sat R any (mkdir B dir).
Proof.
  intros w. unfold mkdir, bind, get_world, modify, throw. cbn.
  destruct (_ && _); cbn; split; first [apply frame_fs | apply frame_refl | done].
Qed.

Lemma sat_ensureDirectoryExists p : sat R any (ensureDirectoryExists B p).
Proof.
  unfold ensureDirectoryExists. apply sat_bind_any; [apply sat_path_dirname |].
  intros dir. eapply sat_try; [apply sat_mkdir | done |]. intros e. by apply sat_ret.
Qed.

Lemma sat_statSync_size p : sat R any (statSync_size B p).
Proof.
  unfold statSync_size. apply sat_bind_any; [apply sat_get_world |]. intros w.
  destruct p; try apply sat_throw.
  destruct (files (fs w) !! s); [by apply sat_ret |].
  destruct (bool_decide _); [by apply sat_ret | apply sat_throw].
Qed.

Lemma sat_replace_hash what v : sat R any (replace_hash what v).
Proof. destruct v; first [by apply sat_ret | apply sat_throw]. Qed.

Lemma sat_js_length v : sat R any (js_length v).
Proof. destruct v; first [by apply sat_ret | apply sat_throw]. Qed.

Lemma sat_js_index v i : sat R any (js_index v i).
Proof. destruct v; first [by apply sat_ret | apply sat_throw]. Qed.

Lemma sat_js_flat what v : sat R any (js_flat what v).
Proof. destruct v; first [by apply sat_ret | apply sat_throw]. Qed.

Lemma sat_js_map what f v : sat R any (js_map what f v).
Proof. destruct v; first [by apply sat_ret | apply sat_throw]. Qed.

Lemma sat_js_includes what v s : sat R any (js_includes what v s).
Proof. destruct v; first [by apply sat_ret | apply sat_throw]. Qed.

Lemma sat_destructure4 what v : sat R any (destructure4 what v).
Proof. destruct v; first [by apply sat_ret | apply sat_throw]. Qed.

Lemma sat_Array_length v : sat R any (Array_length v).
Proof.
  destruct v as [| | |[|q]| | | |]; try first [by apply sat_ret | apply sat_throw].
  cbn. destruct (_ && _); first [by apply sat_ret | apply sat_throw].
Qed.

(** Calls into sharp. *)
Section Sharp.
Context `{!SharpFrame R}.

Lemma sat_toFile p out : sat R any (toFile B p out).
Proof.
  destruct out; try apply sat_throw.
  intros w. unfold toFile, bind, modify, get_world, lift. cbn.
  destruct (sharp_toFile B _ p s); cbn; (split; [| done]).
  - eapply frame_trans; [apply (sharp_frame (CSharpToFile p s)); done | apply frame_fs].
  - by apply sharp_frame.
Qed.

Lemma sat_metadata input : sat R any (metadata B input).
Proof.
  intros w. unfold metadata, bind, modify, get_world, lift. cbn.
  destruct (sharp_metadata B _ input); cbn; (split; [by apply sharp_frame | done]).
Qed.

Lemma sat_stats input : sat R any (stats B input).
Proof.
  intros w. unfold stats, bind, modify, get_world, lift. cbn.
  destruct (sharp_stats B _ input); cbn; (split; [by apply sharp_frame | done]).
Qed.

End Sharp.

(** Calls into wasm-vips. *)
Section Wasm.
Context `{!VipsFrame R}.

Lemma sat_vips_Image : sat R any vips_Image.
Proof.
  intros w. unfold vips_Image, bind, get_world. cbn.
  destruct (vips w); cbn; (split; [apply frame_refl | done]).
Qed.

Lemma sat_vips_Image_new method args : sat R any (vips_Image_new B method args).
Proof.
  unfold vips_Image_new. apply sat_bind_any; [apply sat_vips_Image |]. intros h.
  intros w. unfold bind, modify, get_world. cbn.
  destruct (vips_new B h _ method args); cbn; (split; [by apply vips_frame | done]).
Qed.

Lemma sat_vget img member args : sat R any (vget B img member args).
Proof.
  intros w. unfold vget, bind, modify, get_world, lift. cbn.
  destruct (vips_get B _ img member args); cbn; (split; [by apply vips_frame | done]).
Qed.

Lemma sat_writeToFile img out : sat R any (writeToFile B img out).
Proof.
  destruct out; try apply sat_throw.
  intros w. unfold writeToFile, bind, modify, get_world, lift. cbn.
  destruct (vips_writeToFile B _ img s); cbn; (split; [| done]).
  - eapply frame_trans; [apply (vips_frame (CVipsWrite img s)); done | apply frame_fs].
  - by apply vips_frame.
Qed.

Lemma sat_initVips `{!InitFrame B R} : sat R any (initVips B).
Proof. intros w. split; [apply init_frame | done]. Qed.

End Wasm.

End Logic.
(* ===================================================================== *)
(** ** Every case, through the logic                                      *)
(* ===================================================================== *)

Create HintDb cases_db.

#[global] Hint Unfold
  case_image_info getImageInfo case_image_resize case_image_convert case_image_crop
  case_image_rotate case_image_flip case_image_blur case_image_sharpen
  case_image_adjust_brightness case_image_adjust_contrast case_image_adjust_saturation
  case_image_grayscale case_image_composite case_image_thumbnail case_image_extract_channel
  case_image_histogram case_create_solid_color case_image_draw_circle
  case_image_create_pyramid
  case_image_morphology case_image_draw_line case_image_edge_detection
  case_image_advanced_stats case_image_fft case_image_custom_convolution
  case_image_colorspace_convert case_image_add_noise case_image_perspective_transform
  case_image_texture_analysis case_image_flood_fill : cases_db.

Create HintDb blocks_db.

#[global] Hint Unfold
  image_morphology_vips image_draw_line_vips image_edge_detection_vips
  image_advanced_stats_vips image_fft_vips image_custom_convolution_vips
  image_colorspace_convert_vips image_add_noise_vips image_perspective_transform_vips
  image_texture_analysis_vips image_flood_fill_vips
  image_morphology_sharp image_draw_line_sharp image_edge_detection_sharp
  image_advanced_stats_sharp image_fft_sharp image_custom_convolution_sharp
  image_colorspace_convert_sharp image_add_noise_sharp image_perspective_transform_sharp
  image_texture_analysis_sharp image_flood_fill_sharp : blocks_db.

Ltac frame_side :=
  match goal with
  | |- Frame _ => typeclasses eauto
  | |- SharpFrame _ => typeclasses eauto
  | |- VipsFrame _ => typeclasses eauto
  | |- InitFrame _ _ => typeclasses eauto
  end.

Ltac sat_prim :=
  first
  [ apply sat_destructure | apply sat_unless_exists | apply sat_ensureDirectoryExists
  | apply sat_toFile | apply sat_metadata | apply sat_stats | apply sat_statSync_size
  | apply sat_console_log | apply sat_console_warn | apply sat_initVips
  | apply sat_vips_Image_new | apply sat_vget | apply sat_writeToFile
  | apply sat_replace_hash | apply sat_js_length | apply sat_js_index | apply sat_js_flat
  | apply sat_js_map | apply sat_js_includes | apply sat_destructure4 | apply sat_Array_length
  | apply sat_lift ].

(** Walks a body statement by statement; [extra] closes the statements that
    are not primitives (loops, blocks already dealt with). *)
Ltac sat_walk extra :=
  repeat first
    [ progress cbv zeta
    | frame_side
    | extra
    | sat_prim
    | apply sat_ret; first [ exact I | solve [auto] ]
    | apply sat_throw
    | apply sat_bind_any; [ | intros ? ]
    | match goal with
      | |- sat _ ?Q (try_catch _ _) => apply sat_try with (P := Q); [ | auto | intros ? ]
      | |- sat _ _ (if ?b then _ else _) => destruct b
      | |- sat _ _ (match ?x with _ => _ end) => destruct x
      end ].

Ltac each_entry tac :=
  repeat (apply List.Forall_cons; [ tac | ]); apply List.Forall_nil.

Section CaseFacts.

Variable B : Backends.
Context {R : World -> World -> Prop} `{!Frame R}.
Variable Q : Response -> Prop.
Hypothesis Q_text : forall s, Q (text_content s).

Lemma sat_pyramid_loop `{!SharpFrame R} input_path output_dir scale_factor levels :
  forall cw ch acc,
    sat R any (pyramid_loop B input_path output_dir scale_factor levels cw ch acc).
Proof.
  induction levels as [| level rest IH]; intros cw ch acc; cbn [pyramid_loop].
  - by apply sat_ret.
  - apply sat_bind_any; [apply sat_toFile; frame_side | intros _; apply IH].
Qed.

Lemma sat_single_backend_cases `{!SharpFrame R} :
  Forall (fun entry => single_backend B (fst entry) = true ->
                       forall args, sat R Q (snd entry args)) (cases B).
Proof.
  unfold cases.
  each_entry ltac:(cbn [fst snd]; intros Hs args;
                   first [ discriminate Hs
                         | autounfold with cases_db;
                           sat_walk ltac:(apply sat_pyramid_loop) ]).
Qed.

Lemma sat_sharp_blocks `{!SharpFrame R} :
  Forall (fun entry => forall a e, sat R Q (snd (snd entry) a e)) (two_backend_cases B).
Proof.
  unfold two_backend_cases.
  each_entry ltac:(cbn [fst snd]; intros a e; autounfold with blocks_db; sat_walk fail).
Qed.

Lemma sat_vips_blocks `{!VipsFrame R} `{!InitFrame B R} :
  Forall (fun entry => forall a, sat R Q (fst (snd entry) a)) (two_backend_cases B).
Proof.
  unfold two_backend_cases.
  each_entry ltac:(cbn [fst snd]; intros a; autounfold with blocks_db; sat_walk fail).
Qed.

Lemma sat_cases `{!SharpFrame R} `{!VipsFrame R} `{!InitFrame B R} :
  Forall (fun entry => forall args, sat R Q (snd entry args)) (cases B).
Proof.
  unfold cases.
  each_entry ltac:(cbn [fst snd]; intros args; autounfold with cases_db;
                   autounfold with blocks_db;
                   sat_walk ltac:(apply sat_pyramid_loop)).
Qed.

Lemma sat_dispatch `{!SharpFrame R} `{!VipsFrame R} `{!InitFrame B R} tool_name args :
  sat R Q (dispatch B tool_name args).
Proof.
  unfold dispatch. destruct (assoc tool_name (cases B)) as [body |] eqn:Hbody.
  - pose proof sat_cases as Hall. revert Hbody. generalize (cases B) Hall.
    induction 1 as [| [n b] rest Hb _ IH]; cbn; [done |].
    destruct (String.eqb tool_name n); [| done].
    intros [= <-]. apply Hb.
  - apply sat_throw.
Qed.

End CaseFacts.
(* ===================================================================== *)
(** ** A relational logic: two runs from worlds that look alike           *)
(* ===================================================================== *)

#[global] Instance alike_sim : Sim alike.
Proof. split; unfold alike; cbn; intros; intuition. Qed.

#[global] Instance akin_sim B : Sim (akin B).
Proof. split; unfold akin, loaded; cbn; intros; intuition. Qed.

Lemma alike_akin B w1 w2 : alike w1 w2 -> akin B w1 w2.
Proof. unfold alike, akin. intuition. Qed.

Section Relational.

Variable B : Backends.

Lemma rel_ret {A} S (a : A) : rel S S (ret a).
Proof. intros w1 w2 H. done. Qed.

Lemma rel_throw {A} S (e : exn) : rel S S (throw (A := A) e).
Proof. intros w1 w2 H. done. Qed.

Lemma rel_lift {A} S (r : Result A) : rel S S (lift r).
Proof. intros w1 w2 H. done. Qed.

Lemma rel_bind {A C} S1 S2 S3 (m : M A) (k : A -> M C) :
  rel S1 S2 m -> (forall a, rel S2 S3 (k a)) -> (forall w1 w2, S2 w1 w2 -> S3 w1 w2) ->
  rel S1 S3 (bind m k).
Proof.
  intros Hm Hk Hsub w1 w2 H. destruct (Hm w1 w2 H) as [Hr Hs].
  unfold bind. destruct (m w1) as [r1 w1'], (m w2) as [r2 w2']. cbn in *. subst r2.
  destruct r1 as [a | e]; [by apply Hk | split; auto].
Qed.

Lemma rel_try {A} S1 S2 S3 (body : M A) (handler : exn -> M A) :
  rel S1 S2 body -> (forall e, rel S2 S3 (handler e)) ->
  (forall w1 w2, S2 w1 w2 -> S3 w1 w2) ->
  rel S1 S3 (try_catch body handler).
Proof.
  intros Hb Hh Hsub w1 w2 H. destruct (Hb w1 w2 H) as [Hr Hs].
  unfold try_catch. destruct (body w1) as [r1 w1'], (body w2) as [r2 w2']. cbn in *. subst r2.
  destruct r1 as [a | e]; [split; auto | by apply Hh].
Qed.

Lemma rel_weaken {A} (S1 S2 S1' S2' : World -> World -> Prop) (m : M A) :
  rel S1 S2 m -> (forall w1 w2, S1' w1 w2 -> S1 w1 w2) ->
  (forall w1 w2, S2 w1 w2 -> S2' w1 w2) -> rel S1' S2' m.
Proof. intros Hm H1 H2 w1 w2 H. destruct (Hm w1 w2 (H1 _ _ H)). auto. Qed.

Context {S : World -> World -> Prop} `{!Sim S}.

Lemma rel_console_log s : rel S S (console_log s).
Proof. intros w1 w2 H. split; [done | by apply sim_console]. Qed.

Lemma rel_console_warn s : rel S S (console_warn s).
Proof. intros w1 w2 H. split; [done | by apply sim_console]. Qed.

Lemma rel_destructure args first : rel S S (destructure args first).
Proof. destruct args; [apply rel_ret | apply rel_throw]. Qed.

Lemma rel_existsSync p : rel S S (existsSync p).
Proof.
  intros w1 w2 H. unfold existsSync. cbn. by rewrite (sim_files _ _ H).
Qed.

Lemma rel_unless_exists what p : rel S S (unless_exists what p).
Proof.
  unfold unless_exists. eapply rel_bind; [apply rel_existsSync | | auto].
  intros ex. destruct ex; [apply rel_ret | apply rel_throw].
Qed.

Lemma rel_path_dirname p : rel S S (path_dirname p).
Proof. destruct p; first [apply rel_ret | apply rel_throw]. Qed.

Lemma rel_mkdir dir : rel S S (mkdir B dir).
Proof.
  intros w1 w2 H. unfold mkdir, bind, get_world, modify, throw. cbn.
  rewrite (sim_files _ _ H). destruct (_ && _); cbn; split; auto.
  by apply sim_set_fs.
Qed.

Lemma rel_ensureDirectoryExists p : rel S S (ensureDirectoryExists B p).
Proof.
  unfold ensureDirectoryExists. eapply rel_bind; [apply rel_path_dirname | | auto].
  intros dir. eapply rel_try; [apply rel_mkdir | intros e; apply rel_ret | auto].
Qed.

Lemma rel_statSync_size p : rel S S (statSync_size B p).
Proof.
  intros w1 w2 H. unfold statSync_size, bind, get_world. cbn.
  rewrite (sim_files _ _ H). destruct p; cbn; auto.
  destruct (files (fs w2) !! s); cbn; auto.
  destruct (bool_decide _); cbn; auto.
Qed.

Lemma rel_pure {A} (m : M A) :
  (forall w, m w = (fst (m w), w)) -> (forall w1 w2, fst (m w1) = fst (m w2)) -> rel S S m.
Proof.
  intros Hw Hr w1 w2 H. rewrite (Hw w1), (Hw w2). cbn. split; [apply Hr | done].
Qed.

Lemma rel_replace_hash what v : rel S S (replace_hash what v).
Proof. destruct v; first [apply rel_ret | apply rel_throw]. Qed.

Lemma rel_js_length v : rel S S (js_length v).
Proof. destruct v; first [apply rel_ret | apply rel_throw]. Qed.

Lemma rel_js_index v i : rel S S (js_index v i).
Proof. destruct v; first [apply rel_ret | apply rel_throw]. Qed.

Lemma rel_js_flat what v : rel S S (js_flat what v).
Proof. destruct v; first [apply rel_ret | apply rel_throw]. Qed.

Lemma rel_js_map what f v : rel S S (js_map what f v).
Proof. destruct v; first [apply rel_ret | apply rel_throw]. Qed.

Lemma rel_js_includes what v s : rel S S (js_includes what v s).
Proof. destruct v; first [apply rel_ret | apply rel_throw]. Qed.

Lemma rel_destructure4 what v : rel S S (destructure4 what v).
Proof. destruct v; first [apply rel_ret | apply rel_throw]. Qed.

Lemma rel_Array_length v : rel S S (Array_length v).
Proof.
  destruct v as [| | |[|q]| | | |]; try first [apply rel_ret | apply rel_throw].
  cbn. destruct (_ && _); first [apply rel_ret | apply rel_throw].
Qed.

Lemma rel_toFile p out : rel S S (toFile B p out).
Proof.
  destruct out; try apply rel_throw.
  intros w1 w2 H. unfold toFile, bind, modify, get_world, lift. cbn.
  rewrite (sim_files _ _ H).
  destruct (sharp_toFile B _ p s); cbn; split; auto.
  - apply sim_set_fs. by apply sim_trace.
  - by apply sim_trace.
Qed.

Lemma rel_metadata input : rel S S (metadata B input).
Proof.
  intros w1 w2 H. unfold metadata, bind, modify, get_world, lift. cbn.
  rewrite (sim_files _ _ H). split; [done | by apply sim_trace].
Qed.

Lemma rel_stats input : rel S S (stats B input).
Proof.
  intros w1 w2 H. unfold stats, bind, modify, get_world, lift. cbn.
  rewrite (sim_files _ _ H). split; [done | by apply sim_trace].
Qed.

Lemma rel_vget img member args : rel S S (vget B img member args).
Proof.
  intros w1 w2 H. unfold vget, bind, modify, get_world, lift. cbn.
  rewrite (sim_files _ _ H). split; [done | by apply sim_trace].
Qed.

Lemma rel_writeToFile img out : rel S S (writeToFile B img out).
Proof.
  destruct out; try apply rel_throw.
  intros w1 w2 H. unfold writeToFile, bind, modify, get_world, lift. cbn.
  rewrite (sim_files _ _ H).
  destruct (vips_writeToFile B _ img s); cbn; split; auto.
  - apply sim_set_fs. by apply sim_trace.
  - by apply sim_trace.
Qed.

Lemma rel_pyramid_loop input_path output_dir scale_factor levels :
  forall cw ch acc,
    rel S S (pyramid_loop B input_path output_dir scale_factor levels cw ch acc).
Proof.
  induction levels as [| level rest IH]; intros cw ch acc; cbn [pyramid_loop].
  - apply rel_ret.
  - eapply rel_bind; [apply rel_toFile | intros _; apply IH | auto].
Qed.

End Relational.

(** The statements that read the handle need the handles to agree;
    [initVips] makes them agree. *)
Lemma rel_vips_Image : rel alike alike vips_Image.
Proof.
  intros w1 w2 [Hf Hv]. unfold vips_Image, bind, get_world. cbn. rewrite Hv.
  destruct (vips w2) eqn:E; cbn; (split; [done | split; congruence]).
Qed.

Lemma rel_vips_Image_new B method args : rel alike alike (vips_Image_new B method args).
Proof.
  unfold vips_Image_new. eapply rel_bind; [apply rel_vips_Image | | auto].
  intros h w1 w2 [Hf Hv]. unfold bind, modify, get_world. cbn. rewrite Hf.
  destruct (vips_new B h _ method args); cbn; (split; [done | by split]).
Qed.

Lemma rel_initVips B : rel (akin B) alike (initVips B).
Proof.
  intros w1 w2 [Hf Hv]. unfold initVips, bind, get_world, modify, lift, console_log, modify.
  cbn.
  destruct (vips w1) as [h1 |] eqn:E1, (vips w2) as [h2 |] eqn:E2; cbn.
  - assert (h1 = h2) as ->.
    { destruct Hv as [Hv | [L1 L2]]; [congruence |].
      pose proof (L1 _ E1). pose proof (L2 _ E2). congruence. }
    rewrite E1, E2. split; [done | split; congruence].
  - destruct Hv as [Hv | [L1 L2]]; [congruence |].
    rewrite (L1 _ E1). cbn. rewrite E1. split; [done | split; cbn; congruence].
  - destruct Hv as [Hv | [L1 L2]]; [congruence |].
    rewrite (L2 _ E2). cbn. rewrite E2. split; [done | split; cbn; congruence].
  - destruct (Vips B); cbn; (split; [done | split; cbn; congruence]).
Qed.

Lemma rel_try_blocks B {A} (body : M A) (handler : exn -> M A) :
  rel (akin B) alike body -> (forall e, rel (akin B) (akin B) (handler e)) ->
  rel (akin B) (akin B) (try_catch body handler).
Proof.
  intros Hb Hh. eapply rel_try; [apply Hb | | apply alike_akin].
  intros e. eapply rel_weaken; [apply Hh | apply alike_akin | auto].
Qed.

Ltac rel_prim :=
  first
  [ apply rel_destructure | apply rel_unless_exists | apply rel_ensureDirectoryExists
  | apply rel_toFile | apply rel_metadata | apply rel_stats | apply rel_statSync_size
  | apply rel_console_log | apply rel_console_warn | apply rel_initVips
  | apply rel_vips_Image_new | apply rel_vget | apply rel_writeToFile
  | apply rel_replace_hash | apply rel_js_length | apply rel_js_index | apply rel_js_flat
  | apply rel_js_map | apply rel_js_includes | apply rel_destructure4 | apply rel_Array_length
  | apply rel_pyramid_loop | apply rel_lift ].

Ltac rel_walk :=
  repeat first
    [ progress cbv zeta
    | match goal with
      | |- Sim _ => typeclasses eauto
      | |- forall w1 w2 : World, _ -> _ => solve [auto]
      end
    | rel_prim
    | apply rel_ret
    | apply rel_throw
    | match goal with
      | |- rel _ _ (bind _ _) => eapply rel_bind; [ | intros ? | ]
      | |- rel _ _ (try_catch (bind _ _) _) => eapply rel_try; [ | intros ? | ]
      | |- rel _ _ (try_catch _ _) => apply rel_try_blocks; [ | intros ? ]
      | |- rel _ _ (if ?b then _ else _) => destruct b
      | |- rel _ _ (match ?x with _ => _ end) => destruct x
      end
    | progress autounfold with blocks_db ].

Section RelCases.

Variable B : Backends.

Lemma rel_cases :
  Forall (fun entry => forall args, rel (akin B) (akin B) (snd entry args)) (cases B).
Proof.
  unfold cases.
  each_entry ltac:(cbn [fst snd]; intros args; autounfold with cases_db; rel_walk).
Qed.

Lemma rel_dispatch tool_name args : rel (akin B) (akin B) (dispatch B tool_name args).
Proof.
  unfold dispatch. destruct (assoc tool_name (cases B)) as [body |] eqn:Hbody.
  - pose proof rel_cases as Hall. revert Hbody. generalize (cases B) Hall.
    induction 1 as [| [n b] rest Hb _ IH]; cbn; [done |].
    destruct (String.eqb tool_name n); [| done].
    intros [= <-]. apply Hb.
  - apply rel_throw.
Qed.

End RelCases.

(* ===================================================================== *)
(** ** Each relation of the vocabulary is a frame of the handler          *)
(* ===================================================================== *)

Lemma vips_inits_app l1 l2 : vips_inits (l1 ++ l2) = (vips_inits l1 + vips_inits l2)%nat.
Proof. unfold vips_inits. by rewrite List.filter_app, List.length_app. Qed.

Lemma vips_inits_other c : c <> CVipsInit -> vips_inits [c] = 0%nat.
Proof. destruct c; done. Qed.

Lemma not_vips_not_init c : is_vips_call c = false -> c <> CVipsInit.
Proof. by destruct c. Qed.

Lemma initVips_eq B w :
  initVips B w =
  match vips w with
  | Some h => (Ok (Some h), w)
  | None =>
      match Vips B with
      | Ok h =>
          (Ok (Some h),
           add_console "🎨 Enhanced libvips MCP server (wasm-vips) initialized"
             (set_vips (Some h) (add_trace CVipsInit w)))
      | Throw e => (Throw e, add_trace CVipsInit w)
      end
  end.
Proof.
  unfold initVips, bind, get_world, modify, lift, console_log, modify. cbn.
  destruct (vips w) eqn:E; cbn; [by rewrite E |].
  by destruct (Vips B).
Qed.

#[global] Instance anywhere_frame : Frame anywhere.
Proof. by split. Qed.
#[global] Instance anywhere_sharp : SharpFrame anywhere.
Proof. by intros c w H. Qed.
#[global] Instance anywhere_vips : VipsFrame anywhere.
Proof. by intros c w H. Qed.
#[global] Instance anywhere_init B : InitFrame B anywhere.
Proof. by intros w. Qed.

#[global] Instance lazy_only_frame B : Frame (lazy_only B).
Proof.
  split; unfold lazy_only; cbn; try by intuition.
  intros w1 w2 w3 [Ht1 Hv1] [Ht2 Hv2]. split; [congruence |].
  destruct Hv1 as [Hv1 | (Hn & h & Hok & Hs)], Hv2 as [Hv2 | (Hn2 & h2 & Hok2 & Hs2)].
  - left. congruence.
  - right. split; [congruence | eauto].
  - right. split; [done |]. exists h. split; [done | congruence].
  - congruence.
Qed.
#[global] Instance lazy_only_sharp B : SharpFrame (lazy_only B).
Proof. intros c w H. split; cbn; auto. Qed.
#[global] Instance lazy_only_vips B : VipsFrame (lazy_only B).
Proof. intros c w H Hc. split; cbn; auto. Qed.
#[global] Instance lazy_only_init B : InitFrame B (lazy_only B).
Proof.
  intros w. rewrite initVips_eq. unfold lazy_only.
  destruct (vips w) eqn:E; cbn; [split; auto |].
  destruct (Vips B) as [h |] eqn:Hok; cbn; (split; [done |]); [right; eauto | left; done].
Qed.

#[global] Instance keeps_handle_frame : Frame keeps_handle.
Proof.
  split; unfold keeps_handle; cbn; try by intuition.
  intros w1 w2 w3 H1 H2 h Hh. destruct (H1 h Hh) as [Hv Hn].
  destruct (H2 h Hv) as [Hv' Hn']. split; [done | congruence].
Qed.
#[global] Instance keeps_handle_sharp : SharpFrame keeps_handle.
Proof.
  intros c w H h Hh. split; [done |].
  change (trace (add_trace c w)) with (trace w ++ [c]).
  rewrite vips_inits_app, (vips_inits_other c); [lia | by apply not_vips_not_init].
Qed.
#[global] Instance keeps_handle_vips : VipsFrame keeps_handle.
Proof.
  intros c w H Hc h Hh. split; [done |].
  change (trace (add_trace c w)) with (trace w ++ [c]).
  rewrite vips_inits_app, (vips_inits_other c); [lia | done].
Qed.
#[global] Instance keeps_handle_init B : InitFrame B keeps_handle.
Proof.
  intros w h Hh. rewrite initVips_eq, Hh. done.
Qed.

#[global] Instance keeps_single_frame B : Frame (keeps_single B).
Proof. split; unfold keeps_single, single; cbn; by intuition. Qed.
#[global] Instance keeps_single_sharp B : SharpFrame (keeps_single B).
Proof.
  intros c w H. unfold keeps_single, single.
  change (trace (add_trace c w)) with (trace w ++ [c]).
  change (vips (add_trace c w)) with (vips w).
  rewrite vips_inits_app, (vips_inits_other c); [| by apply not_vips_not_init].
  by rewrite Nat.add_0_r.
Qed.
#[global] Instance keeps_single_vips B : VipsFrame (keeps_single B).
Proof.
  intros c w H Hc. unfold keeps_single, single.
  change (trace (add_trace c w)) with (trace w ++ [c]).
  change (vips (add_trace c w)) with (vips w).
  rewrite vips_inits_app, (vips_inits_other c); [| done].
  by rewrite Nat.add_0_r.
Qed.
#[global] Instance keeps_single_init B : InitFrame B (keeps_single B).
Proof.
  intros w. rewrite initVips_eq. unfold keeps_single, single.
  destruct (vips w) eqn:E; cbn [fst snd]; [by rewrite E |].
  destruct (Vips B) as [h |] eqn:Hok; cbn [fst snd vips trace set_vips add_console add_trace].
  - intros H0. split; [done |]. rewrite vips_inits_app, (H0 h eq_refl). done.
  - rewrite E. intros _ h Hh. discriminate Hh.
Qed.

#[global] Instance sharp_calls_only_frame : Frame sharp_calls_only.
Proof.
  split; unfold sharp_calls_only; cbn.
  - intros w. split; [done |]. exists []. by rewrite app_nil_r.
  - intros w1 w2 w3 [Hv1 (l1 & H1 & F1)] [Hv2 (l2 & H2 & F2)]. split; [congruence |].
    exists (l1 ++ l2). rewrite H2, H1, <- app_assoc, forallb_app, F1, F2. done.
  - intros f w. split; [done |]. exists []. by rewrite app_nil_r.
  - intros s w. split; [done |]. exists []. by rewrite app_nil_r.
Qed.
#[global] Instance sharp_calls_only_sharp : SharpFrame sharp_calls_only.
Proof.
  intros c w H. split; [done |]. exists [c]. cbn. unfold is_sharp_call. by rewrite H.
Qed.

#[global] Instance vips_calls_only_frame : Frame vips_calls_only.
Proof.
  split; unfold vips_calls_only; cbn.
  - intros w. exists []. by rewrite app_nil_r.
  - intros w1 w2 w3 (l1 & H1 & F1) (l2 & H2 & F2).
    exists (l1 ++ l2). rewrite H2, H1, <- app_assoc, forallb_app, F1, F2. done.
  - intros f w. exists []. by rewrite app_nil_r.
  - intros s w. exists []. by rewrite app_nil_r.
Qed.
#[global] Instance vips_calls_only_vips : VipsFrame vips_calls_only.
Proof. intros c w H Hc. exists [c]. cbn. by rewrite H. Qed.
#[global] Instance vips_calls_only_init B : InitFrame B vips_calls_only.
Proof.
  intros w. rewrite initVips_eq. unfold vips_calls_only.
  destruct (vips w) eqn:E; cbn.
  - exists []. by rewrite app_nil_r.
  - destruct (Vips B); cbn; by exists [CVipsInit].
Qed.

(* ===================================================================== *)
(** ** The handler as a whole                                             *)
(* ===================================================================== *)

Lemma CallTool_world B tool_name args w :
  snd (CallTool B tool_name args w) = snd (dispatch B tool_name args w).
Proof. unfold CallTool. by destruct (dispatch B tool_name args w) as [[r | e] w']. Qed.

Lemma CallTool_moves B R `{!Frame R} `{!SharpFrame R} `{!VipsFrame R} `{!InitFrame B R}
    tool_name args w :
  R w (snd (CallTool B tool_name args w)).
Proof.
  rewrite CallTool_world.
  by apply (sat_dispatch B (R := R) any (fun _ => I) tool_name args w).
Qed.

Lemma run_snoc B history ev w : run B (history ++ [ev]) w = after B (run B history w) ev.
Proof. unfold run. by rewrite fold_left_app. Qed.

(** An invariant of the handler's frame holds after any history. *)
Lemma run_invariant B (P : World -> Prop) :
  (forall f w, P w -> P (set_fs f w)) ->
  (forall tool_name args w, P w -> P (snd (CallTool B tool_name args w))) ->
  forall history w, P w -> P (run B history w).
Proof.
  intros Hfs Hcall history. induction history as [| ev rest IH]; intros w Hw; [done |].
  cbn. apply IH. destruct ev; cbn; auto.
Qed.

Lemma run_single B history f : single B (run B history (boot f)).
Proof.
  apply run_invariant; [by intros f' w | | by intros h].
  intros tool_name args w. apply (CallTool_moves B (keeps_single B)).
Qed.

Lemma single_loaded B w : single B w -> loaded B w.
Proof. unfold single, loaded. intros H h Hh. rewrite Hh in H. tauto. Qed.

Lemma CallTool_alike B tool_name args w1 w2 :
  akin B w1 w2 ->
  fst (CallTool B tool_name args w1) = fst (CallTool B tool_name args w2) /\
  akin B (snd (CallTool B tool_name args w1)) (snd (CallTool B tool_name args w2)).
Proof.
  intros H. destruct (rel_dispatch B tool_name args w1 w2 H) as [Hr Hs].
  unfold CallTool.
  destruct (dispatch B tool_name args w1) as [r1 w1'],
           (dispatch B tool_name args w2) as [r2 w2']. cbn in *. subst r2.
  by destruct r1.
Qed.

(** C3: an exception that leaves the [switch] is caught by the handler,
    which answers with the text "Error: " followed by the exception's message
    and the error flag set, in the world the exception left behind (nothing
    is run again); for a name that is no case label the exception is
    "Unknown tool: <name>" and the world is untouched. *)
Theorem CallTool_catches B tool_name args w e w'
    (Hthrow : dispatch B tool_name args w = (Throw e, w')) :
  CallTool B tool_name args w =
    ({| content := [ {| type := "text"; text := "Error: " +:+ exn_message e |} ];
        isError := Some true |}, w') /\
  (assoc tool_name (cases B) = None ->
   e = Error_ ("Unknown tool: " +:+ tool_name) /\ w' = w).
Proof.
  split.
  - unfold CallTool. by rewrite Hthrow.
  - intros Hnone. unfold dispatch in Hthrow. rewrite Hnone in Hthrow.
    by inversion Hthrow.
Qed.

(** C5: whatever the name and the arguments, the handler's answer holds
    exactly one content item, of type 'text'; the error flag is set exactly
    when the [switch] threw and absent exactly when it returned. *)
Theorem CallTool_textual B tool_name args w :
  let r := fst (CallTool B tool_name args w) in
  (exists s, content r = [ {| type := "text"; text := s |} ]) /\
  (isError r = Some true <-> exists e, fst (dispatch B tool_name args w) = Throw e) /\
  (isError r = None <-> exists r0, fst (dispatch B tool_name args w) = Ok r0).
Proof.
  pose proof (sat_dispatch B (R := anywhere) is_text
                (fun s => ex_intro _ s eq_refl) tool_name args w) as [_ Htext].
  unfold CallTool. destruct (dispatch B tool_name args w) as [[r | e] w1]; cbn in *.
  - destruct (Htext r eq_refl) as [s ->]. cbn.
    split; [by exists s |]. split; split; try done.
    + intros [e He]. discriminate He.
    + intros _. by eexists.
  - split; [by eexists |]. split; split; try done.
    + intros _. by eexists.
    + intros [r0 Hr0]. discriminate Hr0.
Qed.

(** C6: the tool listing returns the descriptor table of process start after
    any history of invocations, listings and filesystem changes, and no
    invocation changes the table. *)
Theorem tools_immutable B :
  (forall f history, fst (ListTools (run B history (boot f))) = tools_init) /\
  (forall tool_name args w, tools (snd (CallTool B tool_name args w)) = tools w).
Proof.
  assert (forall tool_name args w, tools (snd (CallTool B tool_name args w)) = tools w) as Hcall.
  { intros tool_name args w. by destruct (CallTool_moves B (lazy_only B) tool_name args w). }
  split; [| done].
  intros f history. cbn.
  apply (run_invariant B (fun w => tools w = tools_init)); [done | | done].
  intros tool_name args w Hw. by rewrite Hcall.
Qed.

(** C7: an invocation leaves the module-level bindings as they were, except
    that [vips] may go from null to the handle [Vips()] gave; and after any
    two histories that left the same files, the same request gets the same
    answer and leaves the same files. *)
Theorem CallTool_frame B :
  (forall tool_name args w, lazy_only B w (snd (CallTool B tool_name args w))) /\
  (forall f1 history1 f2 history2 tool_name args,
     let w1 := run B history1 (boot f1) in
     let w2 := run B history2 (boot f2) in
     fs w1 = fs w2 ->
     fst (CallTool B tool_name args w1) = fst (CallTool B tool_name args w2) /\
     fs (snd (CallTool B tool_name args w1)) = fs (snd (CallTool B tool_name args w2))).
Proof.
  split.
  - intros tool_name args w. apply (CallTool_moves B (lazy_only B)).
  - intros f1 history1 f2 history2 tool_name args w1 w2 Hfs.
    assert (akin B w1 w2) as Hakin.
    { split; [done |]. right. split; apply single_loaded, run_single. }
    destruct (CallTool_alike B tool_name args w1 w2 Hakin) as [Hr [Hf _]]. done.
Qed.


Lemma dispatch_case B tool_name body args :
  assoc tool_name (cases B) = Some body -> dispatch B tool_name args = body args.
Proof. intros H. unfold dispatch. by rewrite H. Qed.

Lemma assoc_Forall {A} (P : string * A -> Prop) (l : list (string * A)) k x :
  Forall P l -> assoc k l = Some x -> P (k, x).
Proof.
  induction 1 as [| [k' y] rest Hy _ IH]; cbn; [done |].
  destruct (String.eqb_spec k k') as [-> | Hne]; [by intros [= <-] | done].
Qed.

(** Evaluates the statements of a case up to its existence checks. *)
Ltac run_checks :=
  unfold bind, destructure, unless_exists, existsSync, ret, throw; cbn.

Lemma missing_input_throws B :
  Forall (fun entry => forall a w k what,
            first_missing (fs w) a (input_params (fst entry)) = Some (k, what) ->
            snd entry (Some a) w =
              (Throw (Error_ (what +:+ " not found: " +:+ show (prop a k))), w))
         (cases B).
Proof.
  unfold cases.
  each_entry ltac:(
    cbn [fst snd]; intros a w k what; cbn [input_params String.eqb Ascii.eqb Bool.eqb];
    cbn;
    repeat match goal with
           | |- context [match prop a ?key with _ => _ end] =>
               let E := fresh "E" in destruct (prop a key) eqn:E
           | |- context [if path_exists ?f ?s then _ else _] =>
               let E := fresh "E" in destruct (path_exists f s) eqn:E
           end;
    intros H; try discriminate H; injection H as <- <-;
    autounfold with cases_db; run_checks;
    repeat match goal with
           | E : prop a _ = _ |- _ => rewrite E; cbn
           | E : path_exists _ _ = _ |- _ => rewrite E; cbn
           end;
    reflexivity).
Qed.

(** C8: when a path an operation reads does not exist, the handler answers
    with the error naming that parameter's value, and the world is exactly
    as before: no directory made, no file written, no library called. *)
Theorem missing_input_rejected B tool_name body a w k what
    (Hcase : assoc tool_name (cases B) = Some body)
    (Hmiss : first_missing (fs w) a (input_params tool_name) = Some (k, what)) :
  CallTool B tool_name (Some a) w =
    ({| content := [ {| type := "text";
                        text := "Error: " +:+ what +:+ " not found: " +:+ show (prop a k) |} ];
        isError := Some true |}, w).
Proof.
  pose proof (assoc_Forall _ _ _ _ (missing_input_throws B) Hcase a w k what Hmiss) as H.
  cbn [snd] in H. unfold CallTool. by rewrite (dispatch_case _ _ _ _ Hcase), H.
Qed.

Lemma bind_ok {A C} (m : M A) (k : A -> M C) w a w1 :
  m w = (Ok a, w1) -> bind m k w = k a w1.
Proof. intros H. unfold bind. by rewrite H. Qed.

Lemma bind_throw {A C} (m : M A) (k : A -> M C) w e w1 :
  m w = (Throw e, w1) -> bind m k w = (Throw e, w1).
Proof. intros H. unfold bind. by rewrite H. Qed.

Lemma unless_exists_ok what s w :
  path_exists (fs w) s = true -> unless_exists what (JStr s) w = (Ok tt, w).
Proof. intros H. unfold unless_exists, bind, existsSync. cbn. by rewrite H. Qed.

Lemma ensureDirectoryExists_string B s w :
  ensureDirectoryExists B (JStr s) w = (Ok tt, snd (ensureDirectoryExists B (JStr s) w)).
Proof.
  unfold ensureDirectoryExists, path_dirname, bind, try_catch, ret. cbn -[mkdir].
  destruct (mkdir B (dirname s) w) as [[[] | e] w1]; done.
Qed.

Lemma ensureDirectoryExists_inv B p w w1 :
  ensureDirectoryExists B p w = (Ok tt, w1) -> exists s, p = JStr s.
Proof. destruct p; try discriminate. eauto. Qed.

Lemma toFile_ok B p out w bytes :
  sharp_toFile B (fs w) p out = Ok bytes ->
  toFile B p (JStr out) w =
    (Ok tt, set_fs (write_file (fs w) out bytes) (add_trace (CSharpToFile p out) w)).
Proof. intros H. unfold toFile, bind, modify, get_world, lift. cbn. by rewrite H. Qed.

Lemma toFile_throw B p out w e :
  sharp_toFile B (fs w) p out = Throw e ->
  toFile B p (JStr out) w = (Throw e, add_trace (CSharpToFile p out) w).
Proof. intros H. unfold toFile, bind, modify, get_world, lift. cbn. by rewrite H. Qed.

Lemma str_is_none (v : JValue) (labels : list string) :
  forallb (fun l => negb (str_is v l)) labels = true ->
  forall l, In l labels -> str_is v l = false.
Proof.
  intros H l Hl. rewrite forallb_forall in H. specialize (H l Hl).
  by destruct (str_is v l).
Qed.


Lemma bind_inv_ok {A C} (m : M A) (k : A -> M C) w c w2 :
  bind m k w = (Ok c, w2) -> exists a w1, m w = (Ok a, w1) /\ k a w1 = (Ok c, w2).
Proof.
  unfold bind. destruct (m w) as [[a | e] w1]; [eauto | discriminate].
Qed.

Lemma unless_exists_inv what p w w1 :
  unless_exists what p w = (Ok tt, w1) -> w1 = w.
Proof.
  unfold unless_exists, bind, existsSync. cbn.
  destruct (negb _); cbn; [discriminate | by intros [= <-]].
Qed.

(** What the common prefix of a case amounts to, for an operation with one
    input and, resp., with and without an output. *)
Lemma prechecks_in_out B tool_name k a w w1 :
  input_params tool_name = [("input_path", "Input image")] ->
  output_param tool_name = Some k ->
  prechecks B tool_name a w = (Ok tt, w1) ->
  unless_exists "Input image" (prop a "input_path") w = (Ok tt, w) /\
  ensureDirectoryExists B (prop a k) w = (Ok tt, w1).
Proof.
  intros Hi Ho. unfold prechecks. rewrite Hi, Ho. intros H.
  apply bind_inv_ok in H as ([] & w0 & H1 & H2).
  apply bind_inv_ok in H1 as ([] & w0' & H1 & H3).
  pose proof (unless_exists_inv _ _ _ _ H1) as ->.
  cbn in H3. injection H3 as <-. done.
Qed.

Lemma prechecks_in B tool_name a w w1 :
  input_params tool_name = [("input_path", "Input image")] ->
  output_param tool_name = None ->
  prechecks B tool_name a w = (Ok tt, w1) ->
  unless_exists "Input image" (prop a "input_path") w = (Ok tt, w) /\ w1 = w.
Proof.
  intros Hi Ho. unfold prechecks. rewrite Hi, Ho. intros H.
  apply bind_inv_ok in H as ([] & w0 & H1 & H2).
  apply bind_inv_ok in H1 as ([] & w0' & H1 & H3).
  pose proof (unless_exists_inv _ _ _ _ H1) as ->.
  cbn in H3, H2. injection H3 as <-. injection H2 as <-. done.
Qed.

Ltac use_prechecks H :=
  first
    [ apply prechecks_in_out with (k := "output_path") in H as [? ?]; [| reflexivity ..]
    | apply prechecks_in in H as [? ->]; [| reflexivity ..] ].

Lemma two_backend_shape B :
  Forall (fun entry => forall a w w1,
            prechecks B (fst entry) a w = (Ok tt, w1) ->
            dispatch B (fst entry) (Some a) w =
              try_catch (fst (snd entry) a) (snd (snd entry) a) w1)
         (two_backend_cases B).
Proof.
  unfold two_backend_cases.
  each_entry ltac:(
    cbn [fst snd]; intros a w w1 H; use_prechecks H;
    erewrite dispatch_case by reflexivity;
    autounfold with cases_db;
    erewrite bind_ok by reflexivity; cbv beta zeta;
    erewrite bind_ok by eassumption;
    try (erewrite bind_ok by eassumption);
    reflexivity).
Qed.

Lemma single_backend_sharp_only B :
  Forall (fun entry => single_backend B (fst entry) = true ->
                       forall args w, sharp_calls_only w (snd (snd entry args w)))
         (cases B).
Proof.
  pose proof (sat_single_backend_cases B (R := sharp_calls_only) any (fun _ => I)) as H.
  eapply Forall_impl; [exact H |].
  intros entry He Hs args w. apply (He Hs args w).
Qed.

(** C1, amended: it is the eleven operations with a wasm-vips block that
    run it in a try/catch and, when it throws, run the sharp block in its
    place; past the existence check and the output directory step such a
    call fails only when both blocks throw, and each block calls its own
    library only.  The other nineteen operations call sharp only. *)
Theorem two_backend_fallback B tool_name vips_block sharp_block a w w1
    (Hcase : assoc tool_name (two_backend_cases B) = Some (vips_block, sharp_block))
    (Hpre : prechecks B tool_name a w = (Ok tt, w1)) :
  CallTool B tool_name (Some a) w =
    match vips_block a w1 with
    | (Ok r, w2) => (r, w2)
    | (Throw e, w2) =>
        match sharp_block a e w2 with
        | (Ok r, w3) => (r, w3)
        | (Throw e', w3) => (error_response e', w3)
        end
    end /\
  vips_calls_only w1 (snd (vips_block a w1)) /\
  (forall e w2, sharp_calls_only w2 (snd (sharp_block a e w2))) /\
  (forall other body args w',
     single_backend B other = true -> assoc other (cases B) = Some body ->
     sharp_calls_only w' (snd (body args w'))).
Proof.
  split; [| split; [| split]].
  - pose proof (assoc_Forall _ _ _ _ (two_backend_shape B) Hcase a w w1 Hpre) as H.
    cbn [fst snd] in H. unfold CallTool. rewrite H. unfold try_catch.
    destruct (vips_block a w1) as [[r | e] w2]; [done |].
    by destruct (sharp_block a e w2) as [[r | e'] w3].
  - pose proof (assoc_Forall _ _ _ _
                  (sat_vips_blocks B (R := vips_calls_only) any (fun _ => I)) Hcase a w1) as [H _].
    done.
  - intros e w2.
    pose proof (assoc_Forall _ _ _ _
                  (sat_sharp_blocks B (R := sharp_calls_only) any (fun _ => I)) Hcase a e w2)
      as [H _].
    done.
  - intros other body args w' Hs Hb.
    apply (assoc_Forall _ _ _ _ (single_backend_sharp_only B) Hb Hs).
Qed.

Lemma toFile_wrote B p out w bytes :
  sharp_toFile B (fs w) p out = Ok bytes ->
  toFile B p (JStr out) w = (Ok tt, wrote p out bytes w).
Proof. apply toFile_ok. Qed.








(* ===================================================================== *)
(** ** No argument is checked against its schema                          *)
(* ===================================================================== *)

#[global] Instance extends_frame : Frame extends.
Proof.
  split; unfold extends; cbn.
  - intros w. exists []. by rewrite app_nil_r.
  - intros w1 w2 w3 [l1 H1] [l2 H2]. exists (l1 ++ l2). by rewrite H2, H1, <- app_assoc.
  - intros f w. exists []. by rewrite app_nil_r.
  - intros s w. exists []. by rewrite app_nil_r.
Qed.
#[global] Instance extends_sharp : SharpFrame extends.
Proof. intros c w H. by exists [c]. Qed.
#[global] Instance extends_vips : VipsFrame extends.
Proof. intros c w H Hc. by exists [c]. Qed.
#[global] Instance extends_init B : InitFrame B extends.
Proof.
  intros w. rewrite initVips_eq. unfold extends.
  destruct (vips w); cbn; [exists []; by rewrite app_nil_r |].
  destruct (Vips B); cbn; by exists [CVipsInit].
Qed.

Lemma reaches_extends w w1 w2 :
  reaches_backend w w1 -> extends w1 w2 -> reaches_backend w w2.
Proof.
  intros (c & l & H1) [l2 H2]. exists c, (l ++ l2).
  by rewrite H2, H1, <- app_assoc.
Qed.

Lemma extends_reaches w w1 w2 :
  extends w w1 -> reaches_backend w1 w2 -> reaches_backend w w2.
Proof.
  intros [l1 H1] (c & l & H2). destruct l1 as [| c1 l1].
  - exists c, l. rewrite H2, H1. by rewrite app_nil_r.
  - exists c1, (l1 ++ c :: l). rewrite H2, H1. by rewrite <- app_assoc.
Qed.

Lemma reach_bind_first {A C} (m : M A) (k : A -> M C) w :
  reaches_backend w (snd (m w)) -> (forall a, sat extends any (k a)) ->
  reaches_backend w (snd (bind m k w)).
Proof.
  intros Hm Hk. unfold bind. destruct (m w) as [[a | e] w1]; cbn in *; [| done].
  eapply reaches_extends; [exact Hm | apply Hk].
Qed.

Lemma reach_bind_skip {A C} (m : M A) (k : A -> M C) w a w1 :
  m w = (Ok a, w1) -> extends w w1 -> reaches_backend w1 (snd (k a w1)) ->
  reaches_backend w (snd (bind m k w)).
Proof.
  intros Hm He Hk. rewrite (bind_ok _ _ _ _ _ Hm). by eapply extends_reaches.
Qed.

Lemma reach_try {A} (body : M A) (handler : exn -> M A) w :
  reaches_backend w (snd (body w)) -> (forall e, sat extends any (handler e)) ->
  reaches_backend w (snd (try_catch body handler w)).
Proof.
  intros Hb Hh. unfold try_catch. destruct (body w) as [[a | e] w1]; cbn in *; [done |].
  eapply reaches_extends; [exact Hb | apply Hh].
Qed.

Lemma reach_try_handler {A} (body : M A) (handler : exn -> M A) w e w1 :
  body w = (Throw e, w1) -> extends w w1 -> reaches_backend w1 (snd (handler e w1)) ->
  reaches_backend w (snd (try_catch body handler w)).
Proof.
  intros Hb He Hh. unfold try_catch. rewrite Hb. by eapply extends_reaches.
Qed.

Lemma reach_toFile B p out w : reaches_backend w (snd (toFile B p (JStr out) w)).
Proof.
  unfold toFile, bind, modify, get_world, lift. cbn.
  destruct (sharp_toFile B _ p out); cbn; by exists (CSharpToFile p out), [].
Qed.

Lemma reach_metadata B input w : reaches_backend w (snd (metadata B input w)).
Proof.
  unfold metadata, bind, modify, get_world, lift. cbn.
  by exists (CSharpMetadata input), [].
Qed.

Lemma reach_stats B input w : reaches_backend w (snd (stats B input w)).
Proof.
  unfold stats, bind, modify, get_world, lift. cbn.
  by exists (CSharpStats input), [].
Qed.

Lemma reach_vips_Image_new B method args w h :
  vips w = Some h -> reaches_backend w (snd (vips_Image_new B method args w)).
Proof.
  intros Hh. unfold vips_Image_new, vips_Image, bind, modify, get_world. cbn. rewrite Hh. cbn.
  destruct (vips_new B h _ method args); cbn; by exists (CVipsNew method args), [].
Qed.

Lemma reach_initVips B w : vips w = None -> reaches_backend w (snd (initVips B w)).
Proof.
  intros Hn. rewrite initVips_eq, Hn. destruct (Vips B); cbn; by exists CVipsInit, [].
Qed.

Lemma console_log_eq s w : console_log s w = (Ok tt, add_console s w).
Proof. done. Qed.

Lemma extends_console s w : extends w (add_console s w).
Proof. exists []. by rewrite app_nil_r. Qed.

Lemma extends_refl w : extends w w.
Proof. exists []. by rewrite app_nil_r. Qed.

Lemma Array_length_pure v w : Array_length v w = (fst (Array_length v w), w).
Proof.
  destruct v as [| | |[|q]| | | |]; try done. cbn. by destruct (_ && _).
Qed.

Lemma replace_hash_pure what v w : replace_hash what v w = (fst (replace_hash what v w), w).
Proof. by destruct v. Qed.

Lemma ensureDirectoryExists_trace B p w :
  trace (snd (ensureDirectoryExists B p w)) = trace w.
Proof.
  destruct p; try done.
  unfold ensureDirectoryExists, path_dirname, bind, try_catch, ret, mkdir, get_world,
    modify, throw. cbn.
  by destruct (_ && _).
Qed.

(** What passing the prechecks tells: every input exists, the output
    parameter is a string, the trace is as it was. *)
Lemma all_exist_inv a ps w w1 :
  all_exist a ps w = (Ok tt, w1) ->
  w1 = w /\ Forall (fun p => unless_exists (snd p) (prop a (fst p)) w = (Ok tt, w)) ps.
Proof.
  induction ps as [| [k what] rest IH]; cbn [all_exist].
  - by intros [= <-].
  - intros H. apply bind_inv_ok in H as ([] & w0 & H1 & H2).
    pose proof (unless_exists_inv _ _ _ _ H1) as ->.
    destruct (IH H2) as [-> Hrest]. split; [done |]. by constructor.
Qed.

Lemma prechecks_inv B tool_name a w w1 :
  prechecks B tool_name a w = (Ok tt, w1) ->
  Forall (fun p => unless_exists (snd p) (prop a (fst p)) w = (Ok tt, w))
         (input_params tool_name) /\
  trace w1 = trace w /\
  match output_param tool_name with
  | Some k => exists out, prop a k = JStr out /\
                          ensureDirectoryExists B (JStr out) w = (Ok tt, w1)
  | None => w1 = w
  end.
Proof.
  unfold prechecks. intros H. apply bind_inv_ok in H as ([] & w0 & H1 & H2).
  destruct (all_exist_inv _ _ _ _ H1) as [-> Hall]. split; [done |].
  destruct (output_param tool_name) as [k |].
  - destruct (ensureDirectoryExists_inv _ _ _ _ H2) as [out Hout]. rewrite Hout in H2.
    split; [| by exists out].
    pose proof (ensureDirectoryExists_trace B (JStr out) w) as Ht. by rewrite H2 in Ht.
  - cbn in H2. by injection H2 as <-.
Qed.

Lemma same_trace_extends w w1 : trace w1 = trace w -> extends w w1.
Proof. intros H. exists []. by rewrite app_nil_r. Qed.

Lemma console_warn_eq s w : console_warn s w = (Ok tt, add_console s w).
Proof. done. Qed.

Ltac compute_params H :=
  repeat match type of H with
         | context [input_params ?n] =>
             let v := eval vm_compute in (input_params n) in
             change (input_params n) with v in H
         | context [output_param ?n] =>
             let v := eval vm_compute in (output_param n) in
             change (output_param n) with v in H
         end.

Ltac sat_rest := intros; autounfold with blocks_db; sat_walk ltac:(apply sat_pyramid_loop).

(** The first library call of what remains of a case after its prechecks. *)
Ltac reach_go :=
  repeat first
    [ apply reach_toFile | apply reach_metadata | apply reach_stats
    | apply reach_bind_first; [ | solve [sat_rest] ]
    | apply reach_try; [ | solve [sat_rest] ] ].

(** A block that starts [initVips; console.log(...)] with the handle set. *)
Ltac skip_init Hv :=
  eapply reach_bind_skip;
    [ rewrite initVips_eq, Hv; reflexivity | apply extends_refl | ];
  eapply reach_bind_skip; [ apply console_log_eq | apply extends_console | ].

(** A block whose first statement after the banner is pure and may throw:
    either it returns and the block goes on, or the handler takes over. *)
Lemma reach_block_pure {A C} B s (m : M A) (k : A -> M C) (handler : exn -> M C) w h :
  vips w = Some h ->
  (forall w', m w' = (fst (m w'), w')) ->
  (forall a w', vips w' = Some h -> reaches_backend w' (snd (k a w'))) ->
  (forall e, sat extends any (handler e)) ->
  (forall e w', reaches_backend w' (snd (handler e w'))) ->
  reaches_backend w
    (snd (try_catch (bind (initVips B) (fun _ => bind (console_log s) (fun _ => bind m k)))
                    handler w)).
Proof.
  intros Hv Hpure Hk Hsat Hh.
  assert (extends w (add_console s w)) as Hext by apply extends_console.
  destruct (fst (m (add_console s w))) as [x | e] eqn:E.
  - apply reach_try; [| done].
    erewrite bind_ok by (rewrite initVips_eq, Hv; reflexivity).
    erewrite bind_ok by apply console_log_eq.
    erewrite bind_ok by (rewrite Hpure, E; reflexivity).
    eapply extends_reaches; [exact Hext | by apply Hk].
  - eapply reach_try_handler; [| exact Hext | apply Hh].
    erewrite bind_ok by (rewrite initVips_eq, Hv; reflexivity).
    erewrite bind_ok by apply console_log_eq.
    erewrite bind_throw by (rewrite Hpure, E; reflexivity).
    reflexivity.
Qed.

Ltac two_backend_reach Hprop :=
  let Hv := fresh "Hv" in
  let h := fresh "h" in
  lazymatch goal with
  | |- reaches_backend _ (snd (try_catch _ _ ?w1)) => destruct (vips w1) as [h |] eqn:Hv
  end;
  [ autounfold with blocks_db; cbv zeta;
    first
      [ (* the block's first statement after the banner is a library call *)
        apply reach_try; [ | solve [sat_rest] ];
        skip_init Hv;
        apply reach_bind_first; [ | solve [sat_rest] ];
        by apply reach_vips_Image_new with h
      | (* or a pure statement that may throw, with the sharp block behind it *)
        apply reach_block_pure with h;
        [ exact Hv
        | first [ apply Array_length_pure | apply replace_hash_pure ]
        | intros ? w' Hv'; apply reach_bind_first; [ | solve [sat_rest] ];
          by apply reach_vips_Image_new with h
        | solve [sat_rest]
        | intros e w'; try rewrite Hprop;
          eapply reach_bind_skip; [ apply console_warn_eq | apply extends_console | ];
          apply reach_bind_first; [ | solve [sat_rest] ];
          first [ apply reach_toFile | apply reach_metadata ] ] ]
  | apply reach_try; [ | solve [sat_rest] ];
    autounfold with blocks_db; cbv zeta;
    apply reach_bind_first; [ by apply reach_initVips | solve [sat_rest] ] ].

Lemma cases_reach B :
  Forall (fun entry => fst entry <> "create_solid_color" -> forall a w w1,
            prechecks B (fst entry) a w = (Ok tt, w1) ->
            reaches_backend w (snd (snd entry (Some a) w)))
         (cases B).
Proof.
  unfold cases.
  each_entry ltac:(
    cbn [fst snd]; intros Hne a w w1 H; first [ done | idtac ];
    apply prechecks_inv in H as (Hall & Ht & Hout);
    compute_params Hall; compute_params Hout; cbn beta iota in Hout;
    repeat match goal with
           | H : Forall _ (_ :: _) |- _ => inversion_clear H
           | H : Forall _ [] |- _ => clear H
           end;
    cbn [fst snd] in *;
    try (destruct Hout as (out & Hprop & Hens));
    try subst w1;
    autounfold with cases_db;
    erewrite bind_ok by reflexivity; cbv beta zeta;
    repeat (erewrite bind_ok by eassumption);
    try (rewrite Hprop; erewrite bind_ok by eassumption);
    try (apply extends_reaches with w1; [by apply same_trace_extends |]);
    first [ solve [reach_go] | solve [two_backend_reach Hprop] | solve [two_backend_reach I] ]).
Qed.

(** C2, amended: no argument is validated against the declared schema.  The
    descriptor table is never consulted by an invocation (the answer and the
    files are the same whatever the table holds), and a request that names a
    case, carries an argument bag, and passes the existence checks and the
    output directory step reaches an image library whatever else its
    arguments hold (create_solid_color apart, which first needs its colour
    to be a string). *)
Theorem no_schema_validation B :
  (forall t tool_name args w,
     fst (CallTool B tool_name args (set_tools t w)) = fst (CallTool B tool_name args w) /\
     fs (snd (CallTool B tool_name args (set_tools t w))) =
       fs (snd (CallTool B tool_name args w))) /\
  (forall tool_name body a w w1,
     assoc tool_name (cases B) = Some body ->
     tool_name <> "create_solid_color" ->
     prechecks B tool_name a w = (Ok tt, w1) ->
     reaches_backend w (snd (CallTool B tool_name (Some a) w))).
Proof.
  split.
  - intros t tool_name args w.
    assert (akin B (set_tools t w) w) as Hakin by (split; [done | by left]).
    destruct (CallTool_alike B tool_name args _ _ Hakin) as [Hr [Hf _]]. done.
  - intros tool_name body a w w1 Hcase Hne Hpre.
    rewrite CallTool_world, (dispatch_case _ _ _ _ Hcase).
    apply (assoc_Forall _ _ _ _ (cases_reach B) Hcase Hne a w w1 Hpre).
Qed.

(* ===================================================================== *)
(** ** The theorems at work, and three counterexamples                    *)
(* ===================================================================== *)

(** sharp cannot decode the scan; the invocation fails without wasm-vips
    ever being called, although it loads and would open the file. *)
Lemma resize_fails_without_fallback :
  let out := CallTool Demo.libs "image_resize" (Some Demo.resize_scan) (boot Demo.disk) in
  isError (fst out) = Some true /\
  text <$> content (fst out) = ["Error: Input file contains unsupported image format"] /\
  List.filter is_vips_call (trace (snd out)) = [] /\
  vips (snd out) = None /\
  Vips Demo.libs = Ok 1%nat /\
  vips_new Demo.libs 1%nat (fs (snd out)) "newFromFile" [AVal (JStr "/in/scan.jxl")] = None.
Proof. vm_compute. repeat split; reflexivity. Qed.

Lemma two_backend_fallback_witness :
  let B := Demo.libs_without_wasm in
  let w1 := snd (prechecks B "image_fft" Demo.fft_photo (boot Demo.disk)) in
  assoc "image_fft" (two_backend_cases B) = Some (image_fft_vips B, image_fft_sharp B) /\
  prechecks B "image_fft" Demo.fft_photo (boot Demo.disk) = (Ok tt, w1) /\
  fst (CallTool B "image_fft" (Some Demo.fft_photo) (boot Demo.disk)) =
    text_content "⚡ Edge enhancement applied (FFT fallback): /out/f.png".
Proof.
  intros B w1.
  assert (assoc "image_fft" (two_backend_cases B) = Some (image_fft_vips B, image_fft_sharp B))
    as Hcase by reflexivity.
  assert (prechecks B "image_fft" Demo.fft_photo (boot Demo.disk) = (Ok tt, w1))
    as Hpre by (vm_compute; reflexivity).
  split; [exact Hcase |]. split; [exact Hpre |].
  rewrite (proj1 (two_backend_fallback B "image_fft" _ _ Demo.fft_photo (boot Demo.disk) w1
                    Hcase Hpre)).
  vm_compute. reflexivity.
Defined.

(** The contrast 5 is above the declared maximum 3.0; the request is
    answered as a success and sharp receives 5 as given. *)
Lemma contrast_out_of_bounds_reaches_sharp :
  let out := CallTool Demo.libs "image_adjust_contrast" (Some Demo.contrast_five)
               (boot Demo.disk) in
  (fun t => schema_valid t (Some Demo.contrast_five)) <$> find_tool "image_adjust_contrast" =
    Some false /\
  fst out = text_content "Image contrast adjusted by 5: /out/b.png" /\
  trace (snd out) =
    [CSharpToFile
       (call (sharp (JStr "/in/photo.jpg")) "linear" [AVal (num 5); AVal (num (-512))])
       "/out/b.png"].
Proof. vm_compute. repeat split; reflexivity. Qed.

Lemma no_schema_validation_witness :
  let B := Demo.libs in
  let w := boot Demo.disk in
  assoc "image_adjust_contrast" (cases B) = Some (case_image_adjust_contrast B) /\
  "image_adjust_contrast" <> "create_solid_color" /\
  prechecks B "image_adjust_contrast" Demo.contrast_five w =
    (Ok tt, snd (prechecks B "image_adjust_contrast" Demo.contrast_five w)) /\
  reaches_backend w (snd (CallTool B "image_adjust_contrast" (Some Demo.contrast_five) w)).
Proof.
  intros B w.
  assert (assoc "image_adjust_contrast" (cases B) = Some (case_image_adjust_contrast B))
    as Hcase by reflexivity.
  assert ("image_adjust_contrast" <> "create_solid_color") as Hne by discriminate.
  assert (prechecks B "image_adjust_contrast" Demo.contrast_five w =
          (Ok tt, snd (prechecks B "image_adjust_contrast" Demo.contrast_five w)))
    as Hpre by (vm_compute; reflexivity).
  split; [exact Hcase |]. split; [exact Hne |]. split; [exact Hpre |].
  exact (proj2 (no_schema_validation B) _ _ _ _ _ Hcase Hne Hpre).
Defined.

Lemma CallTool_catches_witness :
  let B := Demo.libs in
  let w := boot Demo.disk in
  let e := Error_ "Input file contains unsupported image format" in
  dispatch B "image_resize" (Some Demo.resize_scan) w =
    (Throw e, snd (dispatch B "image_resize" (Some Demo.resize_scan) w)) /\
  fst (CallTool B "image_resize" (Some Demo.resize_scan) w) =
    {| content := [ {| type := "text";
                       text := "Error: Input file contains unsupported image format" |} ];
       isError := Some true |}.
Proof.
  intros B w e.
  assert (dispatch B "image_resize" (Some Demo.resize_scan) w =
          (Throw e, snd (dispatch B "image_resize" (Some Demo.resize_scan) w)))
    as Hthrow by (vm_compute; reflexivity).
  split; [exact Hthrow |].
  rewrite (proj1 (CallTool_catches B _ _ _ _ _ Hthrow)). reflexivity.
Defined.


Lemma CallTool_textual_witness :
  let r := fst (CallTool Demo.libs "image_rotate_3d" None (boot Demo.disk)) in
  (exists s, content r = [ {| type := "text"; text := s |} ]) /\ isError r = Some true.
Proof.
  intros r.
  destruct (CallTool_textual Demo.libs "image_rotate_3d" None (boot Demo.disk))
    as (Htext & Herr & _).
  split; [exact Htext |].
  apply Herr. exists (Error_ "Unknown tool: image_rotate_3d"). reflexivity.
Defined.

Lemma CallTool_frame_witness :
  let B := Demo.libs in
  let w1 := run B [] (boot Demo.disk) in
  let w2 := run B [EvCall "image_advanced_stats" (Some Demo.stats_photo)] (boot Demo.disk) in
  fs w1 = fs w2 /\
  vips w1 <> vips w2 /\
  fst (CallTool B "image_fft" (Some Demo.fft_photo) w1) =
    fst (CallTool B "image_fft" (Some Demo.fft_photo) w2).
Proof.
  intros B w1 w2.
  assert (fs w1 = fs w2) as Hfs by (vm_compute; reflexivity).
  split; [exact Hfs |]. split; [vm_compute; discriminate |].
  exact (proj1 (proj2 (CallTool_frame B) Demo.disk []
                  Demo.disk [EvCall "image_advanced_stats" (Some Demo.stats_photo)]
                  "image_fft" (Some Demo.fft_photo) Hfs)).
Defined.

Lemma missing_input_rejected_witness :
  let B := Demo.libs in
  let w := boot Demo.disk in
  assoc "image_crop" (cases B) = Some (case_image_crop B) /\
  first_missing (fs w) Demo.crop_missing (input_params "image_crop") =
    Some ("input_path", "Input image") /\
  CallTool B "image_crop" (Some Demo.crop_missing) w =
    ({| content := [ {| type := "text";
                        text := "Error: Input image not found: /in/missing.png" |} ];
        isError := Some true |}, w).
Proof.
  intros B w.
  assert (assoc "image_crop" (cases B) = Some (case_image_crop B)) as Hcase by reflexivity.
  assert (first_missing (fs w) Demo.crop_missing (input_params "image_crop") =
          Some ("input_path", "Input image")) as Hmiss by (vm_compute; reflexivity).
  split; [exact Hcase |]. split; [exact Hmiss |].
  rewrite (missing_input_rejected B _ _ _ _ _ _ Hcase Hmiss). reflexivity.
Defined.




(* ===================================================================== *)
(** ** The footprint of the handler on the filesystem                     *)
(* ===================================================================== *)

Section Footprint.

Variable B : Backends.

Context {R : World -> World -> Prop} `{!Calm R}.

Lemma moves_pure {A} (m : M A) : (forall w, snd (m w) = w) -> moves R m.
Proof. intros H w. rewrite H. apply calm_refl. Qed.

Lemma moves_ret {A} (a : A) : moves R (ret a).
Proof. by apply moves_pure. Qed.

Lemma moves_throw {A} (e : exn) : moves R (throw (A := A) e).
Proof. by apply moves_pure. Qed.

Lemma moves_lift {A} (r : Result A) : moves R (lift r).
Proof. by apply moves_pure. Qed.

Lemma moves_bind {A C} (m : M A) (k : A -> M C) :
  moves R m -> (forall a, moves R (k a)) -> moves R (bind m k).
Proof.
  intros Hm Hk w. specialize (Hm w). unfold bind.
  destruct (m w) as [[a | e] w1]; cbn in *; [| done].
  eapply calm_trans; [exact Hm | apply Hk].
Qed.

(** The bag of the request is the one the case goes on with. *)
Lemma moves_bind_ret {A C} (a : A) (k : A -> M C) : moves R (k a) -> moves R (bind (ret a) k).
Proof. intros H w. exact (H w). Qed.

Lemma moves_try {A} (body : M A) (handler : exn -> M A) :
  moves R body -> (forall e, moves R (handler e)) -> moves R (try_catch body handler).
Proof.
  intros Hb Hh w. specialize (Hb w). unfold try_catch.
  destruct (body w) as [[a | e] w1]; cbn in *; [done |].
  eapply calm_trans; [exact Hb | apply Hh].
Qed.

Lemma moves_console_log `{!Logs R} s : moves R (console_log s).
Proof. intros w. by apply logs. Qed.

Lemma moves_console_warn `{!Logs R} s : moves R (console_warn s).
Proof. intros w. by apply logs. Qed.

Lemma moves_unless_exists what p : moves R (unless_exists what p).
Proof.
  apply moves_pure. intros w. unfold unless_exists, bind, existsSync. cbn.
  by destruct (negb _).
Qed.

Lemma moves_path_dirname p : moves R (path_dirname p).
Proof. apply moves_pure. intros w. by destruct p. Qed.

Lemma moves_statSync_size p : moves R (statSync_size B p).
Proof.
  apply moves_pure. intros w. unfold statSync_size, bind, get_world. cbn.
  destruct p; try done. destruct (files (fs w) !! s); [done |].
  by destruct (bool_decide _).
Qed.

Lemma moves_replace_hash what v : moves R (replace_hash what v).
Proof. apply moves_pure. intros w. by destruct v. Qed.

Lemma moves_js_length v : moves R (js_length v).
Proof. apply moves_pure. intros w. by destruct v. Qed.

Lemma moves_js_index v i : moves R (js_index v i).
Proof. apply moves_pure. intros w. by destruct v. Qed.

Lemma moves_js_flat what v : moves R (js_flat what v).
Proof. apply moves_pure. intros w. by destruct v. Qed.

Lemma moves_js_map what f v : moves R (js_map what f v).
Proof. apply moves_pure. intros w. by destruct v. Qed.

Lemma moves_js_includes what v s : moves R (js_includes what v s).
Proof. apply moves_pure. intros w. by destruct v. Qed.

Lemma moves_destructure4 what v : moves R (destructure4 what v).
Proof. apply moves_pure. intros w. by destruct v. Qed.

Lemma moves_Array_length v : moves R (Array_length v).
Proof. apply moves_pure. intros w. by rewrite Array_length_pure. Qed.

Lemma moves_metadata input : moves R (metadata B input).
Proof.
  intros w. unfold metadata, bind, modify, get_world, lift. cbn. apply calm_trace.
Qed.

Lemma moves_stats input : moves R (stats B input).
Proof.
  intros w. unfold stats, bind, modify, get_world, lift. cbn. apply calm_trace.
Qed.

Lemma moves_initVips `{!Logs R} : moves R (initVips B).
Proof.
  intros w. rewrite initVips_eq. destruct (vips w); [apply calm_refl |].
  destruct (Vips B); cbn; [| apply calm_trace].
  eapply calm_trans; [apply calm_trace |].
  eapply calm_trans; [apply calm_vips | by apply logs].
Qed.

Lemma moves_vips_Image_new method args : moves R (vips_Image_new B method args).
Proof.
  intros w. unfold vips_Image_new, vips_Image, bind, modify, get_world. cbn.
  destruct (vips w); cbn; [| apply calm_refl].
  destruct (vips_new B _ _ method args); apply calm_trace.
Qed.

Lemma moves_vget img member args : moves R (vget B img member args).
Proof.
  intros w. unfold vget, bind, modify, get_world, lift. cbn. apply calm_trace.
Qed.

Lemma moves_mkdir batches `{!MakesDirs batches R} dir :
  batches (dir_chain (String.length dir) dir) -> moves R (mkdir B dir).
Proof.
  intros Hdir w. unfold mkdir, bind, get_world, modify, throw. cbn.
  destruct (_ && _); cbn; [by apply makes_dirs | apply calm_refl].
Qed.

Lemma moves_ensureDirectoryExists batches `{!MakesDirs batches R} p :
  (forall s, p = JStr s -> batches (dir_chain (String.length (dirname s)) (dirname s))) ->
  moves R (ensureDirectoryExists B p).
Proof.
  intros Hp. unfold ensureDirectoryExists.
  destruct p; try (by apply moves_pure).
  apply moves_bind_ret.
  apply moves_try; [apply (moves_mkdir batches); by apply Hp | intros e; apply moves_ret].
Qed.

Lemma moves_toFile allowed `{!Writes allowed R} p out :
  (forall path, out = JStr path -> allowed path) -> moves R (toFile B p out).
Proof.
  intros Hout. destruct out; try apply moves_throw.
  intros w. unfold toFile, bind, modify, get_world, lift. cbn.
  destruct (sharp_toFile B _ p s); cbn; [| apply calm_trace].
  eapply calm_trans; [apply (calm_trace (CSharpToFile p s)) |].
  apply (writes s a (add_trace (CSharpToFile p s) w)). by apply Hout.
Qed.

Lemma moves_writeToFile allowed `{!Writes allowed R} img out :
  (forall path, out = JStr path -> allowed path) -> moves R (writeToFile B img out).
Proof.
  intros Hout. destruct out; try apply moves_throw.
  intros w. unfold writeToFile, bind, modify, get_world, lift. cbn.
  destruct (vips_writeToFile B _ img s); cbn; [| apply calm_trace].
  eapply calm_trans; [apply (calm_trace (CVipsWrite img s)) |].
  apply (writes s a (add_trace (CVipsWrite img s) w)). by apply Hout.
Qed.

Lemma moves_pyramid_loop allowed `{!Writes allowed R} input_path output_dir scale_factor levels :
  (forall level, allowed (level_path output_dir level)) ->
  forall cw ch acc,
    moves R (pyramid_loop B input_path output_dir scale_factor levels cw ch acc).
Proof.
  intros Hall. induction levels as [| level rest IH]; intros cw ch acc; cbn [pyramid_loop].
  - apply moves_ret.
  - apply moves_bind; [| intros _; apply IH].
    apply (moves_toFile allowed). by intros path [= <-].
Qed.

End Footprint.

Ltac moves_prim :=
  first
  [ apply moves_unless_exists
  | apply moves_metadata | apply moves_stats | apply moves_statSync_size
  | apply moves_console_log | apply moves_console_warn | apply moves_initVips
  | apply moves_vips_Image_new | apply moves_vget
  | apply moves_replace_hash | apply moves_js_length | apply moves_js_index
  | apply moves_js_flat | apply moves_js_map | apply moves_js_includes
  | apply moves_destructure4 | apply moves_Array_length
  | apply moves_lift | apply moves_ret | apply moves_throw ].

(** A write goes to the path the footprint allows. *)
Ltac footprint_side :=
  first
    [ intros ? ?; unfold footprint; cbn; assumption
    | intros ?; unfold footprint; cbn; eexists; reflexivity
    | intros; exact I ].

Ltac moves_write :=
  match goal with
  | HD : MakesDirs ?batches _ |- moves _ (ensureDirectoryExists _ _) =>
      apply (moves_ensureDirectoryExists _ batches);
      intros ? ?; unfold footdirs; cbn; eexists; split; [eassumption | reflexivity]
  | HW : Writes ?allowed _ |- moves _ (toFile _ _ _) =>
      apply (moves_toFile _ allowed); footprint_side
  | HW : Writes ?allowed _ |- moves _ (writeToFile _ _ _) =>
      apply (moves_writeToFile _ allowed); footprint_side
  | HW : Writes ?allowed _ |- moves _ (pyramid_loop _ _ _ _ _ _ _ _) =>
      apply (moves_pyramid_loop _ allowed); footprint_side
  end.

Ltac moves_walk :=
  repeat first
    [ progress cbv zeta
    | match goal with
      | |- Calm _ => typeclasses eauto
      | |- Logs _ => typeclasses eauto
      end
    | moves_write
    | moves_prim
    | apply moves_bind; [ | intros ? ]
    | match goal with
      | |- moves _ (try_catch _ _) => apply moves_try; [ | intros ? ]
      | |- moves _ (if ?b then _ else _) => destruct b
      | |- moves _ (match ?x with _ => _ end) => destruct x
      end ].

Ltac moves_case :=
  autounfold with cases_db; unfold destructure;
  apply moves_bind_ret; cbv beta;
  autounfold with blocks_db; moves_walk.

Section FootprintCases.

Variable B : Backends.
Context {R : World -> World -> Prop} `{!Calm R}.

(** Every case, within its footprint. *)
Lemma moves_cases `{!Logs R} :
  Forall (fun entry => forall a,
            MakesDirs (footdirs (fst entry) a) R -> Writes (footprint (fst entry) a) R ->
            moves R (snd entry (Some a))) (cases B).
Proof.
  unfold cases.
  each_entry ltac:(cbn [fst snd]; intros a HD HW; moves_case).
Qed.

(** The cases that call sharp only print nothing. *)
Lemma moves_single_backend_cases :
  Forall (fun entry => single_backend B (fst entry) = true ->
                       forall a,
                         MakesDirs (footdirs (fst entry) a) R ->
                         Writes (footprint (fst entry) a) R ->
                         moves R (snd entry (Some a))) (cases B).
Proof.
  unfold cases.
  each_entry ltac:(cbn [fst snd]; intros Hs a HD HW;
                   first [ discriminate Hs | moves_case ]).
Qed.

(** The four cases that have no output make no directory either. *)
Lemma moves_readers `{!Logs R} :
  Forall (fun entry => output_param (fst entry) = None ->
                       forall a, moves R (snd entry (Some a))) (cases B).
Proof.
  unfold cases.
  each_entry ltac:(cbn [fst snd]; intros Hout a;
                   first [ discriminate Hout | moves_case ]).
Qed.

End FootprintCases.

(* ===================================================================== *)
(** ** What an invocation does, and does not do, to the filesystem        *)
(* ===================================================================== *)

#[global] Instance grows_calm : Calm grows.
Proof.
  split; unfold grows; cbn; try (by intuition).
  intros w1 w2 w3 [Hf1 Hd1] [Hf2 Hd2]. split; [by auto | set_solver].
Qed.
#[global] Instance grows_logs : Logs grows.
Proof. intros s w. split; cbn; [done | set_solver]. Qed.
#[global] Instance grows_dirs batches : MakesDirs batches grows.
Proof. intros ds w _. split; cbn; [done | set_solver]. Qed.
#[global] Instance grows_writes allowed : Writes allowed grows.
Proof.
  intros path bytes w _. split; cbn; [| done].
  intros p Hp. destruct (decide (path = p)) as [-> | Hne].
  - rewrite lookup_insert_eq. by eexists.
  - by rewrite lookup_insert_ne.
Qed.

#[global] Instance only_at_calm allowed batches : Calm (only_at allowed batches).
Proof.
  split; unfold only_at; cbn; try (by intuition).
  intros w1 w2 w3 [Hf1 Hd1] [Hf2 Hd2]. split.
  - intros p Hp. by rewrite Hf2, Hf1.
  - intros d Hd. destruct (Hd2 d Hd) as [H2 | H2]; [by apply Hd1 | by right].
Qed.
#[global] Instance only_at_logs allowed batches : Logs (only_at allowed batches).
Proof. intros s w. split; cbn; [done | by left]. Qed.
#[global] Instance only_at_dirs allowed batches : MakesDirs batches (only_at allowed batches).
Proof.
  intros ds w Hds. split; cbn; [done |].
  intros d [Hd | Hd]%elem_of_union; [| by left].
  right. exists ds. split; [done |]. by apply elem_of_list_to_set in Hd.
Qed.
#[global] Instance only_at_writes allowed batches : Writes allowed (only_at allowed batches).
Proof.
  intros path bytes w Hpath. split; cbn; [| by left].
  intros p Hp. apply lookup_insert_ne. by intros ->.
Qed.

#[global] Instance same_files_calm : Calm same_files.
Proof. split; unfold same_files; cbn; try done. intros w1 w2 w3 H1 H2. congruence. Qed.
#[global] Instance same_files_logs : Logs same_files.
Proof. by intros s w. Qed.

Lemma cases_without_arguments B :
  Forall (fun entry => forall w,
            snd entry None w =
              (Throw (TypeError ("Cannot destructure property '" +:+ first_param (fst entry) +:+
                                 "' of 'args' as it is undefined.")), w))
         (cases B).
Proof. unfold cases. each_entry ltac:(intros w; reflexivity). Qed.

Lemma moves_dispatch B R `{!Calm R} `{!Logs R} tool_name args :
  (forall a, args = Some a ->
     MakesDirs (footdirs tool_name a) R /\ Writes (footprint tool_name a) R) ->
  moves R (dispatch B tool_name args).
Proof.
  intros HW. unfold dispatch. destruct (assoc tool_name (cases B)) as [body |] eqn:Hbody.
  - destruct args as [a |].
    + destruct (HW a eq_refl) as [HD HWr].
      exact (assoc_Forall _ _ _ _ (moves_cases B) Hbody a HD HWr).
    + intros w. pose proof (assoc_Forall _ _ _ _ (cases_without_arguments B) Hbody w) as H.
      cbn [fst snd] in H. rewrite H. apply calm_refl.
  - apply moves_throw.
Qed.


Lemma dispatch_grows B tool_name args w : grows w (snd (dispatch B tool_name args w)).
Proof. apply (moves_dispatch B grows). intros a _. split; typeclasses eauto. Qed.

(** X1: nothing that exists goes away. *)
Theorem CallTool_never_deletes B tool_name args w :
  let w' := snd (CallTool B tool_name args w) in
  (forall p, is_Some (files (fs w) !! p) -> is_Some (files (fs w') !! p)) /\
  dirs (fs w) ⊆ dirs (fs w') /\
  (forall p, path_exists (fs w) p = true -> path_exists (fs w') p = true).
Proof.
  intros w'. unfold w'. rewrite CallTool_world.
  destruct (dispatch_grows B tool_name args w) as [Hf Hd].
  split; [done |]. split; [done |].
  intros p. unfold path_exists. rewrite !orb_true_iff, !bool_decide_eq_true.
  intros [H | H]; [left; by apply Hf | right; by apply Hd].
Qed.



(** X3: the four operations without an output leave the filesystem as it is. *)
Theorem readers_keep_filesystem B tool_name args w
    (Hreader : In tool_name ["image_info"; "image_histogram"; "image_advanced_stats";
                             "image_texture_analysis"]) :
  fs (snd (CallTool B tool_name args w)) = fs w.
Proof.
  rewrite CallTool_world.
  assert (output_param tool_name = None) as Hout.
  { cbn in Hreader. by destruct Hreader as [<- | [<- | [<- | [<- | []]]]]. }
  unfold dispatch. destruct (assoc tool_name (cases B)) as [body |] eqn:Hbody; [| done].
  destruct args as [a |].
  - exact (assoc_Forall _ _ _ _ (moves_readers B (R := same_files)) Hbody Hout a w).
  - pose proof (assoc_Forall _ _ _ _ (cases_without_arguments B) Hbody w) as H.
    cbn [fst snd] in H. by rewrite H.
Qed.

(* ===================================================================== *)
(** ** A successful answer means the output is there                      *)
(* ===================================================================== *)

Section Lands.

Variable B : Backends.
Variable P : World -> Prop.
Hypothesis P_grows : forall w w', P w -> grows w w' -> P w'.






End Lands.







(* ===================================================================== *)
(** ** ensureDirectoryExists                                              *)
(* ===================================================================== *)

Lemma mkdir_eq B dir w :
  mkdir B dir w =
  let chain := dir_chain (String.length dir) dir in
  if mkdir_permitted B (fs w) dir &&
     forallb (fun d => negb (bool_decide (is_Some (files (fs w) !! d)))) chain
  then (Ok tt, set_fs (add_dirs (fs w) chain) w)
  else (Throw (Error_ ("mkdir '" +:+ dir +:+ "'")), w).
Proof.
  unfold mkdir, bind, get_world, modify, throw. cbn. by destruct (_ && _).
Qed.

Lemma ensureDirectoryExists_eq B s w :
  ensureDirectoryExists B (JStr s) w =
  let dir := dirname s in
  let chain := dir_chain (String.length dir) dir in
  (Ok tt,
   if mkdir_permitted B (fs w) dir &&
      forallb (fun d => negb (bool_decide (is_Some (files (fs w) !! d)))) chain
   then set_fs (add_dirs (fs w) chain) w
   else w).
Proof.
  unfold ensureDirectoryExists, path_dirname, bind, try_catch, ret. cbn -[mkdir].
  rewrite mkdir_eq. cbv zeta. by destruct (_ && _).
Qed.


(** X6: calling [ensureDirectoryExists] a second time changes nothing. *)
Theorem ensureDirectoryExists_idempotent B p w :
  let w1 := snd (ensureDirectoryExists B p w) in
  snd (ensureDirectoryExists B p w1) = w1.
Proof.
  intros w1. unfold w1. clear w1. destruct p; try reflexivity.
  rewrite !ensureDirectoryExists_eq. cbv zeta. cbn [snd].
  set (chain := dir_chain _ _).
  destruct (mkdir_permitted B (fs w) (dirname s) && _) eqn:E1; [| by rewrite E1].
  clear E1. unfold set_fs, add_dirs. cbn. destruct (_ && _); [| done].
  f_equal. f_equal. by rewrite (assoc_L (∪)), (idemp_L (∪)).
Qed.













(* ===================================================================== *)
(** ** When the wasm-vips block cannot do it                              *)
(* ===================================================================== *)

Lemma ensureDirectoryExists_vips B p w : vips (snd (ensureDirectoryExists B p w)) = vips w.
Proof.
  destruct p; try done. rewrite ensureDirectoryExists_eq. cbv zeta. cbn [snd].
  by destruct (_ && _).
Qed.

Lemma prechecks_vips B tool_name a w w1 :
  prechecks B tool_name a w = (Ok tt, w1) -> vips w1 = vips w /\ trace w1 = trace w.
Proof.
  intros H. destruct (prechecks_inv _ _ _ _ _ H) as (_ & Ht & Hout). split; [| done].
  destruct (output_param tool_name) as [k |]; [| by subst].
  destruct Hout as (out & _ & Hens).
  pose proof (ensureDirectoryExists_vips B (JStr out) w) as Hv. by rewrite Hens in Hv.
Qed.

Lemma vips_inits_sharp l : forallb is_sharp_call l = true -> vips_inits l = 0%nat.
Proof.
  induction l as [| c l IH]; [done |]. cbn [forallb]. intros [Hc Hl]%andb_true_iff.
  change (c :: l) with ([c] ++ l). rewrite vips_inits_app, (IH Hl).
  by destruct c.
Qed.

Lemma vips_blocks_without_wasm B e :
  Vips B = Throw e ->
  Forall (fun entry => forall a w, vips w = None ->
            fst (snd entry) a w = (Throw e, add_trace CVipsInit w))
         (two_backend_cases B).
Proof.
  intros Hfail. unfold two_backend_cases.
  each_entry ltac:(cbn [fst snd]; intros a w Hv; autounfold with blocks_db; cbv zeta;
                   apply bind_throw; by rewrite initVips_eq, Hv, Hfail).
Qed.

Lemma two_backend_dispatch B tool_name vips_block sharp_block a w w1 :
  assoc tool_name (two_backend_cases B) = Some (vips_block, sharp_block) ->
  prechecks B tool_name a w = (Ok tt, w1) ->
  dispatch B tool_name (Some a) w = try_catch (vips_block a) (sharp_block a) w1.
Proof.
  intros Hcase Hpre.
  exact (assoc_Forall _ _ _ _ (two_backend_shape B) Hcase a w w1 Hpre).
Qed.

(** X10: on a machine where [Vips()] throws, the handle stays null for good;
    each invocation of an operation with a wasm-vips block calls [Vips()]
    once more, gets the same exception before anything else is done, and is
    answered by the sharp block. *)
Theorem wasm_unavailable B e (Hfail : Vips B = Throw e) :
  (forall f history, vips (run B history (boot f)) = None) /\
  (forall tool_name vips_block sharp_block a w w1,
     assoc tool_name (two_backend_cases B) = Some (vips_block, sharp_block) ->
     vips w = None ->
     prechecks B tool_name a w = (Ok tt, w1) ->
     let w2 := add_trace CVipsInit w1 in
     vips_block a w1 = (Throw e, w2) /\
     CallTool B tool_name (Some a) w =
       match sharp_block a e w2 with
       | (Ok r, w3) => (r, w3)
       | (Throw e', w3) => (error_response e', w3)
       end /\
     vips_inits (trace (snd (CallTool B tool_name (Some a) w))) = S (vips_inits (trace w))).
Proof.
  split.
  - intros f history. apply (run_invariant B (fun w => vips w = None)); [done | | done].
    intros tool_name args w Hw.
    destruct (CallTool_moves B (lazy_only B) tool_name args w) as [_ [Hv | (_ & h & Hh & _)]];
      congruence.
  - intros tool_name vips_block sharp_block a w w1 Hcase Hnull Hpre w2.
    destruct (prechecks_vips _ _ _ _ _ Hpre) as [Hv Ht].
    assert (vips_block a w1 = (Throw e, w2)) as Hblock.
    { apply (assoc_Forall _ _ _ _ (vips_blocks_without_wasm B e Hfail) Hcase). congruence. }
    assert (CallTool B tool_name (Some a) w =
            match sharp_block a e w2 with
            | (Ok r, w3) => (r, w3)
            | (Throw e', w3) => (error_response e', w3)
            end) as Hcall.
    { unfold CallTool. rewrite (two_backend_dispatch _ _ _ _ _ _ _ Hcase Hpre).
      unfold try_catch. rewrite Hblock. by destruct (sharp_block a e w2) as [[r | e'] w3]. }
    split; [done |]. split; [done |]. rewrite Hcall.
    pose proof (assoc_Forall _ _ _ _
                  (sat_sharp_blocks B (R := sharp_calls_only) any (fun _ => I)) Hcase a e w2)
      as [(_ & l & Hl & Hsharp) _].
    cbn [fst snd] in Hl.
    assert (trace (snd (sharp_block a e w2)) = trace w ++ CVipsInit :: l) as Htr.
    { rewrite Hl. unfold w2. cbn. rewrite Ht. by rewrite <- app_assoc. }
    assert (vips_inits (trace (snd (sharp_block a e w2))) = S (vips_inits (trace w))) as Hn.
    { rewrite Htr. change (CVipsInit :: l) with ([CVipsInit] ++ l).
      rewrite !vips_inits_app, (vips_inits_sharp l Hsharp). cbn. lia. }
    by destruct (sharp_block a e w2) as [[r | e'] w3].
Qed.

Section Fails.

Context {R : World -> World -> Prop} `{!Calm R}.

Lemma fails_throw {A} (e : exn) : fails_within R (throw (A := A) e).
Proof. intros w. split; [by exists e | apply calm_refl]. Qed.

Lemma fails_bind_first {A C} (m : M A) (k : A -> M C) :
  fails_within R m -> fails_within R (bind m k).
Proof.
  intros Hm w. destruct (Hm w) as [[e He] HR]. unfold bind.
  destruct (m w) as [[a | e'] w1]; cbn in *; [discriminate He |]. split; [by exists e' | done].
Qed.

Lemma fails_bind_later {A C} (m : M A) (k : A -> M C) :
  moves R m -> (forall a, fails_within R (k a)) -> fails_within R (bind m k).
Proof.
  intros Hm Hk w. specialize (Hm w). unfold bind.
  destruct (m w) as [[a | e] w1]; cbn in *.
  - destruct (Hk a w1) as [He HR]. split; [done | by eapply calm_trans].
  - split; [by exists e | done].
Qed.

End Fails.

Lemma edge_detection_vips_fails B a :
  forallb (fun l => negb (str_is (prop a "method") l)) edge_methods = true ->
  fails_within same_files (image_edge_detection_vips B a).
Proof.
  intros H. pose proof (str_is_none _ _ H) as Hno. unfold image_edge_detection_vips.
  cbv zeta.
  apply (fails_bind_later (R := same_files)); [apply moves_initVips; typeclasses eauto | intros _].
  apply (fails_bind_later (R := same_files)); [apply moves_console_log; typeclasses eauto | intros _].
  apply (fails_bind_later (R := same_files)); [apply moves_vips_Image_new; typeclasses eauto | intros image].
  apply (fails_bind_first (R := same_files)). rewrite !Hno by (cbn; tauto).
  apply (fails_throw (R := same_files)).
Qed.

Lemma add_noise_vips_fails B a :
  forallb (fun l => negb (str_is (prop a "noise_type") l)) noise_types = true ->
  fails_within same_files (image_add_noise_vips B a).
Proof.
  intros H. pose proof (str_is_none _ _ H) as Hno. unfold image_add_noise_vips.
  cbv zeta.
  apply (fails_bind_later (R := same_files)); [apply moves_initVips; typeclasses eauto | intros _].
  apply (fails_bind_later (R := same_files)); [apply moves_console_log; typeclasses eauto | intros _].
  apply (fails_bind_later (R := same_files)); [apply moves_vips_Image_new; typeclasses eauto | intros image].
  apply (fails_bind_first (R := same_files)). rewrite !Hno by (cbn; tauto).
  apply (fails_throw (R := same_files)).
Qed.

(** What a sharp block that warns, writes and answers comes to. *)
Lemma warn_write_answer B warning pipe out answer w :
  (console_warn warning ;; toFile B pipe (JStr out) ;; ret (text_content answer)) w =
  match sharp_toFile B (fs w) pipe out with
  | Ok bytes =>
      (Ok (text_content answer),
       set_fs (write_file (fs w) out bytes)
         (add_trace (CSharpToFile pipe out) (add_console warning w)))
  | Throw e => (Throw e, add_trace (CSharpToFile pipe out) (add_console warning w))
  end.
Proof.
  erewrite bind_ok by apply console_warn_eq.
  destruct (sharp_toFile B (fs w) pipe out) as [bytes | e] eqn:E.
  - erewrite bind_ok; [reflexivity |].
    exact (toFile_ok B pipe out (add_console warning w) bytes E).
  - erewrite bind_throw; [reflexivity |].
    exact (toFile_throw B pipe out (add_console warning w) e E).
Qed.

(** X11: image_edge_detection with a method that is none of the four labels,
    and image_add_noise with a noise type that is none of the three: the
    wasm-vips block throws before it writes, its "Unknown ..." message goes
    nowhere, and the answer is that of the sharp block, which does not look
    at the method or the type. *)
Theorem unknown_variant_served_by_sharp B a w w1 out
    (Hout : prop a "output_path" = JStr out) :
  (forallb (fun l => negb (str_is (prop a "method") l)) edge_methods = true ->
   prechecks B "image_edge_detection" a w = (Ok tt, w1) ->
   exists pipe w2,
     s_input pipe = prop a "input_path" /\
     List.map fst (s_calls pipe) = ["grayscale"; "convolve"] /\
     fs w2 = fs w1 /\
     CallTool B "image_edge_detection" (Some a) w =
       match sharp_toFile B (fs w1) pipe out with
       | Ok bytes =>
           (text_content ("⚡ Edge detection applied (Sharp fallback): " +:+ out),
            set_fs (write_file (fs w1) out bytes) (add_trace (CSharpToFile pipe out) w2))
       | Throw e => (error_response e, add_trace (CSharpToFile pipe out) w2)
       end) /\
  (forallb (fun l => negb (str_is (prop a "noise_type") l)) noise_types = true ->
   prechecks B "image_add_noise" a w = (Ok tt, w1) ->
   exists pipe w2,
     s_input pipe = prop a "input_path" /\
     List.map fst (s_calls pipe) = ["modulate"] /\
     fs w2 = fs w1 /\
     CallTool B "image_add_noise" (Some a) w =
       match sharp_toFile B (fs w1) pipe out with
       | Ok bytes =>
           (text_content ("⚡ Noise approximation applied (Sharp fallback): " +:+ out),
            set_fs (write_file (fs w1) out bytes) (add_trace (CSharpToFile pipe out) w2))
       | Throw e => (error_response e, add_trace (CSharpToFile pipe out) w2)
       end).
Proof.
  split; intros Hlabel Hpre.
  - destruct (edge_detection_vips_fails B a Hlabel w1) as [[e He] Hfs].
    unfold CallTool.
    rewrite (two_backend_dispatch B "image_edge_detection" _ _ a w w1 eq_refl Hpre).
    unfold try_catch. destruct (image_edge_detection_vips B a w1) as [[r | e0] w2];
      cbn in He, Hfs; [discriminate He |].
    unfold image_edge_detection_sharp. cbv zeta. rewrite Hout, warn_write_answer.
    lazymatch goal with
    | |- context [add_trace (CSharpToFile ?p out) ?w3] => exists p, w3
    end.
    split; [reflexivity |]. split; [reflexivity |].
    split; [exact Hfs |]. cbn [fs add_console]. unfold same_files in Hfs. rewrite Hfs.
    destruct (sharp_toFile _ _ _ _); reflexivity.
  - destruct (add_noise_vips_fails B a Hlabel w1) as [[e He] Hfs].
    unfold CallTool.
    rewrite (two_backend_dispatch B "image_add_noise" _ _ a w w1 eq_refl Hpre).
    unfold try_catch. destruct (image_add_noise_vips B a w1) as [[r | e0] w2];
      cbn in He, Hfs; [discriminate He |].
    unfold image_add_noise_sharp. cbv zeta. rewrite Hout, warn_write_answer.
    lazymatch goal with
    | |- context [add_trace (CSharpToFile ?p out) ?w3] => exists p, w3
    end.
    split; [reflexivity |]. split; [reflexivity |].
    split; [exact Hfs |]. cbn [fs add_console]. unfold same_files in Hfs. rewrite Hfs.
    destruct (sharp_toFile _ _ _ _); reflexivity.
Qed.

(* ===================================================================== *)
(** ** The loop of image_morphology                                       *)
(* ===================================================================== *)







(* ===================================================================== *)
(** ** Colours                                                            *)
(* ===================================================================== *)

Lemma parseInt16_hex2 upper n :
  (n < 256)%nat -> parseInt16 (hex2 upper n) = Qn (Z.of_nat n).
Proof.
  intros Hn.
  assert (forallb (fun n => match parseInt16 (hex2 upper n) with
                            | Fin (Qmake z 1) => Z.eqb z (Z.of_nat n)
                            | _ => false
                            end) (seq 0 256) = true) as Hall
    by (destruct upper; vm_compute; reflexivity).
  rewrite forallb_forall in Hall. specialize (Hall n).
  destruct (parseInt16 (hex2 upper n)) as [| [z [| |]]];
    try (by discriminate Hall; apply in_seq; lia).
  assert (In n (seq 0 256)) as Hin by (apply in_seq; lia).
  specialize (Hall Hin). apply Z.eqb_eq in Hall. by subst.
Qed.

Lemma six_digits upper r g b :
  let hex := hex2 upper r +:+ hex2 upper g +:+ hex2 upper b in
  remove_first "#"%char ("#" +:+ hex) = hex /\
  substr 0 2 hex = hex2 upper r /\ substr 2 2 hex = hex2 upper g /\
  substr 4 2 hex = hex2 upper b.
Proof. done. Qed.

Lemma substring_beyond n m :
  forall s, (String.length s <= n)%nat -> substring n m s = "".
Proof.
  induction n as [| n IH]; intros [| c s]; cbn; intros H; try lia.
  - by destruct m.
  - by destruct m.
  - apply IH. lia.
Qed.

Lemma solid_color_eq B a w out colour :
  prop_or a "color" (JStr "#FFFFFF") = JStr colour ->
  prop a "output_path" = JStr out ->
  let hex := remove_first "#"%char colour in
  let w1 := snd (ensureDirectoryExists B (JStr out) w) in
  let pipe := solid_pipe (prop a "width") (prop a "height")
                (JNum (parseInt16 (substr 0 2 hex))) (JNum (parseInt16 (substr 2 2 hex)))
                (JNum (parseInt16 (substr 4 2 hex))) in
  CallTool B "create_solid_color" (Some a) w =
    match sharp_toFile B (fs w1) pipe out with
    | Ok bytes =>
        (text_content ("Solid color image created (" +:+ show (prop a "width") +:+ "x" +:+
                       show (prop a "height") +:+ ", " +:+ colour +:+ "): " +:+ out),
         wrote pipe out bytes w1)
    | Throw e => (error_response e, add_trace (CSharpToFile pipe out) w1)
    end.
Proof.
  intros Hcolor Hout hex w1 pipe. unfold CallTool.
  rewrite (dispatch_case B "create_solid_color" (case_create_solid_color B)); [| reflexivity].
  unfold case_create_solid_color.
  erewrite bind_ok by reflexivity. cbv beta zeta. rewrite Hcolor, Hout.
  erewrite bind_ok by apply ensureDirectoryExists_string.
  erewrite bind_ok by reflexivity.
  fold hex w1. fold (solid_pipe (prop a "width") (prop a "height")
                       (JNum (parseInt16 (substr 0 2 hex)))
                       (JNum (parseInt16 (substr 2 2 hex)))
                       (JNum (parseInt16 (substr 4 2 hex)))). fold pipe.
  destruct (sharp_toFile B (fs w1) pipe out) as [bytes | e] eqn:E.
  - erewrite bind_ok by (by apply toFile_wrote). reflexivity.
  - erewrite bind_throw by (by apply toFile_throw). reflexivity.
Qed.

(** X14: a colour written as "#" and six hexadecimal digits, in either case,
    is read back channel by channel: create_solid_color hands sharp the
    background (r, g, b) and nothing but the output is looked at on disk;
    the colour arrays of image_draw_line and image_flood_fill are [r, g, b]. *)
Theorem six_digit_colour B a w out upper r g b
    (Hr : (r < 256)%nat) (Hg : (g < 256)%nat) (Hb : (b < 256)%nat)
    (Hcolor : prop_or a "color" (JStr "#FFFFFF") =
              JStr ("#" +:+ hex2 upper r +:+ hex2 upper g +:+ hex2 upper b))
    (Hout : prop a "output_path" = JStr out) :
  let colour := "#" +:+ hex2 upper r +:+ hex2 upper g +:+ hex2 upper b in
  let w1 := snd (ensureDirectoryExists B (JStr out) w) in
  let pipe := solid_pipe (prop a "width") (prop a "height")
                (num (Z.of_nat r)) (num (Z.of_nat g)) (num (Z.of_nat b)) in
  CallTool B "create_solid_color" (Some a) w =
    match sharp_toFile B (fs w1) pipe out with
    | Ok bytes =>
        (text_content ("Solid color image created (" +:+ show (prop a "width") +:+ "x" +:+
                       show (prop a "height") +:+ ", " +:+ colour +:+ "): " +:+ out),
         wrote pipe out bytes w1)
    | Throw e => (error_response e, add_trace (CSharpToFile pipe out) w1)
    end /\
  hex_rgb (remove_first "#"%char colour) =
    JArr [num (Z.of_nat r); num (Z.of_nat g); num (Z.of_nat b)].
Proof.
  intros colour w1 pipe.
  destruct (six_digits upper r g b) as (Hhash & H0 & H2 & H4). cbv zeta in *.
  split.
  - rewrite (solid_color_eq B a w out colour Hcolor Hout). cbv zeta.
    unfold colour. rewrite Hhash, H0, H2, H4, !parseInt16_hex2 by done. reflexivity.
  - unfold hex_rgb, colour. rewrite Hhash, H0, H2, H4, !parseInt16_hex2 by done. reflexivity.
Qed.

(** X15: a colour with fewer than five characters after the "#" (the CSS
    shorthand "#FFF", say) is not expanded: the blue channel is NaN, in the
    background of create_solid_color and in the colour arrays alike. *)
Theorem short_colour_has_no_blue B a w out colour
    (Hshort : (String.length (remove_first "#"%char colour) <= 4)%nat)
    (Hcolor : prop_or a "color" (JStr "#FFFFFF") = JStr colour)
    (Hout : prop a "output_path" = JStr out) :
  let hex := remove_first "#"%char colour in
  let w1 := snd (ensureDirectoryExists B (JStr out) w) in
  let pipe := solid_pipe (prop a "width") (prop a "height")
                (JNum (parseInt16 (substr 0 2 hex))) (JNum (parseInt16 (substr 2 2 hex)))
                (JNum NaN) in
  CallTool B "create_solid_color" (Some a) w =
    match sharp_toFile B (fs w1) pipe out with
    | Ok bytes =>
        (text_content ("Solid color image created (" +:+ show (prop a "width") +:+ "x" +:+
                       show (prop a "height") +:+ ", " +:+ colour +:+ "): " +:+ out),
         wrote pipe out bytes w1)
    | Throw e => (error_response e, add_trace (CSharpToFile pipe out) w1)
    end /\
  exists red green, hex_rgb hex = JArr [red; green; JNum NaN].
Proof.
  intros hex w1 pipe.
  assert (parseInt16 (substr 4 2 hex) = NaN) as Hblue.
  { unfold substr. by rewrite substring_beyond. }
  split.
  - rewrite (solid_color_eq B a w out colour Hcolor Hout). cbv zeta. fold hex.
    by rewrite Hblue.
  - unfold hex_rgb. rewrite Hblue. by eexists _, _.
Qed.

(* ===================================================================== *)
(** ** The descriptor table against the switch                            *)
(* ===================================================================== *)

Lemma assoc_None_iff {A} (l : list (string * A)) k :
  assoc k l = None <-> ~ In k (List.map fst l).
Proof.
  induction l as [| [k' x] rest IH]; cbn; [tauto |].
  destruct (String.eqb_spec k k') as [-> | Hne].
  - split; [discriminate | intros H; destruct H; by left].
  - rewrite IH. split; [intros H [E | Hin]; [by symmetry in E | done] | tauto].
Qed.

Lemma tools_cases_names B : List.map name tools_init = List.map fst (cases B).
Proof. reflexivity. Qed.

(** X16: the table and the switch name the same thirty operations, in the same
    order and each once: a listed tool always has a case, and any other name
    is answered with "Unknown tool" and nothing else happens.  A descriptor
    requires only parameters it declares, and it requires every path the
    handler reads or writes for it. *)
Theorem tools_match_cases B :
  List.map name tools_init = List.map fst (cases B) /\
  List.NoDup (List.map name tools_init) /\
  List.length tools_init = 30%nat /\
  (forall tool_name,
     In tool_name (List.map name tools_init) <-> is_Some (assoc tool_name (cases B))) /\
  (forall tool_name args w,
     ~ In tool_name (List.map name tools_init) ->
     CallTool B tool_name args w =
       (error_response (Error_ ("Unknown tool: " +:+ tool_name)), w)) /\
  Forall (fun t =>
            (forall k, In k (required t) -> In k (List.map p_name (properties t))) /\
            (forall k what, In (k, what) (input_params (name t)) -> In k (required t)) /\
            (forall k, output_param (name t) = Some k -> In k (required t)))
         tools_init.
Proof.
  split; [reflexivity |]. split.
  { apply NoDup_ListNoDup. apply (bool_decide_unpack (NoDup _)). vm_compute. reflexivity. }
  split; [reflexivity |]. split; [| split].
  - intros tool_name. rewrite (tools_cases_names B).
    pose proof (assoc_None_iff (cases B) tool_name) as H.
    destruct (assoc tool_name (cases B)) as [body |].
    + split; [by eexists |]. intros _.
      destruct (In_dec string_dec tool_name (List.map fst (cases B))) as [Hin | Hnot]; [done |].
      by apply H in Hnot.
    + split; [| by intros [x Hx]]. intros Hin. exfalso. by apply (proj1 H).
  - intros tool_name args w Hnot. rewrite (tools_cases_names B) in Hnot.
    apply assoc_None_iff in Hnot. unfold CallTool, dispatch. by rewrite Hnot.
  - unfold tools_init.
    each_entry ltac:(
      cbn [required properties name List.map p_name param];
      split; [| split];
      [ intros k Hk; cbn in Hk |- *; tauto
      | intros k what Hk; vm_compute in Hk;
        repeat (destruct Hk as [Hk | Hk]; [injection Hk as <- <-; cbn; tauto |]); done
      | intros k Hk; vm_compute in Hk; first [discriminate Hk | injection Hk as <-; cbn; tauto] ]).
Qed.

Lemma bind_ret_eq {A C} (a : A) (k : A -> M C) : bind (ret a) k = k a.
Proof. reflexivity. Qed.

Lemma prop_insert_ne (a : Bag) k x d : k <> x -> prop (<[k := d]> a) x = prop a x.
Proof. intros H. unfold prop. by rewrite lookup_insert_ne. Qed.

Lemma prop_or_insert_ne (a : Bag) k x d dx :
  k <> x -> prop_or (<[k := d]> a) x dx = prop_or a x dx.
Proof. intros H. unfold prop_or. by rewrite prop_insert_ne. Qed.

Lemma prop_or_insert_default (a : Bag) k d dx :
  a !! k = None -> d <> JUndefined -> d = dx ->
  prop_or (<[k := d]> a) k dx = prop_or a k dx.
Proof.
  intros Hn Hd <-. unfold prop_or, prop. rewrite lookup_insert_eq, Hn. cbn. by destruct d.
Qed.

(** Reads of the bag with the default put in, back to reads of the bag. *)
Ltac without_default :=
  repeat match goal with
         | |- context [prop (<[?k := ?d]> ?a) ?x] =>
             rewrite (prop_insert_ne a k x d) by (intros ?; discriminate)
         | |- context [prop_or (<[?k := ?d]> ?a) ?x ?dx] =>
             first [ rewrite (prop_or_insert_ne a k x d dx) by (intros ?; discriminate)
                   | rewrite (prop_or_insert_default a k d dx)
                       by first [ assumption | discriminate | reflexivity ] ]
         end.

Lemma declared_defaults_apply B :
  Forall (fun te : Tool * (string * (option Bag -> M Response)) =>
            Forall (fun p => forall d, p_default p = Some d ->
                      forall a, a !! p_name p = None ->
                        snd (snd te) (Some (<[p_name p := d]> a)) = snd (snd te) (Some a))
                   (properties (fst te)))
         (combine tools_init (cases B)).
Proof.
  unfold tools_init, cases. cbn [combine].
  each_entry ltac:(
    cbn [fst snd properties];
    each_entry ltac:(
      cbn [p_default p_name param]; intros d Hd;
      first [ discriminate Hd
            | injection Hd as <-; intros a Hnone;
              autounfold with cases_db; unfold destructure; rewrite !bind_ret_eq;
              autounfold with blocks_db; cbv beta zeta;
              without_default; reflexivity ])).
Qed.

Lemma find_assoc_combine {A} (ts : list Tool) (cs : list (string * A)) n t :
  List.map name ts = List.map fst cs ->
  List.find (fun t => String.eqb (name t) n) ts = Some t ->
  exists body, assoc n cs = Some body /\ In (t, (n, body)) (combine ts cs).
Proof.
  revert cs. induction ts as [| t0 ts IH]; intros [| [k body0] cs]; cbn; try done.
  intros [= Hk Hrest]. rewrite Hk, (String.eqb_sym k n).
  destruct (String.eqb_spec n k) as [-> | Hne].
  - intros [= <-]. exists body0. split; [done | by left].
  - intros Hfind. destruct (IH cs Hrest Hfind) as (body & Hb & Hin).
    exists body. split; [done | by right].
Qed.

(** X17: a default the table declares is the default the code applies:
    leaving the parameter out and passing the declared default get the same
    answer and leave the same world. *)
Theorem declared_defaults_are_applied B tool_name t p d a w
    (Htool : find_tool tool_name = Some t)
    (Hp : In p (properties t))
    (Hd : p_default p = Some d)
    (Habsent : a !! p_name p = None) :
  CallTool B tool_name (Some (<[p_name p := d]> a)) w = CallTool B tool_name (Some a) w.
Proof.
  destruct (find_assoc_combine tools_init (cases B) tool_name t eq_refl Htool)
    as (body & Hbody & Hin).
  pose proof (declared_defaults_apply B) as Hall.
  rewrite List.Forall_forall in Hall. specialize (Hall _ Hin). cbn [fst snd] in Hall.
  rewrite List.Forall_forall in Hall. specialize (Hall p Hp d Hd a Habsent).
  unfold CallTool. rewrite !(dispatch_case B tool_name body) by done. by rewrite Hall.
Qed.

Lemma cases_first_parameter B :
  Forall (fun te : Tool * (string * (option Bag -> M Response)) =>
            exists first rest,
              properties (fst te) = first :: rest /\
              forall w,
                snd (snd te) None w =
                  (Throw (TypeError ("Cannot destructure property '" +:+ p_name first +:+
                                     "' of 'args' as it is undefined.")), w))
         (combine tools_init (cases B)).
Proof.
  unfold tools_init, cases. cbn [combine].
  each_entry ltac:(cbn [fst snd properties]; eexists _, _; split; [reflexivity |];
                   intros w; reflexivity).
Qed.

(** X18: a request for a listed tool that carries no arguments is answered
    with the TypeError of the destructuring, which names the first parameter
    the table declares for the tool; nothing is read, made or called. *)
Theorem absent_arguments_rejected B tool_name t w
    (Htool : find_tool tool_name = Some t) :
  exists first rest,
    properties t = first :: rest /\
    CallTool B tool_name None w =
      (error_response
         (TypeError ("Cannot destructure property '" +:+ p_name first +:+
                     "' of 'args' as it is undefined.")), w).
Proof.
  destruct (find_assoc_combine tools_init (cases B) tool_name t eq_refl Htool)
    as (body & Hbody & Hin).
  pose proof (cases_first_parameter B) as Hall.
  rewrite List.Forall_forall in Hall.
  destruct (Hall _ Hin) as (first & rest & Hprops & Hthrow). cbn [fst snd] in *.
  exists first, rest. split; [done |].
  unfold CallTool. by rewrite (dispatch_case B tool_name body), Hthrow.
Qed.

(* ===================================================================== *)
(** ** image_create_pyramid, when a level fails                           *)
(* ===================================================================== *)



(* ===================================================================== *)
(** ** What a case reads of its arguments                                 *)
(* ===================================================================== *)

(** Reads of the bag with one more key, back to reads of the bag. *)
Ltac without_key Hk :=
  repeat match goal with
         | |- context [prop (<[?k := ?v]> ?a) ?x] =>
             rewrite (prop_insert_ne a k x v) by (intros ->; apply Hk; cbn; tauto)
         | |- context [prop_or (<[?k := ?v]> ?a) ?x ?dx] =>
             rewrite (prop_or_insert_ne a k x v dx) by (intros ->; apply Hk; cbn; tauto)
         end.

Lemma undeclared_keys_unread B :
  Forall (fun te : Tool * (string * (option Bag -> M Response)) =>
            forall k v a,
              ~ In k (List.map p_name (properties (fst te))) ->
              snd (snd te) (Some (<[k := v]> a)) = snd (snd te) (Some a))
         (combine tools_init (cases B)).
Proof.
  unfold tools_init, cases. cbn [combine].
  each_entry ltac:(
    cbn [fst snd properties List.map p_name param]; intros k v a Hk;
    autounfold with cases_db; unfold destructure; rewrite !bind_ret_eq;
    autounfold with blocks_db; cbv beta zeta;
    without_key Hk; reflexivity).
Qed.

(** X19: a key of the argument bag that the tool's descriptor does not declare
    is never read: with it or without it, whatever its value, the answer and
    the world are the same. *)
Theorem undeclared_arguments_ignored B tool_name t k v a w
    (Htool : find_tool tool_name = Some t)
    (Hk : ~ In k (List.map p_name (properties t))) :
  CallTool B tool_name (Some (<[k := v]> a)) w = CallTool B tool_name (Some a) w.
Proof.
  destruct (find_assoc_combine tools_init (cases B) tool_name t eq_refl Htool)
    as (body & Hbody & Hin).
  pose proof (undeclared_keys_unread B) as Hall.
  rewrite List.Forall_forall in Hall. specialize (Hall _ Hin k v a Hk). cbn [fst snd] in Hall.
  unfold CallTool. rewrite !(dispatch_case B tool_name body) by done. by rewrite Hall.
Qed.

(** X20: two parameters the table declares are read by no statement of their
    case: [bins] of image_histogram and [threshold] of image_edge_detection
    change neither the answer nor the world. *)
Theorem declared_but_unread B v a w :
  CallTool B "image_histogram" (Some (<["bins" := v]> a)) w =
    CallTool B "image_histogram" (Some a) w /\
  CallTool B "image_edge_detection" (Some (<["threshold" := v]> a)) w =
    CallTool B "image_edge_detection" (Some a) w.
Proof.
  split.
  - unfold CallTool.
    rewrite !(dispatch_case B "image_histogram" (case_image_histogram B)) by reflexivity.
    assert (case_image_histogram B (Some (<["bins" := v]> a)) =
            case_image_histogram B (Some a)) as ->; [| done].
    unfold case_image_histogram; unfold destructure; rewrite !bind_ret_eq.
    cbv beta zeta. by rewrite !prop_insert_ne by (intros ?; discriminate).
  - unfold CallTool.
    rewrite !(dispatch_case B "image_edge_detection" (case_image_edge_detection B))
      by reflexivity.
    assert (case_image_edge_detection B (Some (<["threshold" := v]> a)) =
            case_image_edge_detection B (Some a)) as ->; [| done].
    unfold case_image_edge_detection, image_edge_detection_vips, image_edge_detection_sharp;
      unfold destructure; rewrite !bind_ret_eq.
    cbv beta zeta. by rewrite !prop_insert_ne by (intros ?; discriminate).
Qed.

(* ===================================================================== *)
(** ** Argument errors inside a wasm-vips block                           *)
(* ===================================================================== *)

Lemma served_by_sharp B tool_name vips_block sharp_block a w w1 :
  assoc tool_name (two_backend_cases B) = Some (vips_block, sharp_block) ->
  prechecks B tool_name a w = (Ok tt, w1) ->
  fails_within same_files (vips_block a) ->
  exists e w2,
    vips_block a w1 = (Throw e, w2) /\ fs w2 = fs w1 /\
    CallTool B tool_name (Some a) w =
      match sharp_block a e w2 with
      | (Ok r, w3) => (r, w3)
      | (Throw e', w3) => (error_response e', w3)
      end.
Proof.
  intros Hcase Hpre Hfails. destruct (Hfails w1) as [[e He] Hfs].
  unfold CallTool. rewrite (two_backend_dispatch _ _ _ _ _ _ _ Hcase Hpre). unfold try_catch.
  destruct (vips_block a w1) as [[r | e0] w2]; cbn in He, Hfs; [discriminate He |].
  exists e0, w2. split; [done |]. split; [exact Hfs |].
  by destruct (sharp_block a e0 w2) as [[r | e'] w3].
Qed.

Ltac fails_step lemma :=
  apply (fails_bind_later (R := same_files)); [apply lemma; typeclasses eauto | intros ?].

Lemma perspective_vips_fails B a l :
  prop a "corners" = JArr l -> (List.length l < 4)%nat ->
  fails_within same_files (image_perspective_transform_vips B a).
Proof.
  intros Hc Hl. unfold image_perspective_transform_vips. cbv zeta. rewrite Hc.
  fails_step moves_initVips. fails_step moves_console_log. fails_step moves_vips_Image_new.
  cbn [destructure4]. rewrite bind_ret_eq. cbv beta iota.
  rewrite (nth_overflow l JUndefined (n := 3)) by lia.
  do 6 fails_step moves_js_index.
  apply (fails_bind_first (R := same_files)). apply (fails_throw (R := same_files)).
Qed.

Lemma morphology_vips_fails B a :
  fst (Array_length (prop_or a "kernel_size" (num 3)) (boot {| files := ∅; dirs := ∅ |})) =
    Throw (RangeError "Invalid array length") ->
  fails_within same_files (image_morphology_vips B a).
Proof.
  intros Hk. unfold image_morphology_vips. cbv zeta.
  fails_step moves_initVips. fails_step moves_console_log.
  apply (fails_bind_first (R := same_files)). intros w. rewrite Array_length_pure.
  split; [| done]. exists (RangeError "Invalid array length"). cbn [fst]. rewrite <- Hk.
  destruct (prop_or a "kernel_size" (num 3)) as [| | |[|q]| | | |]; try done.
  cbn. by destruct (_ && _).
Qed.

Lemma replace_hash_fails what v :
  (forall s, v <> JStr s) -> fails_within same_files (replace_hash what v).
Proof.
  intros Hv w. destruct v; cbn; try (split; [by eexists | done]). by destruct (Hv s).
Qed.

Lemma draw_line_vips_fails B a :
  (forall s, prop_or a "color" (JStr "#000000") <> JStr s) ->
  fails_within same_files (image_draw_line_vips B a).
Proof.
  intros Hc. unfold image_draw_line_vips. cbv zeta.
  fails_step moves_initVips. fails_step moves_console_log.
  apply (fails_bind_first (R := same_files)). by apply replace_hash_fails.
Qed.

Lemma flood_fill_vips_fails B a :
  (forall s, prop_or a "fill_color" (JStr "#FF0000") <> JStr s) ->
  fails_within same_files (image_flood_fill_vips B a).
Proof.
  intros Hc. unfold image_flood_fill_vips. cbv zeta.
  fails_step moves_initVips. fails_step moves_console_log.
  apply (fails_bind_first (R := same_files)). by apply replace_hash_fails.
Qed.

(** X12: an argument the wasm-vips block chokes on costs the request nothing
    but the block: fewer than four corners for image_perspective_transform,
    a kernel size that is no array length for image_morphology, a colour
    that is no string for image_draw_line and image_flood_fill make the block
    throw before it writes, and the answer is that of the sharp block. *)
Theorem bad_arguments_absorbed B tool_name vips_block sharp_block a w w1
    (Hcase : assoc tool_name (two_backend_cases B) = Some (vips_block, sharp_block))
    (Hpre : prechecks B tool_name a w = (Ok tt, w1))
    (Hbad :
       (tool_name = "image_perspective_transform" /\
        exists l, prop a "corners" = JArr l /\ (List.length l < 4)%nat) \/
       (tool_name = "image_morphology" /\
        exists q, prop_or a "kernel_size" (num 3) = JNum (Fin q) /\ (Qnum q < 0)%Z) \/
       (tool_name = "image_draw_line" /\
        forall s, prop_or a "color" (JStr "#000000") <> JStr s) \/
       (tool_name = "image_flood_fill" /\
        forall s, prop_or a "fill_color" (JStr "#FF0000") <> JStr s)) :
  exists e w2,
    vips_block a w1 = (Throw e, w2) /\ fs w2 = fs w1 /\
    CallTool B tool_name (Some a) w =
      match sharp_block a e w2 with
      | (Ok r, w3) => (r, w3)
      | (Throw e', w3) => (error_response e', w3)
      end.
Proof.
  apply (served_by_sharp B tool_name vips_block sharp_block a w w1 Hcase Hpre).
  destruct Hbad as [[-> (l & Hc & Hl)] | [[-> (q & Hq & Hneg)] | [[-> Hc] | [-> Hc]]]];
    injection Hcase as <- _.
  - by apply (perspective_vips_fails B a l).
  - apply morphology_vips_fails. rewrite Hq. cbn.
    assert (Qfloor q < 0)%Z as Hfloor.
    { destruct q as [n d]. cbn in *. apply Z.div_lt_upper_bound; lia. }
    destruct (Qeq_bool q (inject_Z (Qfloor q))); cbn; [| done].
    by rewrite (proj2 (Z.leb_gt 0 (Qfloor q)) Hfloor).
  - by apply draw_line_vips_fails.
  - by apply flood_fill_vips_fails.
Qed.

(* ===================================================================== *)
(** ** What three of the sharp cases hand over                            *)
(* ===================================================================== *)

Lemma mapi_from_length {A C} (f : nat -> A -> C) l :
  forall i, List.length (mapi_from i f l) = List.length l.
Proof. induction l as [| x l IH]; intros i; cbn; [done | by rewrite IH]. Qed.

Lemma mapi_from_nth {A C} (f : nat -> A -> C) l d d' :
  forall i k, (k < List.length l)%nat ->
    nth k (mapi_from i f l) d' = f (i + k)%nat (nth k l d).
Proof.
  induction l as [| x l IH]; intros i k Hk; cbn in *; [lia |].
  destruct k as [| k]; [by rewrite Nat.add_0_r |].
  rewrite IH by lia. f_equal. lia.
Qed.

Lemma stats_ok B input w st :
  sharp_stats B (fs w) input = Ok st ->
  stats B input w = (Ok st, add_trace (CSharpStats input) w).
Proof. intros H. unfold stats, bind, modify, get_world, lift. cbn. by rewrite H. Qed.

(** X22: image_histogram answers with one entry for each channel sharp
    reports (each an object, as sharp gives them), in order, entry [i]
    carrying the index [i] and the channel's min, max, mean and stdev; one
    call is made, and no file is touched. *)
Theorem histogram_lists_channels B a w inp st l
    (Hin : prop a "input_path" = JStr inp)
    (Hex : path_exists (fs w) inp = true)
    (Hstats : sharp_stats B (fs w) (JStr inp) = Ok st)
    (Hchannels : field st "channels" = JArr l)
    (Hobjects : Forall (fun channel => exists fields, channel = JObj fields) l) :
  exists channels,
    CallTool B "image_histogram" (Some a) w =
      (text_content
         (JSON_stringify B (JObj [("channels", JArr channels);
                                  ("isOpaque", field st "isOpaque");
                                  ("entropy", field st "entropy");
                                  ("dominantColor", field st "dominant")])),
       add_trace (CSharpStats (JStr inp)) w) /\
    List.length channels = List.length l /\
    forall i, (i < List.length l)%nat ->
      nth i channels JUndefined =
        JObj [("channel", num (Z.of_nat i));
              ("min", field (nth i l JUndefined) "min");
              ("max", field (nth i l JUndefined) "max");
              ("mean", field (nth i l JUndefined) "mean");
              ("stdev", field (nth i l JUndefined) "stdev")].
Proof.
  eexists. split; [| split].
  - unfold CallTool.
    rewrite (dispatch_case B "image_histogram" (case_image_histogram B)); [| reflexivity].
    unfold case_image_histogram.
    erewrite bind_ok by reflexivity. cbv beta zeta. rewrite Hin.
    erewrite bind_ok by (by apply unless_exists_ok).
    erewrite bind_ok by (by apply stats_ok).
    rewrite Hchannels. cbn [js_map]. rewrite bind_ret_eq. reflexivity.
  - apply mapi_from_length.
  - intros i Hi. by rewrite (mapi_from_nth _ l JUndefined JUndefined 0 i Hi).
Qed.



(** X25: image_flip mirrors left to right ([flop]) for the direction
    'horizontal' and top to bottom ([flip]) for anything else, a direction
    outside the two declared or none at all included; the answer repeats the
    direction as given. *)
Theorem flip_is_vertical_unless_horizontal B a w inp out
    (Hin : prop a "input_path" = JStr inp)
    (Hex : path_exists (fs w) inp = true)
    (Hout : prop a "output_path" = JStr out) :
  let w1 := snd (ensureDirectoryExists B (JStr out) w) in
  let pipe := call (sharp (JStr inp))
                (if str_is (prop a "direction") "horizontal" then "flop" else "flip") [] in
  CallTool B "image_flip" (Some a) w =
    match sharp_toFile B (fs w1) pipe out with
    | Ok bytes =>
        (text_content ("Image flipped " +:+ show (prop a "direction") +:+ "ly: " +:+ out),
         wrote pipe out bytes w1)
    | Throw e => (error_response e, add_trace (CSharpToFile pipe out) w1)
    end.
Proof.
  intros w1 pipe. unfold CallTool.
  rewrite (dispatch_case B "image_flip" (case_image_flip B)); [| reflexivity].
  unfold case_image_flip.
  erewrite bind_ok by reflexivity. cbv beta zeta. rewrite Hin, Hout.
  erewrite bind_ok by (by apply unless_exists_ok).
  erewrite bind_ok by apply ensureDirectoryExists_string.
  fold w1.
  assert ((if str_is (prop a "direction") "horizontal"
           then call (sharp (JStr inp)) "flop" []
           else call (sharp (JStr inp)) "flip" []) = pipe) as ->
    by (unfold pipe; by destruct (str_is _ _)).
  destruct (sharp_toFile B (fs w1) pipe out) as [bytes | e] eqn:E.
  - erewrite bind_ok by (by apply toFile_wrote). reflexivity.
  - erewrite bind_throw by (by apply toFile_throw). reflexivity.
Qed.

(** X26: image_convert with one of the six formats calls the sharp method
    of that name with the quality given, or with 80 when the quality is
    absent, zero or otherwise falsy. *)
Theorem convert_calls_the_format B a w inp out format
    (Hin : prop a "input_path" = JStr inp)
    (Hex : path_exists (fs w) inp = true)
    (Hout : prop a "output_path" = JStr out)
    (Hformat : prop a "format" = JStr format)
    (Hknown : In format convert_formats) :
  let w1 := snd (ensureDirectoryExists B (JStr out) w) in
  let quality := if truthy (prop a "quality") then prop a "quality" else num 80 in
  let pipe := call (sharp (JStr inp)) format [AVal (JObj [("quality", quality)])] in
  CallTool B "image_convert" (Some a) w =
    match sharp_toFile B (fs w1) pipe out with
    | Ok bytes =>
        (text_content ("Image converted to " +:+ format +:+ ": " +:+ out),
         wrote pipe out bytes w1)
    | Throw e => (error_response e, add_trace (CSharpToFile pipe out) w1)
    end.
Proof.
  intros w1 quality pipe. unfold CallTool.
  rewrite (dispatch_case B "image_convert" (case_image_convert B)); [| reflexivity].
  unfold case_image_convert.
  erewrite bind_ok by reflexivity. cbv beta zeta. rewrite Hin, Hout, Hformat.
  erewrite bind_ok by (by apply unless_exists_ok).
  erewrite bind_ok by apply ensureDirectoryExists_string.
  fold w1. unfold js_or. fold quality.
  assert ((if str_is (JStr format) "jpeg"
           then call (sharp (JStr inp)) "jpeg" [AVal (JObj [("quality", quality)])]
           else if str_is (JStr format) "png"
           then call (sharp (JStr inp)) "png" [AVal (JObj [("quality", quality)])]
           else if str_is (JStr format) "webp"
           then call (sharp (JStr inp)) "webp" [AVal (JObj [("quality", quality)])]
           else if str_is (JStr format) "tiff"
           then call (sharp (JStr inp)) "tiff" [AVal (JObj [("quality", quality)])]
           else if str_is (JStr format) "avif"
           then call (sharp (JStr inp)) "avif" [AVal (JObj [("quality", quality)])]
           else if str_is (JStr format) "heif"
           then call (sharp (JStr inp)) "heif" [AVal (JObj [("quality", quality)])]
           else sharp (JStr inp)) = pipe) as ->.
  { unfold pipe. cbn in Hknown.
    destruct Hknown as [<- | [<- | [<- | [<- | [<- | [<- | []]]]]]]; reflexivity. }
  destruct (sharp_toFile B (fs w1) pipe out) as [bytes | e] eqn:E.
  - erewrite bind_ok by (by apply toFile_wrote). reflexivity.
  - erewrite bind_throw by (by apply toFile_throw). reflexivity.
Qed.

(* ===================================================================== *)
(** ** Who prints                                                         *)
(* ===================================================================== *)

#[global] Instance quiet_calm : Calm quiet.
Proof. split; unfold quiet; cbn; try done. intros w1 w2 w3 H1 H2. congruence. Qed.
#[global] Instance quiet_dirs batches : MakesDirs batches quiet.
Proof. by intros ds w _. Qed.
#[global] Instance quiet_writes allowed : Writes allowed quiet.
Proof. by intros path bytes w _. Qed.

#[global] Instance console_grows_calm : Calm console_grows.
Proof.
  split; unfold console_grows; cbn; try (intros; exists []; by rewrite app_nil_r).
  intros w1 w2 w3 [l1 H1] [l2 H2]. exists (l1 ++ l2). by rewrite H2, H1, <- app_assoc.
Qed.
#[global] Instance console_grows_logs : Logs console_grows.
Proof. intros s w. by exists [s]. Qed.
#[global] Instance console_grows_writes allowed : Writes allowed console_grows.
Proof. intros path bytes w _. exists []. cbn. by rewrite app_nil_r. Qed.

Lemma grown_after_line (l1 : list string) s l3 : exists s' l', l1 ++ s :: l3 = s' :: l'.
Proof. destruct l1 as [| x l1]; cbn; eauto. Qed.

Lemma prints_first {C} s (rest : M C) :
  moves console_grows rest -> prints (bind (console_warn s) (fun _ => rest)).
Proof.
  intros Hrest w. rewrite (bind_ok _ _ _ _ _ (console_warn_eq s w)).
  destruct (Hrest (add_console s w)) as [l Hl]. exists s, l. rewrite Hl. cbn.
  by rewrite <- app_assoc.
Qed.

(** A block that logs right after [initVips], under a handler that warns
    first: one way or the other a line is printed. *)
Lemma try_prints {A C} (m1 : M A) s (rest : M C) (handler : exn -> M C) :
  moves console_grows m1 -> moves console_grows rest ->
  (forall e, prints (handler e)) ->
  prints (try_catch (bind m1 (fun _ => bind (console_log s) (fun _ => rest))) handler).
Proof.
  intros H1 Hrest Hh w. unfold try_catch, bind at 1.
  destruct (H1 w) as [l1 Hl1]. destruct (m1 w) as [[x | e] w1]; cbn [snd] in Hl1.
  - rewrite (bind_ok _ _ _ _ _ (console_log_eq s w1)).
    destruct (Hrest (add_console s w1)) as [l3 Hl3].
    destruct (rest (add_console s w1)) as [[r | e] w3]; cbn [snd] in Hl3 |- *.
    + rewrite Hl3. cbn. rewrite Hl1, <- !app_assoc. cbn.
      destruct (grown_after_line l1 s l3) as (s' & l' & ->). by exists s', l'.
    + destruct (Hh e w3) as (s4 & l4 & Hl4). rewrite Hl4, Hl3. cbn.
      rewrite Hl1, <- !app_assoc. cbn.
      destruct (grown_after_line l1 s (l3 ++ s4 :: l4)) as (s' & l' & ->). by exists s', l'.
  - destruct (Hh e w1) as (s4 & l4 & Hl4). rewrite Hl4, Hl1, <- app_assoc.
    destruct l1 as [| x l1]; cbn; eauto.
Qed.

Lemma blocks_print B :
  Forall (fun entry => forall a, prints (try_catch (fst (snd entry) a) (snd (snd entry) a)))
         (two_backend_cases B).
Proof.
  assert (Writes (fun _ => True) console_grows) as HW by typeclasses eauto.
  unfold two_backend_cases.
  each_entry ltac:(
    cbn [fst snd]; intros a; autounfold with blocks_db; cbv zeta;
    apply try_prints;
    [ apply moves_initVips; typeclasses eauto
    | moves_walk
    | intros e; apply prints_first; moves_walk ]).
Qed.

Lemma prechecks_console B tool_name a w w1 :
  prechecks B tool_name a w = (Ok tt, w1) -> console w1 = console w.
Proof.
  intros H. destruct (prechecks_inv _ _ _ _ _ H) as (_ & _ & Hout).
  destruct (output_param tool_name) as [k |]; [| by subst].
  destruct Hout as (out & _ & Hens). rewrite ensureDirectoryExists_eq in Hens.
  cbv zeta in Hens. injection Hens as <-. by destruct (_ && _).
Qed.

(** X27: the operations that call sharp only never print to the console,
    and neither does a request for a name that is no tool; an operation with
    a wasm-vips block prints at least one line on every invocation that
    passes the existence check and the output-directory step, be it the log
    line of its wasm-vips block or the warning of its sharp block. *)
Theorem console_use B :
  (forall tool_name args w,
     single_backend B tool_name = true ->
     console (snd (CallTool B tool_name args w)) = console w) /\
  (forall tool_name vips_block sharp_block a w w1,
     assoc tool_name (two_backend_cases B) = Some (vips_block, sharp_block) ->
     prechecks B tool_name a w = (Ok tt, w1) ->
     exists s l, console (snd (CallTool B tool_name (Some a) w)) = console w ++ s :: l).
Proof.
  split.
  - intros tool_name args w Hs. rewrite CallTool_world. unfold dispatch.
    destruct (assoc tool_name (cases B)) as [body |] eqn:Hbody; [| done].
    destruct args as [a |].
    + apply (assoc_Forall _ _ _ _ (moves_single_backend_cases B (R := quiet)) Hbody Hs a);
        typeclasses eauto.
    + pose proof (assoc_Forall _ _ _ _ (cases_without_arguments B) Hbody w) as H.
      cbn [fst snd] in H. by rewrite H.
  - intros tool_name vips_block sharp_block a w w1 Hcase Hpre.
    rewrite CallTool_world, (two_backend_dispatch _ _ _ _ _ _ _ Hcase Hpre).
    pose proof (assoc_Forall _ _ _ _ (blocks_print B) Hcase a w1) as (s & l & H).
    cbn [fst snd] in H. exists s, l. by rewrite H, (prechecks_console _ _ _ _ _ Hpre).
Qed.

(* ===================================================================== *)
(** ** The further theorems at work                                       *)
(* ===================================================================== *)

Lemma readers_keep_filesystem_witness :
  In "image_advanced_stats"
     ["image_info"; "image_histogram"; "image_advanced_stats"; "image_texture_analysis"] /\
  fs (snd (CallTool Demo.libs "image_advanced_stats" (Some Demo.stats_photo)
             (boot Demo.disk))) = Demo.disk.
Proof.
  assert (In "image_advanced_stats"
             ["image_info"; "image_histogram"; "image_advanced_stats";
              "image_texture_analysis"]) as H by (simpl; tauto).
  split; [exact H |].
  exact (readers_keep_filesystem Demo.libs "image_advanced_stats" (Some Demo.stats_photo)
           (boot Demo.disk) H).
Defined.





Lemma wasm_unavailable_witness :
  let B := Demo.libs_without_wasm in
  let w := boot Demo.disk in
  Vips B = Throw (Error_ "wasm-vips failed to load") /\
  vips (run B [EvCall "image_fft" (Some Demo.fft_photo);
               EvCall "image_advanced_stats" (Some Demo.stats_photo)] w) = None /\
  vips_inits (trace (snd (CallTool B "image_fft" (Some Demo.fft_photo) w))) = 1%nat.
Proof.
  intros B w.
  assert (Vips B = Throw (Error_ "wasm-vips failed to load")) as Hfail by reflexivity.
  destruct (wasm_unavailable B _ Hfail) as [Hnull Hblock].
  split; [exact Hfail |]. split; [apply (Hnull Demo.disk) |].
  assert (prechecks B "image_fft" Demo.fft_photo w =
          (Ok tt, snd (prechecks B "image_fft" Demo.fft_photo w))) as Hpre
    by (vm_compute; reflexivity).
  destruct (Hblock "image_fft" _ _ Demo.fft_photo w _ eq_refl eq_refl Hpre) as (_ & _ & Hn).
  exact Hn.
Defined.

Lemma unknown_variant_served_by_sharp_witness :
  let B := Demo.libs in
  let w := boot Demo.disk in
  let w1 := snd (prechecks B "image_edge_detection" Samples.edge_canny w) in
  prop Samples.edge_canny "output_path" = JStr "/out/e.png" /\
  forallb (fun l => negb (str_is (prop Samples.edge_canny "method") l)) edge_methods = true /\
  prechecks B "image_edge_detection" Samples.edge_canny w = (Ok tt, w1) /\
  exists pipe, List.map fst (s_calls pipe) = ["grayscale"; "convolve"] /\
               s_input pipe = prop Samples.edge_canny "input_path".
Proof.
  intros B w w1.
  assert (prop Samples.edge_canny "output_path" = JStr "/out/e.png") as Hout
    by (vm_compute; reflexivity).
  assert (forallb (fun l => negb (str_is (prop Samples.edge_canny "method") l)) edge_methods
          = true) as Hlabel by (vm_compute; reflexivity).
  assert (prechecks B "image_edge_detection" Samples.edge_canny w = (Ok tt, w1)) as Hpre
    by (vm_compute; reflexivity).
  split; [exact Hout |]. split; [exact Hlabel |]. split; [exact Hpre |].
  destruct (proj1 (unknown_variant_served_by_sharp B Samples.edge_canny w w1 "/out/e.png" Hout)
              Hlabel Hpre) as (pipe & w2 & Hinput & Hcalls & _).
  exists pipe. split; [exact Hcalls | exact Hinput].
Defined.


Lemma six_digit_colour_witness :
  let a := Samples.orange in
  (255 < 256)%nat /\ (128 < 256)%nat /\ (0 < 256)%nat /\
  prop_or a "color" (JStr "#FFFFFF") =
    JStr ("#" +:+ hex2 false 255 +:+ hex2 false 128 +:+ hex2 false 0) /\
  prop a "output_path" = JStr "/out/o.png" /\
  hex_rgb (remove_first "#"%char "#ff8000") = JArr [num 255; num 128; num 0].
Proof.
  intros a.
  assert (255 < 256)%nat as Hr by lia.
  assert (128 < 256)%nat as Hg by lia.
  assert (0 < 256)%nat as Hb by lia.
  assert (prop_or a "color" (JStr "#FFFFFF") =
          JStr ("#" +:+ hex2 false 255 +:+ hex2 false 128 +:+ hex2 false 0)) as Hcolor
    by (vm_compute; reflexivity).
  assert (prop a "output_path" = JStr "/out/o.png") as Hout by (vm_compute; reflexivity).
  split; [exact Hr |]. split; [exact Hg |]. split; [exact Hb |].
  split; [exact Hcolor |]. split; [exact Hout |].
  exact (proj2 (six_digit_colour Demo.libs a (boot Demo.disk) "/out/o.png" false 255 128 0
                  Hr Hg Hb Hcolor Hout)).
Defined.

Lemma short_colour_has_no_blue_witness :
  let a := Samples.white_shorthand in
  (String.length (remove_first "#"%char "#FFF") <= 4)%nat /\
  prop_or a "color" (JStr "#FFFFFF") = JStr "#FFF" /\
  prop a "output_path" = JStr "/out/w.png" /\
  exists red green, hex_rgb (remove_first "#"%char "#FFF") = JArr [red; green; JNum NaN].
Proof.
  intros a.
  assert (String.length (remove_first "#"%char "#FFF") <= 4)%nat as Hshort
    by (vm_compute; lia).
  assert (prop_or a "color" (JStr "#FFFFFF") = JStr "#FFF") as Hcolor
    by (vm_compute; reflexivity).
  assert (prop a "output_path" = JStr "/out/w.png") as Hout by (vm_compute; reflexivity).
  split; [exact Hshort |]. split; [exact Hcolor |]. split; [exact Hout |].
  exact (proj2 (short_colour_has_no_blue Demo.libs a (boot Demo.disk) "/out/w.png" "#FFF"
                  Hshort Hcolor Hout)).
Defined.

Lemma declared_defaults_are_applied_witness :
  let B := Demo.libs in
  let w := boot Demo.disk in
  let t := Samples.descriptor "image_blur" in
  let p := Samples.parameter t "sigma" in
  find_tool "image_blur" = Some t /\
  In p (properties t) /\
  p_default p = Some (num 1) /\
  Samples.blur_photo !! p_name p = None /\
  fst (CallTool B "image_blur" (Some (<["sigma" := num 1]> Samples.blur_photo)) w) =
    fst (CallTool B "image_blur" (Some Samples.blur_photo) w).
Proof.
  intros B w t p.
  assert (find_tool "image_blur" = Some t) as Htool by reflexivity.
  assert (In p (properties t)) as Hp by (vm_compute; tauto).
  assert (p_default p = Some (num 1)) as Hd by reflexivity.
  assert (Samples.blur_photo !! p_name p = None) as Habsent by (vm_compute; reflexivity).
  split; [exact Htool |]. split; [exact Hp |]. split; [exact Hd |]. split; [exact Habsent |].
  exact (f_equal fst (declared_defaults_are_applied B "image_blur" t p (num 1)
                        Samples.blur_photo w Htool Hp Hd Habsent)).
Defined.

Lemma absent_arguments_rejected_witness :
  let B := Demo.libs in
  let w := boot Demo.disk in
  find_tool "image_composite" = Some (Samples.descriptor "image_composite") /\
  CallTool B "image_composite" None w =
    (error_response
       (TypeError "Cannot destructure property 'base_image_path' of 'args' as it is undefined."),
     w).
Proof.
  intros B w.
  assert (find_tool "image_composite" = Some (Samples.descriptor "image_composite")) as Htool
    by reflexivity.
  split; [exact Htool |].
  destruct (absent_arguments_rejected B "image_composite" _ w Htool)
    as (first & rest & Hprops & Hcall).
  rewrite Hcall. vm_compute in Hprops. injection Hprops as <- _. reflexivity.
Defined.


Lemma undeclared_arguments_ignored_witness :
  let B := Demo.libs in
  let w := boot Demo.disk in
  let t := Samples.descriptor "image_blur" in
  find_tool "image_blur" = Some t /\
  ~ In "radius" (List.map p_name (properties t)) /\
  fst (CallTool B "image_blur" (Some (<["radius" := num 9]> Samples.blur_photo)) w) =
    fst (CallTool B "image_blur" (Some Samples.blur_photo) w).
Proof.
  intros B w t.
  assert (find_tool "image_blur" = Some t) as Htool by reflexivity.
  assert (~ In "radius" (List.map p_name (properties t))) as Hk.
  { vm_compute. intros H. repeat (destruct H as [H | H]; [discriminate H |]). exact H. }
  split; [exact Htool |]. split; [exact Hk |].
  exact (f_equal fst (undeclared_arguments_ignored B "image_blur" t "radius" (num 9)
                        Samples.blur_photo w Htool Hk)).
Defined.

Lemma bad_arguments_absorbed_witness :
  let B := Demo.libs in
  let w := boot Demo.disk in
  let a := Samples.two_corners in
  let w1 := snd (prechecks B "image_perspective_transform" a w) in
  prechecks B "image_perspective_transform" a w = (Ok tt, w1) /\
  (exists l, prop a "corners" = JArr l /\ (List.length l < 4)%nat) /\
  exists e, fst (image_perspective_transform_vips B a w1) = Throw e.
Proof.
  intros B w a w1.
  assert (assoc "image_perspective_transform" (two_backend_cases B) =
          Some (image_perspective_transform_vips B, image_perspective_transform_sharp B))
    as Hcase by reflexivity.
  assert (prechecks B "image_perspective_transform" a w = (Ok tt, w1)) as Hpre
    by (vm_compute; reflexivity).
  assert (exists l, prop a "corners" = JArr l /\ (List.length l < 4)%nat) as Hl.
  { exists [JArr [num 0; num 0]; JArr [num 10; num 0]].
    split; [vm_compute; reflexivity | cbn [List.length]; lia]. }
  split; [exact Hpre |]. split; [exact Hl |].
  destruct (bad_arguments_absorbed B "image_perspective_transform" _ _ a w w1 Hcase Hpre
              (or_introl (conj eq_refl Hl))) as (e & w2 & Hthrow & _).
  exists e. by rewrite Hthrow.
Defined.

Lemma histogram_lists_channels_witness :
  let B := Demo.libs in
  let w := boot Demo.disk in
  let channel := JObj [("min", num 0); ("max", num 255); ("mean", num 128); ("stdev", num 10)] in
  let st := JObj [("channels", JArr [channel]); ("isOpaque", JBool true); ("entropy", num 7)] in
  path_exists (fs w) "/in/photo.jpg" = true /\
  sharp_stats B (fs w) (JStr "/in/photo.jpg") = Ok st /\
  field st "channels" = JArr [channel] /\
  Forall (fun channel => exists fields, channel = JObj fields) [channel] /\
  exists channels,
    List.length channels = 1%nat /\
    nth 0 channels JUndefined =
      JObj [("channel", num 0); ("min", num 0); ("max", num 255); ("mean", num 128);
            ("stdev", num 10)].
Proof.
  intros B w channel st.
  assert (path_exists (fs w) "/in/photo.jpg" = true) as Hex by (vm_compute; reflexivity).
  assert (sharp_stats B (fs w) (JStr "/in/photo.jpg") = Ok st) as Hstats
    by (vm_compute; reflexivity).
  assert (field st "channels" = JArr [channel]) as Hchannels by reflexivity.
  assert (Forall (fun channel => exists fields, channel = JObj fields) [channel]) as Hobjects
    by (apply List.Forall_cons; [by eexists | apply List.Forall_nil]).
  split; [exact Hex |]. split; [exact Hstats |]. split; [exact Hchannels |].
  split; [exact Hobjects |].
  destruct (histogram_lists_channels B Demo.stats_photo w "/in/photo.jpg" st [channel]
              eq_refl Hex Hstats Hchannels Hobjects) as (channels & _ & Hlen & Hnth).
  exists channels. split; [exact Hlen |]. exact (Hnth 0%nat (Nat.lt_0_succ 0)).
Defined.



Lemma flip_is_vertical_unless_horizontal_witness :
  let B := Demo.libs in
  let w := boot Demo.disk in
  path_exists (fs w) "/in/photo.jpg" = true /\
  CallTool B "image_flip" (Some Samples.flip_diagonal) w =
    (text_content "Image flipped diagonally: /out/d.png",
     wrote (call (sharp (JStr "/in/photo.jpg")) "flip" []) "/out/d.png"
       "sharp(jpg 640x480).flip" w).
Proof.
  intros B w.
  assert (path_exists (fs w) "/in/photo.jpg" = true) as Hex by (vm_compute; reflexivity).
  split; [exact Hex |].
  rewrite (flip_is_vertical_unless_horizontal B Samples.flip_diagonal w "/in/photo.jpg"
             "/out/d.png" eq_refl Hex eq_refl).
  vm_compute. reflexivity.
Defined.

Lemma convert_calls_the_format_witness :
  let B := Demo.libs in
  let w := boot Demo.disk in
  path_exists (fs w) "/in/photo.jpg" = true /\
  In "webp" convert_formats /\
  trace (snd (CallTool B "image_convert" (Some Samples.convert_webp) w)) =
    [CSharpToFile (call (sharp (JStr "/in/photo.jpg")) "webp"
                     [AVal (JObj [("quality", num 80)])]) "/out/c.webp"].
Proof.
  intros B w.
  assert (path_exists (fs w) "/in/photo.jpg" = true) as Hex by (vm_compute; reflexivity).
  assert (In "webp" convert_formats) as Hknown by (simpl; tauto).
  split; [exact Hex |]. split; [exact Hknown |].
  rewrite (convert_calls_the_format B Samples.convert_webp w "/in/photo.jpg" "/out/c.webp"
             "webp" eq_refl Hex eq_refl eq_refl Hknown).
  vm_compute. reflexivity.
Defined.
